(** * Background Colour Suggestion Library: the tone analyzer of [src/index.ts]

    A shallow embedding of [perceivedLightness] and [suggestBackground] and the
    properties of the analyzer.

    Numbers are JavaScript numbers, that is IEEE 754 binary64 values: Rocq's
    primitive [float] with the kernel's operations, which round to nearest,
    ties to even, as ECMAScript does, and are specified by [SpecFloat].
    Pixel counters, loop indices and image dimensions are natural numbers;
    they enter the arithmetic through [of_nat].  The RGBA buffer is a list
    of bytes, read by index; a read past its end gives NaN, which is what
    the analyzer makes of [undefined].

    The file has two parts: the definitions (the analyzer as the source
    has it, the same in the words of the specification, the analyzer as a
    state-passing program over its buffer, the bitmaps of the examples,
    and the helpers around the analyzer: the logo URL, the colour chosen
    from a suggestion, the PNG and FMP wrappers over a platform that is a
    parameter, the bitmaps of the unit tests and [relativeLuminance]),
    then the properties, which start with the facts about binary64
    rounding they rest on. *)

From Stdlib Require Import ZArith NArith List Bool Floats Lia PeanoNat.
From Stdlib Require Uint63 Ascii String.
From Stdlib.Strings Require Import Byte.
Import ListNotations.
Import String.StringSyntax.
Delimit Scope string_scope with string.

Set Warnings "-inexact-float".

Local Open Scope float_scope.

(** ** JavaScript numbers *)

Module JS.

Definition number := float.

(** A counter or an index as a number.  Counting up from 0 by [++] is
    exact up to 2^53, where [n + 1] rounds back to [n]: the counter stays
    there. *)
Definition of_nat (n : nat) : number :=
  of_uint63 (Uint63.of_Z (Z.min (Z.of_nat n) (2 ^ 53))).

(** A channel of a [Uint8Array] or [Uint8ClampedArray]. *)
Definition of_byte (b : byte) : number :=
  of_uint63 (Uint63.of_Z (Z.of_N (Byte.to_N b))).

(** [Math.floor]: NaN, the infinities and the zeros are returned as they
    are, and so is a value with a non-negative exponent, an integer
    already; otherwise the signed mantissa is shifted right, which rounds
    towards minus infinity, and the integer obtained (below 2^53 in
    absolute value) is converted back exactly. *)
Definition Math_floor (x : number) : number :=
  match Prim2SF x with
  | S754_finite s m e =>
      if (0 <=? e)%Z then x
      else SF2Prim (binary_normalize prec emax
                      (Z.shiftr (cond_Zopp s (Zpos m)) (- e)) 0 false)
  | _ => x
  end.

(** [Math.min] and [Math.max] of two arguments: NaN is contagious and
    -0 is smaller than +0. *)
Definition Math_min (a b : number) : number :=
  if is_nan a || is_nan b then nan
  else if a <? b then a
  else if b <? a then b
  else if get_sign a then a else b.

Definition Math_max (a b : number) : number :=
  if is_nan a || is_nan b then nan
  else if a <? b then b
  else if b <? a then a
  else if get_sign a then b else a.

(** [a >= b] on numbers. *)
Definition geb (a b : number) : bool := b <=? a.

(** [a > b] on numbers. *)
Definition gtb (a b : number) : bool := b <? a.

End JS.

Import JS.

(** ** Data model *)

Record SuggestionOptions := {
  alphaThreshold : option number;
  ignorePureWhite : option bool;
  ignorePureBlack : option bool;
  edgeSampleRatio : option number
}.

(** [options = {}] *)
Definition no_options : SuggestionOptions :=
  {| alphaThreshold := None; ignorePureWhite := None;
     ignorePureBlack := None; edgeSampleRatio := None |}.

Inductive Tone := light | dark.

Record BackgroundSuggestion := {
  tone : Tone;
  confidence : number;
  foregroundLightness : number;
  foregroundSampled : nat;
  totalSampled : nat
}.

Record ImageLike := {
  width : nat;
  height : nat;
  data : list byte
}.

(** [data[i]]: past the end a typed array yields [undefined], which every
    use in the analyzer turns into NaN ([<], [*]) or compares unequal to
    a number ([===]), as NaN does. *)
Definition read (d : list byte) (i : nat) : number :=
  match nth_error d i with
  | Some b => of_byte b
  | None => nan
  end.

(** The destructured options, defaults applied. *)
Record Settings := {
  s_alphaThreshold : number;
  s_ignorePureWhite : bool;
  s_ignorePureBlack : bool;
  s_edgeSampleRatio : number
}.

Definition destructure (o : SuggestionOptions) : Settings :=
  {| s_alphaThreshold := match alphaThreshold o with Some v => v | None => 16 end;
     s_ignorePureWhite := match ignorePureWhite o with Some v => v | None => true end;
     s_ignorePureBlack := match ignorePureBlack o with Some v => v | None => false end;
     s_edgeSampleRatio := match edgeSampleRatio o with Some v => v | None => 0.4 end |}.

(** ** The analyzer *)

(** HSP (perceived brightness) model scaled to 0-1 *)
Definition perceivedLightness (r g b : number) : number :=
  sqrt (0.299 * r * r + 0.587 * g * g + 0.114 * b * b) / 255.

(** [for (let i = 0; i < n; i++) body] over a loop state. *)
Definition for_loop {S : Type} (n : nat) (body : nat -> S -> S) (s : S) : S :=
  fold_left (fun st i => body i st) (seq 0 n) s.

(** The variables of the first pass. *)
Record Pass1 := {
  fgCount : nat;
  accumLightness : number;
  pureWhiteIgnored : nat;
  pureBlackIgnored : nat
}.

Definition pass1_init : Pass1 :=
  {| fgCount := 0; accumLightness := 0; pureWhiteIgnored := 0; pureBlackIgnored := 0 |}.

(** The body of the inner loop of pass 1; [continue] leaves the state as it is. *)
Definition pass1_body (img : ImageLike) (cfg : Settings) (y x : nat) (st : Pass1) : Pass1 :=
  let idx := ((y * width img + x) * 4)%nat in
  let a := read (data img) (idx + 3) in
  if a <? s_alphaThreshold cfg then st
  else
    let r := read (data img) idx in
    let g := read (data img) (idx + 1) in
    let b := read (data img) (idx + 2) in
    if s_ignorePureWhite cfg && (r =? 255) && (g =? 255) && (b =? 255) then
      {| fgCount := fgCount st; accumLightness := accumLightness st;
         pureWhiteIgnored := S (pureWhiteIgnored st);
         pureBlackIgnored := pureBlackIgnored st |}
    else if s_ignorePureBlack cfg && (r =? 0) && (g =? 0) && (b =? 0) then
      {| fgCount := fgCount st; accumLightness := accumLightness st;
         pureWhiteIgnored := pureWhiteIgnored st;
         pureBlackIgnored := S (pureBlackIgnored st) |}
    else
      let l := perceivedLightness r g b in
      {| fgCount := S (fgCount st); accumLightness := accumLightness st + l;
         pureWhiteIgnored := pureWhiteIgnored st;
         pureBlackIgnored := pureBlackIgnored st |}.

Definition pass1 (img : ImageLike) (cfg : Settings) : Pass1 :=
  for_loop (height img)
    (fun y => for_loop (width img) (fun x => pass1_body img cfg y x)) pass1_init.

(** The variables of the edge pass. *)
Record Pass2 := {
  edgeOpaque : nat;
  edgeLightAccum : number
}.

Definition pass2_init : Pass2 := {| edgeOpaque := 0; edgeLightAccum := 0 |}.

(** [Math.floor(n * edgeSampleRatio)] *)
Definition edgeBand (n : nat) (ratio : number) : number :=
  Math_floor (of_nat n * ratio).

(** [i < band || i >= n - band] *)
Definition inBand (n : nat) (band : number) (i : nat) : bool :=
  (of_nat i <? band) || geb (of_nat i) (of_nat n - band).

Definition edgeBandX (img : ImageLike) (cfg : Settings) : number :=
  edgeBand (width img) (s_edgeSampleRatio cfg).

Definition edgeBandY (img : ImageLike) (cfg : Settings) : number :=
  edgeBand (height img) (s_edgeSampleRatio cfg).

Definition inYBand (img : ImageLike) (cfg : Settings) (y : nat) : bool :=
  inBand (height img) (edgeBandY img cfg) y.

Definition inXBand (img : ImageLike) (cfg : Settings) (x : nat) : bool :=
  inBand (width img) (edgeBandX img cfg) x.

Definition pass2_body (img : ImageLike) (cfg : Settings) (y x : nat) (st : Pass2) : Pass2 :=
  if negb (inYBand img cfg y || inXBand img cfg x) then st
  else
    let idx := ((y * width img + x) * 4)%nat in
    let a := read (data img) (idx + 3) in
    if a <? s_alphaThreshold cfg then st
    else
      let r := read (data img) idx in
      let g := read (data img) (idx + 1) in
      let b := read (data img) (idx + 2) in
      let l := perceivedLightness r g b in
      {| edgeOpaque := S (edgeOpaque st); edgeLightAccum := edgeLightAccum st + l |}.

Definition pass2 (img : ImageLike) (cfg : Settings) : Pass2 :=
  for_loop (height img)
    (fun y => for_loop (width img) (fun x => pass2_body img cfg y x)) pass2_init.

(** [Math.max(0, Math.min(1, confidence))] *)
Definition clamp (c : number) : number := Math_max 0 (Math_min 1 c).

(** The tone and the confidence before the clamp. *)
Definition decide (img : ImageLike) (cfg : Settings) (avgLightness : number)
  : Tone * number :=
  if gtb avgLightness 0.58 then (dark, (avgLightness - 0.58) / 0.42)
  else if avgLightness <? 0.42 then (light, (0.42 - avgLightness) / 0.42)
  else
    let e := pass2 img cfg in
    if (0 <? edgeOpaque e)%nat then
      let edgeAvg := edgeLightAccum e / of_nat (edgeOpaque e) in
      ((if gtb edgeAvg avgLightness then light else dark), 0.3)
    else (dark, 0.1).

Definition suggestBackground (img : ImageLike) (options : SuggestionOptions)
  : BackgroundSuggestion :=
  let cfg := destructure options in
  let totalPixels := (width img * height img)%nat in
  let p := pass1 img cfg in
  if (fgCount p =? 0)%nat then
    {| tone := dark; confidence := 0; foregroundLightness := 0;
       foregroundSampled := 0; totalSampled := totalPixels |}
  else
    let avgLightness := accumLightness p / of_nat (fgCount p) in
    let '(t, c) := decide img cfg avgLightness in
    {| tone := t; confidence := clamp c; foregroundLightness := avgLightness;
       foregroundSampled := fgCount p; totalSampled := totalPixels |}.

(** ** The analyzer in the words of the specification *)

(** Bitmap invariant: the buffer holds four channels for every pixel. *)
Definition well_formed (img : ImageLike) : Prop :=
  (width img * height img * 4 <= length (data img))%nat.

(** The pixels in scan order (row-major), as (row, column). *)
Definition pixels (img : ImageLike) : list (nat * nat) :=
  list_prod (seq 0 (height img)) (seq 0 (width img)).

Section Pixels.

Variable img : ImageLike.
Variable cfg : Settings.

Definition index (p : nat * nat) : nat := ((fst p * width img + snd p) * 4)%nat.

Definition red (p : nat * nat) : number := read (data img) (index p).
Definition green (p : nat * nat) : number := read (data img) (index p + 1).
Definition blue (p : nat * nat) : number := read (data img) (index p + 2).
Definition alpha (p : nat * nat) : number := read (data img) (index p + 3).

Definition isPureWhite (p : nat * nat) : bool :=
  (red p =? 255) && (green p =? 255) && (blue p =? 255).

Definition isPureBlack (p : nat * nat) : bool :=
  (red p =? 0) && (green p =? 0) && (blue p =? 0).

(** Excluded by [ignorePureWhite] or by [ignorePureBlack]. *)
Definition excluded (p : nat * nat) : bool :=
  (s_ignorePureWhite cfg && isPureWhite p) || (s_ignorePureBlack cfg && isPureBlack p).

(** alpha >= alphaThreshold *)
Definition opaque (p : nat * nat) : bool := geb (alpha p) (s_alphaThreshold cfg).

(** The test the code makes: not (alpha < alphaThreshold). *)
Definition kept (p : nat * nat) : bool := negb (alpha p <? s_alphaThreshold cfg).

Definition isForeground (p : nat * nat) : bool := opaque p && negb (excluded p).

Definition lightnessAt (p : nat * nat) : number :=
  perceivedLightness (red p) (green p) (blue p).

Definition foreground : list (nat * nat) := filter isForeground (pixels img).

(** The pixels pass 1 counts, by the tests of the code. *)
Definition counted : list (nat * nat) :=
  filter (fun p => kept p && negb (excluded p)) (pixels img).

Definition inEdgeBand (p : nat * nat) : bool :=
  inYBand img cfg (fst p) || inXBand img cfg (snd p).

Definition edgePixels : list (nat * nat) :=
  filter (fun p => inEdgeBand p && opaque p) (pixels img).

(** The pixels pass 2 counts, by the tests of the code. *)
Definition edgeCounted : list (nat * nat) :=
  filter (fun p => inEdgeBand p && kept p) (pixels img).

End Pixels.

(** A running sum from 0, left to right, as the loops accumulate it. *)
Definition sum (l : list number) : number := fold_left add l 0.

Definition mean (l : list number) : number := sum l / of_nat (length l).

(** avg: the mean perceived lightness of the foreground. *)
Definition avgLightness (img : ImageLike) (cfg : Settings) : number :=
  mean (map (lightnessAt img) (foreground img cfg)).

(** edgeAvg: the mean perceived lightness of the opaque edge pixels. *)
Definition edgeAvg (img : ImageLike) (cfg : Settings) : number :=
  mean (map (lightnessAt img) (edgePixels img cfg)).

(** ** The analyzer as a program over the buffer it is handed

    The typed array is an object shared with the caller.  Here it is the
    state of a small state monad, which the analyzer reaches through
    [load] only; [store] is what a write [data[i] = v] would be. *)

Module Heap.

Definition M (A : Type) : Type := list byte -> A * list byte.

Definition ret {A : Type} (a : A) : M A := fun h => (a, h).

Definition bind {A B : Type} (m : M A) (f : A -> M B) : M B :=
  fun h => let (a, h') := m h in f a h'.

Definition load (i : nat) : M number := fun h => (read h i, h).

Fixpoint update (h : list byte) (i : nat) (v : byte) : list byte :=
  match h, i with
  | [], _ => []
  | _ :: t, O => v :: t
  | b :: t, S j => b :: update t j v
  end.

Definition store (i : nat) (v : byte) : M unit := fun h => (tt, update h i v).

Fixpoint for_from {S : Type} (i n : nat) (body : nat -> S -> M S) (s : S) : M S :=
  match n with
  | O => ret s
  | S k => bind (body i s) (for_from (Datatypes.S i) k body)
  end.

(** [for (let i = 0; i < n; i++) body] *)
Definition for_loop {S : Type} (n : nat) (body : nat -> S -> M S) (s : S) : M S :=
  for_from 0 n body s.

End Heap.

Notation "x <- m ;; k" := (Heap.bind m (fun x => k))
  (at level 61, m at next level, right associativity).

Definition pass1_bodyM (w : nat) (cfg : Settings) (y x : nat) (st : Pass1) : Heap.M Pass1 :=
  let idx := ((y * w + x) * 4)%nat in
  a <- Heap.load (idx + 3) ;;
  if a <? s_alphaThreshold cfg then Heap.ret st
  else
    r <- Heap.load idx ;;
    g <- Heap.load (idx + 1) ;;
    b <- Heap.load (idx + 2) ;;
    if s_ignorePureWhite cfg && (r =? 255) && (g =? 255) && (b =? 255) then
      Heap.ret {| fgCount := fgCount st; accumLightness := accumLightness st;
                  pureWhiteIgnored := S (pureWhiteIgnored st);
                  pureBlackIgnored := pureBlackIgnored st |}
    else if s_ignorePureBlack cfg && (r =? 0) && (g =? 0) && (b =? 0) then
      Heap.ret {| fgCount := fgCount st; accumLightness := accumLightness st;
                  pureWhiteIgnored := pureWhiteIgnored st;
                  pureBlackIgnored := S (pureBlackIgnored st) |}
    else
      let l := perceivedLightness r g b in
      Heap.ret {| fgCount := S (fgCount st); accumLightness := accumLightness st + l;
                  pureWhiteIgnored := pureWhiteIgnored st;
                  pureBlackIgnored := pureBlackIgnored st |}.

Definition pass2_bodyM (w h : nat) (cfg : Settings) (y x : nat) (st : Pass2) : Heap.M Pass2 :=
  let inYBand := inBand h (edgeBand h (s_edgeSampleRatio cfg)) y in
  let inXBand := inBand w (edgeBand w (s_edgeSampleRatio cfg)) x in
  if negb (inYBand || inXBand) then Heap.ret st
  else
    let idx := ((y * w + x) * 4)%nat in
    a <- Heap.load (idx + 3) ;;
    if a <? s_alphaThreshold cfg then Heap.ret st
    else
      r <- Heap.load idx ;;
      g <- Heap.load (idx + 1) ;;
      b <- Heap.load (idx + 2) ;;
      let l := perceivedLightness r g b in
      Heap.ret {| edgeOpaque := S (edgeOpaque st);
                  edgeLightAccum := edgeLightAccum st + l |}.

Definition decideM (w h : nat) (cfg : Settings) (avg : number) : Heap.M (Tone * number) :=
  if gtb avg 0.58 then Heap.ret (dark, (avg - 0.58) / 0.42)
  else if avg <? 0.42 then Heap.ret (light, (0.42 - avg) / 0.42)
  else
    e <- Heap.for_loop h
           (fun y => Heap.for_loop w (fun x => pass2_bodyM w h cfg y x)) pass2_init ;;
    if (0 <? edgeOpaque e)%nat then
      let edgeAvg := edgeLightAccum e / of_nat (edgeOpaque e) in
      Heap.ret ((if gtb edgeAvg avg then light else dark), 0.3)
    else Heap.ret (dark, 0.1).

(** [suggestBackground({width: w, height: h, data}, options)], [data]
    being the buffer in the state. *)
Definition suggestBackgroundM (w h : nat) (options : SuggestionOptions)
  : Heap.M BackgroundSuggestion :=
  let cfg := destructure options in
  let totalPixels := (w * h)%nat in
  p <- Heap.for_loop h
         (fun y => Heap.for_loop w (fun x => pass1_bodyM w cfg y x)) pass1_init ;;
  if (fgCount p =? 0)%nat then
    Heap.ret {| tone := dark; confidence := 0; foregroundLightness := 0;
                foregroundSampled := 0; totalSampled := totalPixels |}
  else
    let avgLightness := accumLightness p / of_nat (fgCount p) in
    tc <- decideM w h cfg avgLightness ;;
    Heap.ret {| tone := fst tc; confidence := clamp (snd tc);
                foregroundLightness := avgLightness;
                foregroundSampled := fgCount p; totalSampled := totalPixels |}.

(** ** Bitmaps of the test suite and of the examples *)

Definition u8 (n : N) : byte :=
  match Byte.of_N n with Some b => b | None => x00 end.

Definition rgba (r g b a : N) : list byte := [u8 r; u8 g; u8 b; u8 a].

Definition uniform (w h : nat) (px : list byte) : ImageLike :=
  {| width := w; height := h; data := concat (repeat px (w * h)) |}.

Definition light_logo : ImageLike := uniform 2 2 (rgba 240 240 240 255).
Definition dark_logo : ImageLike := uniform 2 2 (rgba 10 10 10 255).
Definition half_transparent : ImageLike :=
  {| width := 2; height := 2;
     data := rgba 0 0 0 0 ++ rgba 0 0 0 0
             ++ rgba 250 250 250 255 ++ rgba 250 250 250 255 |}.

Definition with_flags (w k : bool) : SuggestionOptions :=
  {| alphaThreshold := None; ignorePureWhite := Some w;
     ignorePureBlack := Some k; edgeSampleRatio := None |}.

(** ** Binary64 values, for the rounding facts *)

Module IEEE.

Local Open Scope Z_scope.

(** digits of a positive integer *)
Definition dig (m : Z) : Z := Zdigits2 m.

(** the number of bits [shr_fexp] drops *)
Definition drop (m : Z) : Z := Z.max (dig m - 53) 0.

Definition SFsign (sx : bool) (x : spec_float) : Prop :=
  match x with
  | S754_zero s | S754_infinity s | S754_finite s _ _ => s = sx
  | S754_nan => False
  end.

(** strictly positive: a positive finite number or +infinity *)
Definition SFpos (x : spec_float) : Prop :=
  match x with
  | S754_finite false _ _ | S754_infinity false => True
  | _ => False
  end.

(** The exponent and the integer quotient [SFdiv] starts from. *)
Definition div_exp (mx my : positive) (ex ey : Z) : Z :=
  Z.min (fexp prec emax (dig (Zpos mx) + ex - (dig (Zpos my) + ey))) (ex - ey).

Definition div_quo (mx my : positive) (ex ey : Z) : Z :=
  Zpos mx * 2 ^ (ex - ey - div_exp mx my ex ey) / Zpos my.

(** The remainder of that quotient. *)
Definition div_rem (mx my : positive) (ex ey : Z) : Z :=
  (Zpos mx * 2 ^ (ex - ey - div_exp mx my ex ey)) mod Zpos my.

Definition SFnonneg (x : spec_float) : Prop :=
  match x with
  | S754_zero _ | S754_finite false _ _ | S754_infinity false => True
  | _ => False
  end.

(** The binary64 value of an integer in (0, 2^53): the integer shifted
    left to 53 bits. *)
Definition canon_m (z : Z) : positive := Z.to_pos (z * 2 ^ (53 - dig z)).
Definition canon_e (z : Z) : Z := dig z - 53.
Definition canon (z : Z) : spec_float := S754_finite false (canon_m z) (canon_e z).

End IEEE.

(** ** Definitions the properties are stated with *)

Definition fallback (img : ImageLike) : BackgroundSuggestion :=
  {| tone := dark; confidence := 0; foregroundLightness := 0;
     foregroundSampled := 0; totalSampled := width img * height img |}.

(** 0 <= x <= 1 *)
Definition in_unit (x : number) : bool := (0 <=? x) && (x <=? 1).

(** The 256 values a channel can take. *)
Definition byte_numbers : list number :=
  Eval vm_compute in map (fun n => of_byte (u8 (N.of_nat n))) (seq 0 256).

(** The two bands of a dimension meet: [n - band <= band]. *)
Definition bandsMeet (n : nat) (band : number) : bool := of_nat n - band <=? band.

Definition with_ratio (r : number) : SuggestionOptions :=
  {| alphaThreshold := None; ignorePureWhite := None;
     ignorePureBlack := None; edgeSampleRatio := Some r |}.

Definition options_of (thr : option number) (iw ib : bool) (ratio : option number)
  : SuggestionOptions :=
  {| alphaThreshold := thr; ignorePureWhite := Some iw;
     ignorePureBlack := Some ib; edgeSampleRatio := ratio |}.

Definition all_white_2x2 : ImageLike := uniform 2 2 (rgba 255 255 255 255).

Definition white_pixel : ImageLike := uniform 1 1 (rgba 255 255 255 255).

Definition grey_3x3 : ImageLike := uniform 3 3 (rgba 128 128 128 255).

Definition grey_2x2 : ImageLike := uniform 2 2 (rgba 128 128 128 255).

(** A 3x3 bitmap, mid grey with a darker centre. *)
Definition dark_centre_3x3 : ImageLike :=
  {| width := 3; height := 3;
     data := concat (repeat (rgba 128 128 128 255) 4)
             ++ rgba 100 100 100 255
             ++ concat (repeat (rgba 128 128 128 255) 4) |}.

Definition white (w h : nat) : ImageLike := uniform w h (rgba 255 255 255 255).
Definition black (w h : nat) : ImageLike := uniform w h (rgba 0 0 0 255).

(** ** JavaScript strings

    A string is a sequence of UTF-16 code units.  [trim] and
    [encodeURIComponent] are the built-ins of ECMA-262
    ([String.prototype.trim], and [Encode] with the unreserved set of
    [encodeURIComponent]), which the helpers build the logo URL with. *)

Module JSString.

Local Open Scope N_scope.

Definition string := list N.

(** Every element a 16-bit code unit. *)
Definition code_units (s : string) : Prop := Forall (fun c => c < 0x10000) s.

(** A string literal of the source, all ASCII. *)
Definition of_ascii (s : String.string) : string :=
  map Ascii.N_of_ascii (String.list_ascii_of_string s).

Arguments of_ascii s%_string.

(** WhiteSpace and LineTerminator: TAB, LF, VT, FF, CR, SP, NBSP, the
    space separators (Zs) and the line and paragraph separators, ZWNBSP. *)
Definition isWhiteSpace (c : N) : bool :=
  ((0x09 <=? c) && (c <=? 0x0D)) || (c =? 0x20) || (c =? 0xA0) || (c =? 0x1680)
  || ((0x2000 <=? c) && (c <=? 0x200A)) || (c =? 0x2028) || (c =? 0x2029)
  || (c =? 0x202F) || (c =? 0x205F) || (c =? 0x3000) || (c =? 0xFEFF).

Fixpoint trimStart (s : string) : string :=
  match s with
  | c :: t => if isWhiteSpace c then trimStart t else s
  | [] => []
  end.

Definition trimEnd (s : string) : string := rev (trimStart (rev s)).

Definition trim (s : string) : string := trimEnd (trimStart s).

(** The characters [encodeURIComponent] leaves as they are: letters,
    digits and [- _ . ! ~ * ' ( )]. *)
Definition isUnreserved (c : N) : bool :=
  ((0x41 <=? c) && (c <=? 0x5A)) || ((0x61 <=? c) && (c <=? 0x7A))
  || ((0x30 <=? c) && (c <=? 0x39))
  || existsb (N.eqb c) (of_ascii "-_.!~*'()").

Definition isLeadSurrogate (c : N) : bool := (0xD800 <=? c) && (c <=? 0xDBFF).
Definition isTrailSurrogate (c : N) : bool := (0xDC00 <=? c) && (c <=? 0xDFFF).

(** The code point of a surrogate pair. *)
Definition codePoint (lead trail : N) : N :=
  (lead - 0xD800) * 0x400 + (trail - 0xDC00) + 0x10000.

(** The UTF-8 transformation of a code point. *)
Definition utf8 (cp : N) : list N :=
  if cp <? 0x80 then [cp]
  else if cp <? 0x800 then [0xC0 + cp / 0x40; 0x80 + cp mod 0x40]
  else if cp <? 0x10000 then
    [0xE0 + cp / 0x1000; 0x80 + (cp / 0x40) mod 0x40; 0x80 + cp mod 0x40]
  else
    [0xF0 + cp / 0x40000; 0x80 + (cp / 0x1000) mod 0x40;
     0x80 + (cp / 0x40) mod 0x40; 0x80 + cp mod 0x40].

(** An uppercase hexadecimal digit. *)
Definition hexDigit (n : N) : N := if n <? 10 then 0x30 + n else 0x37 + n.

(** [%XY] for an octet. *)
Definition escape (octet : N) : string :=
  [0x25; hexDigit (octet / 16); hexDigit (octet mod 16)].

(** [encodeURIComponent]: [None] is the URIError thrown on a surrogate
    that has no partner. *)
Fixpoint encodeURIComponent (s : string) : option string :=
  match s with
  | [] => Some []
  | c :: t =>
      if isUnreserved c then option_map (cons c) (encodeURIComponent t)
      else if isTrailSurrogate c then None
      else if isLeadSurrogate c then
        match t with
        | d :: t' =>
            if isTrailSurrogate d then
              option_map (app (flat_map escape (utf8 (codePoint c d))))
                (encodeURIComponent t')
            else None
        | [] => None
        end
      else option_map (app (flat_map escape (utf8 c))) (encodeURIComponent t)
  end.

End JSString.

(** ** The helpers around the analyzer

    The helpers are asynchronous: each returns a promise, modelled by the
    state it settles in.  What they get from the platform ([fetch], the
    pngjs module) is a parameter. *)

(** What a helper's promise is rejected with. *)
Inductive Error :=
| URIError
    (* thrown by [encodeURIComponent] *)
| PlatformError (reason : JSString.string)
    (* a rejection or an exception of [fetch], [arrayBuffer], [import]
       or the PNG decoder *)
| FetchFailed (symbol : JSString.string) (status : nat).
    (* new Error(`Failed to fetch logo for ${symbol}: ${resp.status}`) *)

Inductive Promise (A : Type) :=
| resolved (a : A)
| rejected (e : Error).

Arguments resolved {A} a.
Arguments rejected {A} e.

Definition and_then {A B : Type} (p : Promise A) (k : A -> Promise B) : Promise B :=
  match p with
  | resolved a => k a
  | rejected e => rejected e
  end.

Notation "'await' x ':=' p 'in' k" := (and_then p (fun x => k))
  (at level 10, x name, p at level 200, k at level 200).

(** The part of a [Response] the helpers use. *)
Record Response := {
  ok : bool;
  status : nat;
  arrayBuffer : Promise (list byte)
}.

(** [SuggestionOptions & { apiKey?: string }] *)
Record FmpOptions := {
  suggestion_options : SuggestionOptions;
  apiKey : option JSString.string
}.

(** The [config] of [chooseFmpSymbolBackgroundColor]; [rest_options] are
    the properties the rest pattern [...opts] collects. *)
Record ColorConfig := {
  rest_options : SuggestionOptions;
  config_apiKey : option JSString.string;
  config_lightColor : option JSString.string;
  config_darkColor : option JSString.string;
  config_minConfidenceForUse : option number;
  config_fallbackColor : option JSString.string
}.

(** [config || {}] *)
Definition no_config : ColorConfig :=
  {| rest_options := no_options; config_apiKey := None; config_lightColor := None;
     config_darkColor := None; config_minConfidenceForUse := None;
     config_fallbackColor := None |}.

Record ColorChoice := {
  color : JSString.string;
  suggestion : BackgroundSuggestion
}.

(** [const decided = suggestion.confidence >= minConfidenceForUse
      ? (suggestion.tone === 'dark' ? darkColor : lightColor)
      : (fallbackColor ?? lightColor)], as both colour helpers have it. *)
Definition decided (suggestion : BackgroundSuggestion) (minConfidenceForUse : number)
    (lightColor darkColor : JSString.string) (fallbackColor : option JSString.string)
  : JSString.string :=
  if geb (confidence suggestion) minConfidenceForUse
  then match tone suggestion with dark => darkColor | light => lightColor end
  else match fallbackColor with Some c => c | None => lightColor end.

(** [`https://images.financialmodelingprep.com/symbol/${slug}.png`] *)
Definition logoUrl (slug : JSString.string) : JSString.string :=
  JSString.of_ascii "https://images.financialmodelingprep.com/symbol/"
  ++ slug ++ JSString.of_ascii ".png".

(** The URL [suggestFmpSymbolBackground] fetches:
    the slug is [encodeURIComponent(symbol.trim())]. *)
Definition fmpSymbolUrl (symbol : JSString.string) : Promise JSString.string :=
  match JSString.encodeURIComponent (JSString.trim symbol) with
  | Some slug => resolved (logoUrl slug)
  | None => rejected URIError
  end.

(** The [src] of [chooseFmpSymbolBackgroundColorBrowser]:
    the slug is [encodeURIComponent(symbol)]. *)
Definition browserSrc (symbol : JSString.string) : Promise JSString.string :=
  match JSString.encodeURIComponent symbol with
  | Some slug => resolved (logoUrl slug)
  | None => rejected URIError
  end.

Section Node.

(** [fetch], and the pngjs module as [import('pngjs')] gives it, reduced
    to its [PNG.sync.read]. *)
Variable fetch : JSString.string -> Promise Response.
Variable pngjs : Promise (list byte -> Promise ImageLike).

Definition suggestBackgroundFromPNG (buffer : list byte) (options : option SuggestionOptions)
  : Promise BackgroundSuggestion :=
  await PNG_sync_read := pngjs in
  await png := PNG_sync_read buffer in
  resolved (suggestBackground
              {| width := width png; height := height png; data := data png |}
              (match options with Some o => o | None => no_options end)).

Definition suggestFmpSymbolBackground (symbol : JSString.string) (options : option FmpOptions)
  : Promise BackgroundSuggestion :=
  await url := fmpSymbolUrl symbol in
  await resp := fetch url in
  if negb (ok resp) then rejected (FetchFailed symbol (status resp))
  else
    await arrayBuf := arrayBuffer resp in
    suggestBackgroundFromPNG arrayBuf (option_map suggestion_options options).

Definition chooseFmpSymbolBackgroundColor (symbol : JSString.string)
    (config : option ColorConfig) : Promise ColorChoice :=
  let c := match config with Some c => c | None => no_config end in
  let lightColor :=
    match config_lightColor c with Some v => v | None => JSString.of_ascii "#FFFFFF" end in
  let darkColor :=
    match config_darkColor c with Some v => v | None => JSString.of_ascii "#111111" end in
  let minConfidenceForUse :=
    match config_minConfidenceForUse c with Some v => v | None => 0 end in
  let fallbackColor := config_fallbackColor c in
  await suggestion :=
    suggestFmpSymbolBackground symbol
      (Some {| suggestion_options := rest_options c; apiKey := config_apiKey c |}) in
  resolved {| color := decided suggestion minConfidenceForUse lightColor darkColor
                         fallbackColor;
              suggestion := suggestion |}.

End Node.

(** ** The bitmaps of the unit tests

    [makeImage] of [index.test.ts] builds its bitmap with
    [Uint8ClampedArray.from], which converts every number by
    ToUint8Clamp: NaN to 0, clamped to [0, 255], rounded to the nearest
    integer, to the even one at a tie. *)

(** The integer a number holds, for one that holds an integer. *)
Definition to_Z (x : number) : Z :=
  match Prim2SF x with
  | S754_finite s m e => cond_Zopp s (Z.shiftl (Zpos m) e)
  | _ => 0%Z
  end.

Definition ToUint8Clamp (x : number) : byte :=
  if is_nan x then x00
  else if x <=? 0 then x00
  else if 255 <=? x then xff
  else
    let f := Math_floor x in
    let n := Z.to_N (to_Z f) in
    if f + 0.5 <? x then u8 (n + 1)
    else if x <? f + 0.5 then u8 n
    else if N.even n then u8 n else u8 (n + 1).

Definition makeImage (pixels : list number) (width height : nat) : ImageLike :=
  {| width := width; height := height; data := map ToUint8Clamp pixels |}.

(** ** Relative luminance per WCAG

    [relativeLuminance] is not called by the analyzer.  [Math.pow] is an
    implementation-approximated function of ECMAScript: it is a
    parameter. *)

Section RelativeLuminance.

Variable Math_pow : number -> number -> number.

(** The function mapped over [[r, g, b]]. *)
Definition linearize (v : number) : number :=
  let c := v / 255 in
  if c <=? 0.03928 then c / 12.92 else Math_pow ((c + 0.055) / 1.055) 2.4.

Definition relativeLuminance (r g b : number) : number :=
  let srgb := map linearize [r; g; b] in
  0.2126 * nth 0 srgb nan + 0.7152 * nth 1 srgb nan + 0.0722 * nth 2 srgb nan.

End RelativeLuminance.

(** ** Bitmaps and options the further properties are stated with *)

(** The bitmap over the first [width * height * 4] bytes of its buffer. *)
Definition truncated (img : ImageLike) : ImageLike :=
  {| width := width img; height := height img;
     data := firstn (width img * height img * 4) (data img) |}.

(** The options with another [edgeSampleRatio]. *)
Definition set_ratio (o : SuggestionOptions) (r : option number) : SuggestionOptions :=
  {| alphaThreshold := alphaThreshold o; ignorePureWhite := ignorePureWhite o;
     ignorePureBlack := ignorePureBlack o; edgeSampleRatio := r |}.

(** Two bitmaps of the same size show the same pixels under a
    configuration: the same alpha everywhere, and the same colour wherever
    the alpha test keeps the pixel. *)
Definition same_visible (cfg : Settings) (img img' : ImageLike) : Prop :=
  width img = width img' /\ height img = height img'
  /\ forall p, In p (pixels img) ->
       alpha img p = alpha img' p
       /\ (kept img cfg p = true ->
           red img p = red img' p /\ green img p = green img' p
           /\ blue img p = blue img' p).

(** A list of numbers that never decreases. *)
Fixpoint nondecreasing (l : list number) : bool :=
  match l with
  | a :: (b :: _) as t => (a <=? b) && nondecreasing t
  | _ => true
  end.

(** The value of a channel as an index of [byte_numbers]. *)
Definition level (b : byte) : nat := N.to_nat (Byte.to_N b).

(** ** Strings and platforms the properties of the helpers are stated with *)

(** A string with no unpaired surrogate ([String.prototype.isWellFormed]). *)
Fixpoint isWellFormed (s : JSString.string) : bool :=
  match s with
  | [] => true
  | c :: t =>
      if JSString.isLeadSurrogate c then
        match t with
        | d :: t' => JSString.isTrailSurrogate d && isWellFormed t'
        | [] => false
        end
      else negb (JSString.isTrailSurrogate c) && isWellFormed t
  end.

(** The characters of a slug: unreserved ones and [%]. *)
Definition isSlugChar (c : N) : bool := JSString.isUnreserved c || (c =? 0x25)%N.

(** The code point a UTF-8 sequence of one to four octets stands for. *)
Definition utf8_value (l : list N) : N :=
  match l with
  | [o] => o
  | [o0; o1] => (o0 - 0xC0) * 0x40 + (o1 - 0x80)
  | [o0; o1; o2] => (o0 - 0xE0) * 0x1000 + (o1 - 0x80) * 0x40 + (o2 - 0x80)
  | [o0; o1; o2; o3] =>
      (o0 - 0xF0) * 0x40000 + (o1 - 0x80) * 0x1000 + (o2 - 0x80) * 0x40 + (o3 - 0x80)
  | _ => 0
  end%N.

(** What the first step of [encodeURIComponent] does to [c :: t], when it
    returns [e]. *)
Inductive encoded (c : N) (t e : JSString.string) : Prop :=
| encoded_unreserved (e' : JSString.string) :
    JSString.isUnreserved c = true ->
    JSString.encodeURIComponent t = Some e' -> e = c :: e' ->
    encoded c t e
| encoded_escaped (e' : JSString.string) :
    JSString.isUnreserved c = false ->
    JSString.isLeadSurrogate c = false -> JSString.isTrailSurrogate c = false ->
    JSString.encodeURIComponent t = Some e' ->
    e = flat_map JSString.escape (JSString.utf8 c) ++ e' ->
    encoded c t e
| encoded_pair (d : N) (t' e' : JSString.string) :
    JSString.isUnreserved c = false -> JSString.isLeadSurrogate c = true ->
    t = d :: t' -> JSString.isTrailSurrogate d = true ->
    JSString.encodeURIComponent t' = Some e' ->
    e = flat_map JSString.escape (JSString.utf8 (JSString.codePoint c d)) ++ e' ->
    encoded c t e.

(** A [fetch] that answers every request with status 200 and [body]. *)
Definition fetch_ok (body : list byte) (url : JSString.string) : Promise Response :=
  resolved {| ok := true; status := 200; arrayBuffer := resolved body |}.

(** A pngjs whose decoder returns [img] for every buffer. *)
Definition pngjs_decoding (img : ImageLike) : Promise (list byte -> Promise ImageLike) :=
  resolved (fun _ => resolved img).

(** ** The edge band in rows and columns

    The band of the specification, in integers: the outer [k] of the [n]
    rows (or columns) are the first [k] and the last [k], and [k] is
    floor(n * edgeSampleRatio). *)

(** [k] is floor(x): [k <= x < k + 1]. *)
Definition floor_is (k : nat) (x : number) : Prop :=
  (of_nat k <=? x) = true /\ (x <? of_nat (S k)) = true.

(** Index [i] is one of the first [k] or of the last [k] of [n]; with
    [k >= n] every index is. *)
Definition outer (n k i : nat) : bool := (i <? k)%nat || (n - k <=? i)%nat.

(** The pixels in the outer [ky] rows or the outer [kx] columns. *)
Definition outerBand (img : ImageLike) (ky kx : nat) : list (nat * nat) :=
  filter (fun p => outer (height img) ky (fst p) || outer (width img) kx (snd p))
    (pixels img).

(** * Properties *)

(** ** The tests of [index.test.ts] *)

Example test_light_logo :
  tone (suggestBackground light_logo (with_flags false false)) = dark.
Proof. vm_compute. reflexivity. Qed.

Example test_dark_logo : tone (suggestBackground dark_logo no_options) = light.
Proof. vm_compute. reflexivity. Qed.

Example test_half_transparent :
  foregroundSampled (suggestBackground half_transparent no_options) = 2%nat.
Proof. vm_compute. reflexivity. Qed.

(** ** Order and NaN on numbers *)

Lemma pos_cmp_cont (a b : positive) : Pos.compare_cont Eq a b = Pos.compare a b.
Proof. reflexivity. Qed.

Ltac cmp_cases :=
  repeat match goal with
  | |- context [Z.compare ?a ?b] => destruct (Z.compare_spec a b)
  | |- context [Pos.compare_cont Eq ?a ?b] =>
      rewrite (pos_cmp_cont a b); destruct (Pos.compare_spec a b)
  | H : context [Z.compare ?a ?b] |- _ => destruct (Z.compare_spec a b)
  | H : context [Pos.compare_cont Eq ?a ?b] |- _ =>
      rewrite (pos_cmp_cont a b) in H; destruct (Pos.compare_spec a b)
  end.

Lemma SFcompare_antisym (a b : spec_float) :
  SFcompare b a = option_map CompOpp (SFcompare a b).
Proof.
  destruct a as [[]|[]| |[] ma ea], b as [[]|[]| |[] mb eb]; simpl; try reflexivity;
    cmp_cases; simpl; try reflexivity; try lia.
Qed.

Lemma SFcompare_refl (a : spec_float) : a <> S754_nan -> SFcompare a a = Some Eq.
Proof.
  destruct a as [[]|[]| |[] ma ea]; simpl; try congruence; intros _;
    rewrite Z.compare_refl, pos_cmp_cont, Pos.compare_refl; reflexivity.
Qed.

Lemma SFcompare_None (a b : spec_float) :
  SFcompare a b = None -> a = S754_nan \/ b = S754_nan.
Proof.
  destruct a as [[]|[]| |[] ma ea], b as [[]|[]| |[] mb eb]; simpl;
    try discriminate; auto.
Qed.

Lemma SFleb_trans (a b c : spec_float) :
  SFleb a b = true -> SFleb b c = true -> SFleb a c = true.
Proof.
  unfold SFleb.
  destruct a as [[]|[]| |[] ma ea], b as [[]|[]| |[] mb eb], c as [[]|[]| |[] mc ec];
    simpl; try reflexivity; try discriminate; intros H1 H2;
    cmp_cases; simpl in *; try reflexivity; try discriminate; try lia.
Qed.

Lemma is_nan_spec (x : number) : is_nan x = false <-> Prim2SF x <> S754_nan.
Proof.
  unfold is_nan. rewrite eqb_spec. unfold SFeqb. split.
  - intros H E. rewrite E in H. discriminate.
  - intros H. rewrite (SFcompare_refl _ H). reflexivity.
Qed.

(** A comparison that holds has no NaN operand. *)
Lemma ltb_not_nan (a b : number) : (a <? b) = true -> is_nan a = false /\ is_nan b = false.
Proof.
  rewrite ltb_spec. unfold SFltb. intros H.
  split; apply is_nan_spec; intros E; rewrite E in H;
    destruct (Prim2SF a), (Prim2SF b); discriminate.
Qed.

Lemma leb_not_nan (a b : number) : (a <=? b) = true -> is_nan a = false /\ is_nan b = false.
Proof.
  rewrite leb_spec. unfold SFleb. intros H.
  split; apply is_nan_spec; intros E; rewrite E in H;
    destruct (Prim2SF a), (Prim2SF b); discriminate.
Qed.

(** On numbers that are not NaN, [a >= b] is the negation of [a < b]. *)
Lemma geb_negb_ltb (a b : number) :
  is_nan a = false -> is_nan b = false -> geb a b = negb (a <? b).
Proof.
  intros Ha Hb. apply is_nan_spec in Ha, Hb.
  unfold geb. rewrite leb_spec, ltb_spec. unfold SFleb, SFltb.
  rewrite (SFcompare_antisym (Prim2SF a) (Prim2SF b)).
  destruct (SFcompare (Prim2SF a) (Prim2SF b)) as [[]|] eqn:E; try reflexivity.
  apply SFcompare_None in E. tauto.
Qed.

Lemma ltb_leb (a b : number) : (a <? b) = true -> (a <=? b) = true.
Proof.
  rewrite ltb_spec, leb_spec. unfold SFltb, SFleb.
  destruct (SFcompare (Prim2SF a) (Prim2SF b)) as [[]|]; congruence.
Qed.

Lemma leb_ltb_false (a b : number) : (a <=? b) = true -> (b <? a) = false.
Proof.
  rewrite ltb_spec, leb_spec. unfold SFltb, SFleb.
  rewrite (SFcompare_antisym (Prim2SF a) (Prim2SF b)).
  destruct (SFcompare (Prim2SF a) (Prim2SF b)) as [[]|]; simpl; congruence.
Qed.

Lemma leb_trans (a b c : number) : (a <=? b) = true -> (b <=? c) = true -> (a <=? c) = true.
Proof. rewrite !leb_spec. apply SFleb_trans. Qed.

Lemma leb_ltb_trans (a b c : number) :
  (a <=? b) = true -> (b <? c) = true -> (a <? c) = true.
Proof.
  rewrite leb_spec, !ltb_spec. unfold SFleb, SFltb.
  destruct (Prim2SF a) as [[]|[]| |[] ma ea], (Prim2SF b) as [[]|[]| |[] mb eb],
    (Prim2SF c) as [[]|[]| |[] mc ec];
    simpl; try reflexivity; try discriminate; intros H1 H2;
    cmp_cases; simpl in *; try reflexivity; try discriminate; try lia.
Qed.

Lemma ltb_leb_trans (a b c : number) :
  (a <? b) = true -> (b <=? c) = true -> (a <? c) = true.
Proof.
  rewrite leb_spec, !ltb_spec. unfold SFleb, SFltb.
  destruct (Prim2SF a) as [[]|[]| |[] ma ea], (Prim2SF b) as [[]|[]| |[] mb eb],
    (Prim2SF c) as [[]|[]| |[] mc ec];
    simpl; try reflexivity; try discriminate; intros H1 H2;
    cmp_cases; simpl in *; try reflexivity; try discriminate; try lia.
Qed.

(** ** Rounding in binary64

    Facts about the specification of the operations ([SpecFloat]): what
    [binary_round_aux] returns on a positive integer, and the sign of
    differences and quotients. *)

Module Rounding.

Import IEEE.
Local Open Scope Z_scope.

Lemma fexp_eq (e : Z) : fexp prec emax e = Z.max (e - 53) (-1074).
Proof. reflexivity. Qed.

Lemma digits2_size (p : positive) : digits2_pos p = Pos.size p.
Proof. induction p; simpl; congruence. Qed.

Lemma digits2_bounds (p : positive) :
  2 ^ (Zpos (digits2_pos p) - 1) <= Zpos p < 2 ^ Zpos (digits2_pos p).
Proof.
  rewrite digits2_size. split.
  - pose proof (Pos.size_le p) as H.
    assert (E : Zpos (2 ^ Pos.size p) = 2 ^ Zpos (Pos.size p)) by apply Pos2Z.inj_pow.
    assert (2 ^ Zpos (Pos.size p) <= 2 * Zpos p) by (rewrite <- E; exact H).
    replace (Zpos (Pos.size p)) with (Z.succ (Zpos (Pos.size p) - 1)) in H0 by lia.
    rewrite Z.pow_succ_r in H0 by lia. lia.
  - pose proof (Pos.size_gt p) as H.
    assert (E : Zpos (2 ^ Pos.size p) = 2 ^ Zpos (Pos.size p)) by apply Pos2Z.inj_pow.
    rewrite <- E. exact H.
Qed.

Lemma shr_1_m (mrs : shr_record) :
  0 <= shr_m mrs -> shr_m (shr_1 mrs) = Z.div2 (shr_m mrs).
Proof.
  destruct mrs as [m r s]. simpl. destruct m as [|[p|p|]|p]; simpl; try reflexivity; lia.
Qed.

Lemma iter_shr_m (p : positive) (mrs : shr_record) :
  0 <= shr_m mrs ->
  shr_m (iter_pos shr_1 p mrs) = Z.shiftr (shr_m mrs) (Zpos p).
Proof.
  revert mrs. induction p as [p IH|p IH|]; intros mrs H; simpl.
  - assert (H1 : 0 <= shr_m (shr_1 mrs)).
    { rewrite shr_1_m by exact H. rewrite Z.div2_div. apply Z.div_pos; lia. }
    assert (H2 : 0 <= shr_m (iter_pos shr_1 p (shr_1 mrs))).
    { rewrite IH by exact H1. apply Z.shiftr_nonneg. exact H1. }
    rewrite IH by exact H2. rewrite IH by exact H1. rewrite shr_1_m by exact H.
    rewrite Z.div2_spec, !Z.shiftr_shiftr by lia. f_equal. lia.
  - assert (H2 : 0 <= shr_m (iter_pos shr_1 p mrs)).
    { rewrite IH by exact H. apply Z.shiftr_nonneg. exact H. }
    rewrite IH by exact H2. rewrite IH by exact H.
    rewrite Z.shiftr_shiftr by lia. f_equal. lia.
  - rewrite shr_1_m by exact H. apply Z.div2_spec.
Qed.

Lemma shr_record_of_loc_m (m : Z) (l : location) : shr_m (shr_record_of_loc m l) = m.
Proof. destruct l as [|[]]; reflexivity. Qed.

Lemma dig_bounds (m : Z) : 0 < m -> 2 ^ (dig m - 1) <= m < 2 ^ dig m /\ 0 < dig m.
Proof.
  destruct m as [|p|p]; try lia. intros _. unfold dig. simpl.
  split; [apply digits2_bounds|lia].
Qed.

Lemma dig_unique (m d : Z) : 0 < d -> 2 ^ (d - 1) <= m < 2 ^ d -> dig m = d.
Proof.
  intros Hd [H1 H2].
  assert (Hm : 0 < m) by (pose proof (Z.pow_pos_nonneg 2 (d - 1)); lia).
  destruct (dig_bounds m Hm) as [[B1 B2] B3].
  destruct (Z.lt_trichotomy (dig m) d) as [L|[E|G]]; [|exact E|].
  - assert (2 ^ dig m <= 2 ^ (d - 1)) by (apply Z.pow_le_mono_r; lia). lia.
  - assert (2 ^ d <= 2 ^ (dig m - 1)) by (apply Z.pow_le_mono_r; lia). lia.
Qed.

Lemma shr_fexp_spec (m e : Z) (l : location) :
  0 < m -> -1074 <= e ->
  exists mrs, shr_fexp prec emax m e l = (mrs, e + drop m)
              /\ shr_m mrs = Z.shiftr m (drop m).
Proof.
  intros Hm He. unfold shr_fexp, shr, drop. fold (dig m). rewrite fexp_eq.
  destruct (dig_bounds m Hm) as [_ Hd].
  destruct (Z.max (dig m + e - 53) (-1074) - e) as [|p|p] eqn:K.
  - exists (shr_record_of_loc m l).
    replace (Z.max (dig m - 53) 0) with 0 by lia.
    rewrite Z.add_0_r, shr_record_of_loc_m. split; reflexivity.
  - exists (iter_pos shr_1 p (shr_record_of_loc m l)).
    replace (Z.max (dig m - 53) 0) with (Zpos p) by lia.
    split; [reflexivity|].
    rewrite iter_shr_m; rewrite shr_record_of_loc_m; [reflexivity|lia].
  - exists (shr_record_of_loc m l).
    replace (Z.max (dig m - 53) 0) with 0 by lia.
    rewrite Z.add_0_r, shr_record_of_loc_m. split; reflexivity.
Qed.

Lemma shiftr_drop_bounds (m : Z) :
  0 < m -> 0 < Z.shiftr m (drop m) < 2 ^ 53
           /\ (53 < dig m -> 2 ^ 52 <= Z.shiftr m (drop m)).
Proof.
  intros Hm. destruct (dig_bounds m Hm) as [[B1 B2] B3]. unfold drop.
  destruct (Z.max_spec (dig m - 53) 0) as [[L E]|[L E]]; rewrite E.
  - rewrite Z.shiftr_0_r.
    assert (2 ^ dig m <= 2 ^ 53) by (apply Z.pow_le_mono_r; lia).
    split; [lia|]. intros. lia.
  - rewrite Z.shiftr_div_pow2 by lia.
    assert (P : 0 < 2 ^ (dig m - 53)) by (apply Z.pow_pos_nonneg; lia).
    assert (E1 : 2 ^ dig m = 2 ^ 53 * 2 ^ (dig m - 53)).
    { rewrite <- Z.pow_add_r by lia. f_equal. lia. }
    assert (E2 : 2 ^ (dig m - 1) = 2 ^ 52 * 2 ^ (dig m - 53)).
    { rewrite <- Z.pow_add_r by lia. f_equal. lia. }
    assert (U : m / 2 ^ (dig m - 53) < 2 ^ 53).
    { apply Z.div_lt_upper_bound; lia. }
    assert (D : 2 ^ 52 <= m / 2 ^ (dig m - 53)).
    { apply Z.div_le_lower_bound; lia. }
    lia.
Qed.

Lemma round_nearest_even_cases (m : Z) (l : location) :
  round_nearest_even m l = m \/ round_nearest_even m l = m + 1.
Proof.
  destruct l as [|[]]; simpl; auto. destruct (Z.even m); auto.
Qed.

(** What [binary_round_aux] returns on a positive integer. *)
Lemma binary_round_aux_spec (sx : bool) (m e : Z) (l : location) :
  0 < m -> -1074 <= e ->
  exists m' e',
    binary_round_aux prec emax sx m e l
    = (if e' <=? 971 then S754_finite sx m' e' else S754_infinity sx)
    /\ Zpos m' < 2 ^ 53
    /\ ((e' = e + drop m
         /\ (Zpos m' = Z.shiftr m (drop m) \/ Zpos m' = Z.shiftr m (drop m) + 1))
        \/ (e' = e + drop m + 1 /\ Zpos m' = 2 ^ 52
            /\ Z.shiftr m (drop m) + 1 = 2 ^ 53)).
Proof.
  intros Hm He. unfold binary_round_aux.
  destruct (shr_fexp_spec m e l Hm He) as [mrs [E1 M1]]. rewrite E1.
  destruct (shiftr_drop_bounds m Hm) as [[P1 U1] _].
  set (m1 := Z.shiftr m (drop m)) in *.
  set (m2 := round_nearest_even (shr_m mrs) (loc_of_shr_record mrs)).
  assert (R : m2 = m1 \/ m2 = m1 + 1).
  { unfold m2. rewrite M1. apply round_nearest_even_cases. }
  assert (Hm2 : 0 < m2) by lia.
  assert (He1 : -1074 <= e + drop m) by (unfold drop; lia).
  destruct (shr_fexp_spec m2 (e + drop m) loc_Exact Hm2 He1) as [mrs2 [E2 M2]].
  rewrite E2.
  destruct (Z_lt_le_dec m2 (2 ^ 53)) as [Lt|Ge].
  - (* no carry *)
    assert (D : drop m2 = 0).
    { unfold drop. destruct (dig_bounds m2 Hm2) as [[B1 B2] B3].
      destruct (Z_lt_le_dec 53 (dig m2)) as [G|G]; [|lia].
      assert (2 ^ 53 <= 2 ^ (dig m2 - 1)) by (apply Z.pow_le_mono_r; lia). lia. }
    rewrite D, Z.shiftr_0_r in M2. rewrite D, Z.add_0_r. rewrite M2.
    destruct m2 as [|p2|p2] eqn:Ep; try lia.
    exists p2, (e + drop m). split; [reflexivity|]. split; [lia|]. left. lia.
  - (* the mantissa reached 2^53 *)
    assert (Em : m2 = 2 ^ 53) by lia.
    assert (D : drop m2 = 1).
    { unfold drop. rewrite (dig_unique m2 54); rewrite ?Em; lia. }
    rewrite D in M2. rewrite D, M2, Em. simpl.
    exists 4503599627370496%positive, (e + drop m + 1).
    split; [reflexivity|]. split; [reflexivity|]. right. lia.
Qed.

(** ** Signs *)

Lemma shr_fexp_nonneg (m e : Z) (l : location) :
  0 <= m -> 0 <= shr_m (fst (shr_fexp prec emax m e l)).
Proof.
  intros Hm. unfold shr_fexp, shr.
  destruct (fexp prec emax (Zdigits2 m + e) - e) as [|p|p]; simpl;
    rewrite ?iter_shr_m; rewrite ?shr_record_of_loc_m; try lia.
  apply Z.shiftr_nonneg. lia.
Qed.

Lemma binary_round_aux_sign (sx : bool) (m e : Z) (l : location) :
  0 <= m -> SFsign sx (binary_round_aux prec emax sx m e l).
Proof.
  intros Hm. unfold binary_round_aux.
  pose proof (shr_fexp_nonneg m e l Hm) as N1.
  destruct (shr_fexp prec emax m e l) as [mrs e1]. simpl in N1.
  set (m2 := round_nearest_even (shr_m mrs) (loc_of_shr_record mrs)).
  assert (Hm2 : 0 <= m2).
  { unfold m2. destruct (round_nearest_even_cases (shr_m mrs) (loc_of_shr_record mrs)); lia. }
  pose proof (shr_fexp_nonneg m2 e1 loc_Exact Hm2) as N2.
  destruct (shr_fexp prec emax m2 e1 loc_Exact) as [mrs2 e2]. simpl in N2.
  destruct (shr_m mrs2) as [|p|p]; simpl; try reflexivity; try lia.
  destruct (_ <=? _); simpl; reflexivity.
Qed.

Lemma binary_round_aux_pos (m e : Z) (l : location) :
  0 < m -> -1074 <= e -> SFpos (binary_round_aux prec emax false m e l).
Proof.
  intros Hm He.
  destruct (binary_round_aux_spec false m e l Hm He) as [m' [e' [E _]]].
  rewrite E. destruct (e' <=? 971); exact I.
Qed.

Lemma iter_xO (m d : positive) : Zpos (Pos.iter xO m d) = Zpos m * 2 ^ Zpos d.
Proof.
  induction d as [|d IH] using Pos.peano_ind.
  - simpl. lia.
  - rewrite Pos.iter_succ, Pos2Z.inj_xO, IH, Pos2Z.inj_succ, Z.pow_succ_r by lia. lia.
Qed.

Lemma shl_align_spec (mx : positive) (ex ex' : Z) :
  snd (shl_align mx ex ex') = Z.min ex ex'
  /\ Zpos (fst (shl_align mx ex ex')) = Zpos mx * 2 ^ (ex - Z.min ex ex').
Proof.
  unfold shl_align. destruct (ex' - ex) as [|d|d] eqn:E; cbn [fst snd].
  - replace (Z.min ex ex') with ex by lia. rewrite Z.sub_diag. split; [reflexivity|lia].
  - replace (Z.min ex ex') with ex by lia. rewrite Z.sub_diag. split; [reflexivity|lia].
  - replace (Z.min ex ex') with ex' by lia. rewrite iter_xO.
    split; [reflexivity|]. f_equal. f_equal. lia.
Qed.

Lemma binary_round_pos (p : positive) (e : Z) :
  -1074 <= e -> SFpos (binary_round prec emax false p e).
Proof.
  intros He. unfold binary_round.
  pose proof (shl_align_spec p e (fexp prec emax (Zpos (digits2_pos p) + e))) as [S1 S2].
  destruct (shl_align p e (fexp prec emax (Zpos (digits2_pos p) + e))) as [mz ez].
  simpl in S1, S2. apply binary_round_aux_pos; [lia|].
  rewrite S1, fexp_eq. lia.
Qed.

Lemma binary_normalize_pos (z e : Z) :
  0 < z -> -1074 <= e -> SFpos (binary_normalize prec emax z e false).
Proof.
  intros Hz He. destruct z as [|p|p]; try lia. apply binary_round_pos. exact He.
Qed.

Lemma binary_normalize_sign (z e : Z) :
  0 <= z -> SFsign false (binary_normalize prec emax z e false).
Proof.
  intros Hz. destruct z as [|p|p]; try lia; [simpl; reflexivity|].
  unfold binary_normalize, binary_round.
  destruct (shl_align p e (fexp prec emax (Zpos (digits2_pos p) + e))) as [mz ez].
  apply binary_round_aux_sign. lia.
Qed.

(** ** Valid binary64 values *)

Lemma valid_finite (s : bool) (m : positive) (e : Z) :
  valid_binary (S754_finite s m e) = true ->
  -1074 <= e <= 971 /\ dig (Zpos m) <= 53 /\ (-1074 < e -> dig (Zpos m) = 53).
Proof.
  unfold valid_binary, bounded, canonical_mantissa. intros H.
  apply andb_true_iff in H. destruct H as [H1 H2].
  apply Z.eqb_eq in H1. apply Z.leb_le in H2. rewrite fexp_eq in H1.
  unfold dig. simpl. change (emax - prec) with 971 in H2. lia.
Qed.

Lemma valid_mantissa (s : bool) (m : positive) (e : Z) :
  valid_binary (S754_finite s m e) = true ->
  Zpos m < 2 ^ 53 /\ (-1074 < e -> 2 ^ 52 <= Zpos m).
Proof.
  intros V. destruct (valid_finite s m e V) as [He [D1 D2]].
  destruct (dig_bounds (Zpos m)) as [[B1 B2] B3]; [lia|].
  split.
  - assert (2 ^ dig (Zpos m) <= 2 ^ 53) by (apply Z.pow_le_mono_r; lia). lia.
  - intros G. rewrite (D2 G) in B1. exact B1.
Qed.

(** The lexicographic order on (exponent, mantissa) of valid positive
    finite values is the order of the integers aligned to the smaller
    exponent. *)
Lemma aligned_lt (mx my : positive) (ex ey : Z) :
  valid_binary (S754_finite false mx ex) = true ->
  valid_binary (S754_finite false my ey) = true ->
  SFcompare (S754_finite false my ey) (S754_finite false mx ex) = Some Lt ->
  Zpos my * 2 ^ (ey - Z.min ex ey) < Zpos mx * 2 ^ (ex - Z.min ex ey).
Proof.
  intros Vx Vy C. simpl in C.
  destruct (valid_mantissa _ _ _ Vx) as [Ux Lx].
  destruct (valid_mantissa _ _ _ Vy) as [Uy Ly].
  destruct (valid_finite _ _ _ Vy) as [Hey _].
  destruct (Z.compare_spec ey ex) as [E|L|G]; try discriminate.
  - subst ey. rewrite Z.min_id, Z.sub_diag, Z.pow_0_r, !Z.mul_1_r.
    rewrite pos_cmp_cont in C. injection C as C. apply Pos2Z.pos_lt_pos. exact C.
  - replace (Z.min ex ey) with ey by lia. rewrite Z.sub_diag.
    assert (P : 2 ^ 1 <= 2 ^ (ex - ey)) by (apply Z.pow_le_mono_r; lia).
    assert (2 ^ 52 <= Zpos mx) by (apply Lx; lia).
    rewrite Z.pow_0_r, Z.mul_1_r. change (2 ^ 1) with 2 in P. nia.
Qed.

(** ** Differences and quotients that are strictly positive *)

Lemma aligned_sub_pos (mx my : positive) (ex ey : Z) :
  valid_binary (S754_finite false mx ex) = true ->
  valid_binary (S754_finite false my ey) = true ->
  SFcompare (S754_finite false my ey) (S754_finite false mx ex) = Some Lt ->
  0 < Zpos (fst (shl_align mx ex (Z.min ex ey)))
      - Zpos (fst (shl_align my ey (Z.min ex ey))).
Proof.
  intros Vx Vy C.
  destruct (shl_align_spec mx ex (Z.min ex ey)) as [_ Ex].
  destruct (shl_align_spec my ey (Z.min ex ey)) as [_ Ey].
  rewrite Ex, Ey.
  replace (Z.min ex (Z.min ex ey)) with (Z.min ex ey) by lia.
  replace (Z.min ey (Z.min ex ey)) with (Z.min ex ey) by lia.
  pose proof (aligned_lt mx my ex ey Vx Vy C). lia.
Qed.

Lemma SFcompare_neg (mx my : positive) (ex ey : Z) :
  SFcompare (S754_finite true my ey) (S754_finite true mx ex) = Some Lt ->
  SFcompare (S754_finite false mx ex) (S754_finite false my ey) = Some Lt.
Proof.
  simpl. rewrite !pos_cmp_cont.
  destruct (Z.compare_spec ey ex), (Z.compare_spec ex ey); try lia;
    destruct (Pos.compare_spec my mx), (Pos.compare_spec mx my);
    simpl; intros; subst; try congruence; try lia; try (f_equal; assumption).
Qed.

(** [x - y] is strictly positive when [y < x]. *)
Lemma SFsub_pos (x y : spec_float) :
  valid_binary x = true -> valid_binary y = true ->
  SFltb y x = true -> SFpos (SFsub prec emax x y).
Proof.
  intros Vx Vy L. unfold SFltb in L.
  destruct x as [sx|sx| |sx mx ex], y as [sy|sy| |sy my ey];
    try destruct sx; try destruct sy; try discriminate L; try exact I.
  - (* both negative *)
    unfold SFsub, cond_Zopp.
    assert (C : SFcompare (S754_finite true my ey) (S754_finite true mx ex) = Some Lt).
    { destruct (SFcompare (S754_finite true my ey) (S754_finite true mx ex)) as [[]|];
        try discriminate L; reflexivity. }
    apply SFcompare_neg in C.
    pose proof (aligned_sub_pos my mx ey ex Vy Vx C) as P.
    rewrite (Z.min_comm ey ex) in P.
    destruct (valid_finite _ _ _ Vx) as [Hx _]. destruct (valid_finite _ _ _ Vy) as [Hy _].
    apply binary_normalize_pos; lia.
  - (* x positive, y negative *)
    unfold SFsub, cond_Zopp.
    destruct (valid_finite _ _ _ Vx) as [Hx _]. destruct (valid_finite _ _ _ Vy) as [Hy _].
    apply binary_normalize_pos; lia.
  - (* both positive *)
    unfold SFsub, cond_Zopp.
    assert (C : SFcompare (S754_finite false my ey) (S754_finite false mx ex) = Some Lt).
    { destruct (SFcompare (S754_finite false my ey) (S754_finite false mx ex)) as [[]|];
        try discriminate L; reflexivity. }
    pose proof (aligned_sub_pos mx my ex ey Vx Vy C) as P.
    destruct (valid_finite _ _ _ Vx) as [Hx _]. destruct (valid_finite _ _ _ Vy) as [Hy _].
    apply binary_normalize_pos; lia.
Qed.

Lemma SFdiv_core_spec (mx my : positive) (ex ey : Z) :
  let e' := Z.min (fexp prec emax (dig (Zpos mx) + ex - (dig (Zpos my) + ey))) (ex - ey) in
  SFdiv_core_binary prec emax (Zpos mx) ex (Zpos my) ey
  = (Zpos mx * 2 ^ (ex - ey - e') / Zpos my, e',
     new_location (Zpos my) ((Zpos mx * 2 ^ (ex - ey - e')) mod Zpos my)).
Proof.
  intros e'. unfold SFdiv_core_binary. fold (dig (Zpos mx)) (dig (Zpos my)). fold e'.
  assert (Hs : 0 <= ex - ey - e') by (unfold e'; lia).
  set (m' := match ex - ey - e' with
             | 0 => Zpos mx
             | Zpos _ => Z.shiftl (Zpos mx) (ex - ey - e')
             | Zneg _ => 0
             end).
  assert (Em : m' = Zpos mx * 2 ^ (ex - ey - e')).
  { unfold m'. destruct (ex - ey - e') as [|s|s] eqn:Es.
    - rewrite Z.pow_0_r. lia.
    - apply Z.shiftl_mul_pow2. lia.
    - lia. }
  rewrite <- Em. unfold Z.div, Z.modulo.
  destruct (Z.div_eucl m' (Zpos my)) as [q r]. reflexivity.
Qed.

Lemma div_quo_pos (mx my : positive) (ex ey : Z) :
  -1074 <= ex -> ey <= 0 -> Zpos my < 2 ^ (- ey) ->
  -1074 <= div_exp mx my ex ey /\ 0 < div_quo mx my ex ey.
Proof.
  intros Hex Hey Hmy. unfold div_quo, div_exp.
  destruct (dig_bounds (Zpos mx)) as [[B1 B2] B3]; [lia|].
  destruct (dig_bounds (Zpos my)) as [[C1 C2] C3]; [lia|].
  set (d1 := dig (Zpos mx)) in *. set (d2 := dig (Zpos my)) in *.
  rewrite fexp_eq.
  set (e' := Z.min (Z.max (d1 + ex - (d2 + ey) - 53) (-1074)) (ex - ey)).
  set (s := ex - ey - e').
  assert (Hs : 0 <= s) by (unfold s, e'; lia).
  assert (P : 0 < 2 ^ s) by (apply Z.pow_pos_nonneg; lia).
  assert (Q : Zpos my <= Zpos mx * 2 ^ s).
  { destruct (Z_le_gt_dec (-1074) (d1 + ex - (d2 + ey) - 53)) as [A|A].
    - assert (S1 : d2 <= d1 - 1 + s) by (unfold s, e'; lia).
      assert (E2 : 2 ^ d2 <= 2 ^ (d1 - 1 + s)) by (apply Z.pow_le_mono_r; lia).
      rewrite Z.pow_add_r in E2 by lia.
      nia.
    - assert (S1 : - ey <= s) by (unfold s, e'; lia).
      assert (2 ^ (- ey) <= 2 ^ s) by (apply Z.pow_le_mono_r; lia).
      nia. }
  split; [unfold e'; lia|].
  apply Z.lt_le_trans with 1; [lia|].
  apply Z.div_le_lower_bound; lia.
Qed.

Lemma SFdiv_finite_loc (mx my : positive) (ex ey : Z) :
  SFdiv prec emax (S754_finite false mx ex) (S754_finite false my ey)
  = binary_round_aux prec emax false (div_quo mx my ex ey) (div_exp mx my ex ey)
      (new_location (Zpos my) (div_rem mx my ex ey)).
Proof.
  unfold SFdiv. pose proof (SFdiv_core_spec mx my ex ey) as E. cbv zeta in E.
  rewrite E. reflexivity.
Qed.

Lemma SFdiv_finite (mx my : positive) (ex ey : Z) :
  exists l, SFdiv prec emax (S754_finite false mx ex) (S754_finite false my ey)
            = binary_round_aux prec emax false (div_quo mx my ex ey)
                (div_exp mx my ex ey) l.
Proof. eexists. apply SFdiv_finite_loc. Qed.

(** [x / y] is strictly positive for [x] strictly positive and [0 < y < 1]. *)
Lemma SFdiv_pos (x : spec_float) (my : positive) (ey : Z) :
  valid_binary x = true -> SFpos x ->
  ey <= 0 -> Zpos my < 2 ^ (- ey) ->
  SFpos (SFdiv prec emax x (S754_finite false my ey)).
Proof.
  intros Vx Px Hey Hmy.
  destruct x as [sx|sx| |sx mx ex]; try destruct sx; try contradiction; [exact I|].
  destruct (SFdiv_finite mx my ex ey) as [l E]. rewrite E.
  destruct (valid_finite _ _ _ Vx) as [Hex _].
  destruct (div_quo_pos mx my ex ey) as [He Hq]; try lia.
  apply binary_round_aux_pos; assumption.
Qed.

(** ** Upper bounds *)

Lemma dig_le (m k : Z) : 0 < m -> m < 2 ^ k -> dig m <= k.
Proof.
  intros Hm H. destruct (dig_bounds m Hm) as [[B1 B2] B3].
  destruct (Z_le_gt_dec (dig m) k) as [L|G]; [exact L|].
  assert (2 ^ k <= 2 ^ (dig m - 1)) by (apply Z.pow_le_mono_r; lia). lia.
Qed.

Lemma SFleb_finite (m m' : positive) (e e' : Z) :
  e' < e \/ (e' = e /\ Zpos m' <= Zpos m) ->
  SFleb (S754_finite false m' e') (S754_finite false m e) = true.
Proof.
  intros H. unfold SFleb. simpl. rewrite pos_cmp_cont.
  destruct (Z.compare_spec e' e) as [E|L|G]; try reflexivity; try lia.
  destruct (Pos.compare_spec m' m) as [E1|L1|G1]; try reflexivity.
  apply Pos2Z.pos_lt_pos in G1. lia.
Qed.

(** Rounding a positive integer that lies below a normal number [mc * 2^ec]
    gives at most that number. *)
Lemma binary_round_aux_le (mz : Z) (ez : Z) (l : location) (mc : positive) (ec : Z) :
  0 < mz -> -1074 <= ez -> ez <= ec -> ec <= 971 ->
  2 ^ 52 <= Zpos mc < 2 ^ 53 ->
  mz < Zpos mc * 2 ^ (ec - ez) ->
  exists m' e', binary_round_aux prec emax false mz ez l = S754_finite false m' e'
                /\ (e' < ec \/ (e' = ec /\ Zpos m' <= Zpos mc)).
Proof.
  intros Hm He Hec Hec' [C1 C2] Hlt.
  destruct (binary_round_aux_spec false mz ez l Hm He) as [m' [e' [E [U A]]]].
  destruct (shiftr_drop_bounds mz Hm) as [[P1 U1] N1].
  destruct (dig_bounds mz Hm) as [[B1 B2] B3].
  set (n := drop mz) in *. set (K := ec - ez) in *.
  assert (Hn : 0 <= n) by (unfold n, drop; lia).
  assert (PK : 0 < 2 ^ K) by (apply Z.pow_pos_nonneg; lia).
  (* the exponent does not pass ec *)
  assert (HnK : n <= K).
  { destruct (Z_le_gt_dec n K) as [L|G]; [exact L|].
    assert (D : dig mz = 53 + n) by (unfold n, drop in *; lia).
    assert (2 ^ (53 + K) <= 2 ^ (dig mz - 1)) by (apply Z.pow_le_mono_r; lia).
    rewrite Z.pow_add_r in H by lia. nia. }
  (* at exponent ec the mantissa is below mc *)
  assert (HK : n = K -> Z.shiftr mz n + 1 <= Zpos mc).
  { intros EK. rewrite Z.shiftr_div_pow2 by lia. rewrite EK.
    assert (mz / 2 ^ K < Zpos mc) by (apply Z.div_lt_upper_bound; lia). lia. }
  assert (F : e' <= ec /\ (e' = ec -> Zpos m' <= Zpos mc)).
  { destruct A as [[Ee Em]|[Ee [Em Ec]]].
    - split; [lia|]. intros E1. assert (n = K) by (unfold K; lia). specialize (HK H). lia.
    - assert (n <> K) by (intros EK; specialize (HK EK); lia).
      split; [unfold K in *; lia|]. intros _. lia. }
  exists m', e'. split.
  - rewrite E. destruct (Z.leb_spec e' 971); [reflexivity|lia].
  - destruct F as [F1 F2]. destruct (Z.eq_dec e' ec) as [Q|Q]; [right|left]; auto. lia.
Qed.

(** [c - x <= c] for a normal [c] and [0 < x < c]. *)
Lemma SFsub_le (mc mx : positive) (ec ex : Z) :
  valid_binary (S754_finite false mc ec) = true ->
  valid_binary (S754_finite false mx ex) = true ->
  2 ^ 52 <= Zpos mc ->
  SFcompare (S754_finite false mx ex) (S754_finite false mc ec) = Some Lt ->
  SFleb (SFsub prec emax (S754_finite false mc ec) (S754_finite false mx ex))
        (S754_finite false mc ec) = true.
Proof.
  intros Vc Vx Nc C.
  pose proof (aligned_sub_pos mc mx ec ex Vc Vx C) as P.
  destruct (shl_align_spec mc ec (Z.min ec ex)) as [_ Ec].
  destruct (shl_align_spec mx ex (Z.min ec ex)) as [_ Ex].
  replace (Z.min ec (Z.min ec ex)) with (Z.min ec ex) in Ec by lia.
  destruct (valid_finite _ _ _ Vc) as [Hc _]. destruct (valid_finite _ _ _ Vx) as [Hx _].
  destruct (valid_mantissa _ _ _ Vc) as [Uc _].
  unfold SFsub, cond_Zopp.
  set (ez := Z.min ec ex) in *.
  set (D := Zpos (fst (shl_align mc ec ez)) - Zpos (fst (shl_align mx ex ez))) in *.
  assert (HD : D < Zpos mc * 2 ^ (ec - ez)) by (unfold D; lia).
  destruct D as [|Dp|Dp] eqn:ED; try lia.
  unfold binary_normalize, binary_round.
  pose proof (shl_align_spec Dp ez (fexp prec emax (Zpos (digits2_pos Dp) + ez))) as [S1 S2].
  destruct (shl_align Dp ez (fexp prec emax (Zpos (digits2_pos Dp) + ez))) as [mz ez'].
  cbn [fst snd] in S1, S2. rewrite fexp_eq in S1, S2. rewrite <- S1 in S2.
  assert (He' : -1074 <= ez' <= ez) by (unfold ez in *; lia).
  assert (Hlt : Zpos mz < Zpos mc * 2 ^ (ec - ez')).
  { rewrite S2.
    replace (ec - ez') with ((ec - ez) + (ez - ez')) by lia.
    rewrite Z.pow_add_r by (unfold ez in *; lia).
    assert (0 < 2 ^ (ez - ez')) by (apply Z.pow_pos_nonneg; lia). nia. }
  destruct (binary_round_aux_le (Zpos mz) ez' loc_Exact mc ec) as [m' [e' [E R]]];
    try lia; try (unfold ez in *; lia).
  rewrite E. apply SFleb_finite. exact R.
Qed.

(** [d / c <= 1] for a normal [c < 1] and [0 < d < c]. *)
Lemma SFdiv_le_one (md mc : positive) (ed ec : Z) :
  valid_binary (S754_finite false md ed) = true ->
  valid_binary (S754_finite false mc ec) = true ->
  2 ^ 52 <= Zpos mc -> ec <= -53 ->
  SFcompare (S754_finite false md ed) (S754_finite false mc ec) = Some Lt ->
  SFleb (SFdiv prec emax (S754_finite false md ed) (S754_finite false mc ec))
        (S754_finite false 4503599627370496 (-52)) = true.
Proof.
  intros Vd Vc Nc Hec C.
  destruct (SFdiv_finite md mc ed ec) as [l E]. rewrite E. clear E.
  destruct (valid_finite _ _ _ Vd) as [Hed [Dd _]].
  destruct (valid_mantissa _ _ _ Vc) as [Uc _].
  assert (Hmc : Zpos mc < 2 ^ (- ec)).
  { assert (2 ^ 53 <= 2 ^ (- ec)) by (apply Z.pow_le_mono_r; lia). lia. }
  destruct (div_quo_pos md mc ed ec) as [He Hq]; try lia.
  pose proof (aligned_lt mc md ec ed Vc Vd C) as A.
  assert (Le : ed <= ec).
  { simpl in C. destruct (Z.compare_spec ed ec); try discriminate; lia. }
  replace (Z.min ec ed) with ed in A by lia.
  rewrite Z.sub_diag, Z.pow_0_r, Z.mul_1_r in A.
  assert (He53 : div_exp md mc ed ec <= -53).
  { unfold div_exp. rewrite fexp_eq.
    destruct (dig_bounds (Zpos mc)) as [[C1 C2] C3]; [lia|].
    assert (53 <= dig (Zpos mc)).
    { destruct (Z_le_gt_dec 53 (dig (Zpos mc))) as [L|G]; [exact L|].
      assert (2 ^ dig (Zpos mc) <= 2 ^ 52) by (apply Z.pow_le_mono_r; lia). lia. }
    lia. }
  set (e' := div_exp md mc ed ec) in *.
  assert (Hlt : div_quo md mc ed ec < 2 ^ (- e')).
  { unfold div_quo. fold e'. apply Z.div_lt_upper_bound; [lia|].
    replace (- e') with ((ed - ec - e') + (ec - ed)) by lia.
    assert (0 <= ed - ec - e') by (unfold e', div_exp; lia).
    rewrite Z.pow_add_r by lia.
    assert (0 < 2 ^ (ed - ec - e')) by (apply Z.pow_pos_nonneg; lia).
    nia. }
  destruct (binary_round_aux_le (div_quo md mc ed ec) e' l 4503599627370496 (-52))
    as [m' [e'' [E R]]]; try lia.
  - replace (-52 - e') with (- e' - 52) by lia.
    change (Zpos 4503599627370496) with (2 ^ 52).
    rewrite <- Z.pow_add_r by lia. replace (52 + (- e' - 52)) with (- e') by lia. exact Hlt.
  - rewrite E. apply SFleb_finite. exact R.
Qed.

(** ** Sums and quotients of non-negative numbers *)

Lemma SFnonneg_leb (x : spec_float) : SFleb (S754_zero false) x = true <-> SFnonneg x.
Proof.
  unfold SFleb. destruct x as [s|[]| |[] m e]; simpl; intuition congruence.
Qed.

Lemma SFsign_nonneg (x : spec_float) : SFsign false x -> SFnonneg x.
Proof. destruct x as [s|s| |s m e]; simpl; intros H; subst; auto. Qed.

Lemma SFadd_nonneg (x y : spec_float) :
  SFnonneg x -> SFnonneg y -> SFnonneg (SFadd prec emax x y).
Proof.
  intros Hx Hy.
  destruct x as [sx|sx| |sx mx ex], y as [sy|sy| |sy my ey];
    try destruct sx; try destruct sy; try contradiction; try exact I.
  unfold SFadd, cond_Zopp. apply SFsign_nonneg, binary_normalize_sign. lia.
Qed.

Lemma SFdiv_nonneg (x : spec_float) (my : positive) (ey : Z) :
  SFnonneg x -> SFnonneg (SFdiv prec emax x (S754_finite false my ey)).
Proof.
  intros Hx.
  destruct x as [sx|sx| |sx mx ex]; try destruct sx; try contradiction; try exact I.
  destruct (SFdiv_finite mx my ex ey) as [l E]. rewrite E.
  apply SFsign_nonneg, binary_round_aux_sign.
  unfold div_quo. apply Z.div_pos; [|lia].
  apply Z.mul_nonneg_nonneg; [lia|]. apply Z.pow_nonneg. lia.
Qed.

(** ** Integers up to 2^53 *)

(** An integer in (0, 2^53] as a binary64 value is finite and positive. *)
Lemma binary_normalize_int (z : Z) :
  0 < z <= 2 ^ 53 ->
  exists m e, binary_normalize prec emax z 0 false = S754_finite false m e.
Proof.
  intros [Hz Hu]. destruct z as [|p|p]; try lia.
  unfold binary_normalize, binary_round.
  pose proof (shl_align_spec p 0 (fexp prec emax (Zpos (digits2_pos p) + 0))) as [S1 S2].
  destruct (shl_align p 0 (fexp prec emax (Zpos (digits2_pos p) + 0))) as [mz ez].
  cbn [fst snd] in S1, S2. rewrite fexp_eq in S1, S2. rewrite <- S1 in S2.
  assert (He : -1074 <= ez <= 0) by lia.
  destruct (binary_round_aux_le (Zpos mz) ez loc_Exact 4503599627370496 2)
    as [m' [e' [E _]]]; try lia.
  - rewrite S2. change (Zpos 4503599627370496) with (2 ^ 52).
    replace (2 - ez) with (2 + (0 - ez)) by lia. rewrite Z.pow_add_r by lia.
    assert (0 < 2 ^ (0 - ez)) by (apply Z.pow_pos_nonneg; lia).
    change (2 ^ 52 * 2 ^ 2) with (2 * 2 ^ 53). nia.
  - exists m', e'. exact E.
Qed.

(** ** Exact results *)

Lemma shr_1_double (q : positive) :
  shr_1 {| shr_m := 2 * Zpos q; shr_r := false; shr_s := false |}
  = {| shr_m := Zpos q; shr_r := false; shr_s := false |}.
Proof. reflexivity. Qed.

Lemma pow2_xO (p : positive) : 2 ^ Zpos p~0 = 2 ^ Zpos p * 2 ^ Zpos p.
Proof.
  replace (Zpos p~0) with (Zpos p + Zpos p) by lia. apply Z.pow_add_r; lia.
Qed.

Lemma pow2_xI (p : positive) : 2 ^ Zpos p~1 = 2 * (2 ^ Zpos p * 2 ^ Zpos p).
Proof.
  replace (Zpos p~1) with (1 + (Zpos p + Zpos p)) by lia.
  rewrite !Z.pow_add_r by lia. reflexivity.
Qed.

(** Dropping bits that are all 0 is exact. *)
Lemma iter_shr_exact (p : positive) (c : positive) :
  iter_pos shr_1 p {| shr_m := Zpos c * 2 ^ Zpos p; shr_r := false; shr_s := false |}
  = {| shr_m := Zpos c; shr_r := false; shr_s := false |}.
Proof.
  revert c. induction p as [p IH|p IH|]; intros c; cbn [iter_pos].
  - assert (P : 0 < 2 ^ Zpos p) by (apply Z.pow_pos_nonneg; lia).
    assert (E1 : Zpos (Z.to_pos (Zpos c * 2 ^ Zpos p)) = Zpos c * 2 ^ Zpos p)
      by (apply Z2Pos.id; nia).
    assert (E2 : Zpos (Z.to_pos (Zpos c * 2 ^ Zpos p * 2 ^ Zpos p))
                 = Zpos c * 2 ^ Zpos p * 2 ^ Zpos p) by (apply Z2Pos.id; nia).
    replace (Zpos c * 2 ^ Zpos p~1)
      with (2 * Zpos (Z.to_pos (Zpos c * 2 ^ Zpos p * 2 ^ Zpos p)))
      by (rewrite E2, pow2_xI; ring).
    rewrite shr_1_double, E2, <- E1, IH, E1. apply IH.
  - assert (P : 0 < 2 ^ Zpos p) by (apply Z.pow_pos_nonneg; lia).
    assert (E1 : Zpos (Z.to_pos (Zpos c * 2 ^ Zpos p)) = Zpos c * 2 ^ Zpos p)
      by (apply Z2Pos.id; nia).
    replace (Zpos c * 2 ^ Zpos p~0)
      with (Zpos (Z.to_pos (Zpos c * 2 ^ Zpos p)) * 2 ^ Zpos p)
      by (rewrite E1, pow2_xO; ring).
    rewrite IH, E1. apply IH.
  - rewrite Z.pow_1_r, Z.mul_comm. apply shr_1_double.
Qed.

Lemma dig_shift (c n : Z) : 0 < c -> 0 <= n -> dig (c * 2 ^ n) = dig c + n.
Proof.
  intros Hc Hn. destruct (dig_bounds c Hc) as [[B1 B2] B3].
  assert (P : 0 < 2 ^ n) by (apply Z.pow_pos_nonneg; lia).
  apply dig_unique; [lia|].
  replace (dig c + n - 1) with (dig c - 1 + n) by lia.
  rewrite !Z.pow_add_r by lia. nia.
Qed.

(** [binary_round_aux] on [c * 2^n], where [c] fits the mantissa: no
    rounding takes place. *)
Lemma binary_round_aux_exact (sx : bool) (c : positive) (e n : Z) :
  dig (Zpos c) <= 53 -> 0 <= n -> (0 < n -> dig (Zpos c) = 53) ->
  -1074 <= e -> e + n <= 971 ->
  binary_round_aux prec emax sx (Zpos c * 2 ^ n) e loc_Exact
  = S754_finite sx c (e + n).
Proof.
  intros Hd Hn Hd' He Hu.
  assert (D : dig (Zpos c * 2 ^ n) = dig (Zpos c) + n) by (apply dig_shift; lia).
  assert (S1 : shr_fexp prec emax (Zpos c * 2 ^ n) e loc_Exact
               = ({| shr_m := Zpos c; shr_r := false; shr_s := false |}, e + n)).
  { unfold shr_fexp, shr. fold (dig (Zpos c * 2 ^ n)). rewrite D, fexp_eq. unfold shr_record_of_loc.
    destruct (Z.max (dig (Zpos c) + n + e - 53) (-1074) - e) as [|p|p] eqn:K.
    - assert (n = 0) by lia. subst n. rewrite Z.pow_0_r, Z.mul_1_r, Z.add_0_r. reflexivity.
    - assert (n = Zpos p) by lia. subst n. rewrite iter_shr_exact. reflexivity.
    - assert (n = 0) by lia. subst n. rewrite Z.pow_0_r, Z.mul_1_r, Z.add_0_r. reflexivity. }
  assert (S2 : shr_fexp prec emax (Zpos c) (e + n) loc_Exact
               = ({| shr_m := Zpos c; shr_r := false; shr_s := false |}, e + n)).
  { unfold shr_fexp, shr. fold (dig (Zpos c)). rewrite fexp_eq. unfold shr_record_of_loc.
    destruct (Z.max (dig (Zpos c) + (e + n) - 53) (-1074) - (e + n)) as [|p|p] eqn:K;
      try reflexivity. lia. }
  unfold binary_round_aux. rewrite S1. cbn [shr_m loc_of_shr_record round_nearest_even].
  rewrite S2. cbn [shr_m]. change (emax - prec) with 971.
  destruct (Z.leb_spec (e + n) 971); [reflexivity|lia].
Qed.

Lemma canon_m_spec (z : Z) :
  0 < z < 2 ^ 53 ->
  Zpos (canon_m z) = z * 2 ^ (53 - dig z) /\ dig (Zpos (canon_m z)) = 53
  /\ 0 < dig z <= 53.
Proof.
  intros [Hz Hu]. destruct (dig_bounds z Hz) as [[B1 B2] B3].
  assert (Dz : dig z <= 53) by (apply dig_le; assumption).
  assert (P : 0 < 2 ^ (53 - dig z)) by (apply Z.pow_pos_nonneg; lia).
  unfold canon_m. rewrite Z2Pos.id by nia.
  split; [reflexivity|]. split; [|lia].
  rewrite dig_shift by lia. lia.
Qed.

(** [z * 2^j] at exponent [-j] is the integer [z]. *)
Lemma binary_round_int (z j : Z) :
  0 < z < 2 ^ 53 -> 0 <= j <= 1074 ->
  binary_round prec emax false (Z.to_pos (z * 2 ^ j)) (- j) = canon z.
Proof.
  intros Hz Hj. destruct (canon_m_spec z Hz) as [Cm [Cd [D1 D2]]].
  assert (Pj : 0 < 2 ^ j) by (apply Z.pow_pos_nonneg; lia).
  assert (Ep : Zpos (Z.to_pos (z * 2 ^ j)) = z * 2 ^ j) by (apply Z2Pos.id; nia).
  unfold binary_round.
  pose proof (shl_align_spec (Z.to_pos (z * 2 ^ j)) (- j)
                (fexp prec emax (Zpos (digits2_pos (Z.to_pos (z * 2 ^ j))) + - j))) as [S1 S2].
  destruct (shl_align (Z.to_pos (z * 2 ^ j)) (- j)
              (fexp prec emax (Zpos (digits2_pos (Z.to_pos (z * 2 ^ j))) + - j))) as [mz ez].
  cbn [fst snd] in S1, S2.
  change (Zpos (digits2_pos (Z.to_pos (z * 2 ^ j)))) with (dig (Zpos (Z.to_pos (z * 2 ^ j)))) in S1, S2.
  rewrite Ep, dig_shift, fexp_eq in S1, S2 by lia. rewrite <- S1 in S2.
  assert (Hn : 0 <= canon_e z - ez) by (unfold canon_e; lia).
  replace (Zpos mz) with (Zpos (canon_m z) * 2 ^ (canon_e z - ez)).
  - unfold canon. replace (canon_e z) with (ez + (canon_e z - ez)) at 2 by lia.
    apply binary_round_aux_exact; unfold canon_e in *; lia.
  - rewrite S2, Cm. rewrite <- !Z.mul_assoc, <- !Z.pow_add_r by (unfold canon_e; lia).
    f_equal. f_equal. unfold canon_e. lia.
Qed.

Lemma binary_normalize_canon (z : Z) :
  0 < z < 2 ^ 53 -> binary_normalize prec emax z 0 false = canon z.
Proof.
  intros Hz. pose proof (binary_round_int z 0 Hz) as H.
  rewrite Z.pow_0_r, Z.mul_1_r in H. destruct z as [|p|p]; try lia.
  apply H. lia.
Qed.

Lemma dig_mono (a b : Z) : 0 < a -> a <= b -> dig a <= dig b.
Proof.
  intros Ha Hab. destruct (dig_bounds a Ha) as [[A1 A2] A3].
  destruct (dig_bounds b) as [[B1 B2] B3]; [lia|].
  apply dig_le; lia.
Qed.

(** The order of integers below 2^53 is the order of their binary64 values. *)
Lemma canon_lt (a b : Z) :
  0 < a -> a < b -> b < 2 ^ 53 -> SFcompare (canon a) (canon b) = Some Lt.
Proof.
  intros Ha Hab Hb.
  destruct (canon_m_spec a) as [Ma [_ [A1 A2]]]; [lia|].
  destruct (canon_m_spec b) as [Mb [_ [B1 B2]]]; [lia|].
  pose proof (dig_mono a b Ha) as M. unfold canon, canon_e. simpl.
  destruct (Z.compare_spec (dig a - 53) (dig b - 53)) as [E|L|G]; try reflexivity; try lia.
  rewrite pos_cmp_cont. f_equal.
  change (Zpos (canon_m a) < Zpos (canon_m b)).
  rewrite Ma, Mb. replace (dig a) with (dig b) by lia.
  assert (0 < 2 ^ (53 - dig b)) by (apply Z.pow_pos_nonneg; lia). nia.
Qed.

(** Adding integers is exact while the sum stays below 2^53. *)
Lemma SFadd_canon (a b : Z) :
  0 < a -> 0 < b -> a + b < 2 ^ 53 ->
  SFadd prec emax (canon a) (canon b) = canon (a + b).
Proof.
  intros Ha Hb Hs.
  destruct (canon_m_spec a) as [Ma [_ [A1 A2]]]; [lia|].
  destruct (canon_m_spec b) as [Mb [_ [B1 B2]]]; [lia|].
  unfold canon at 1 2. unfold SFadd, cond_Zopp.
  set (ez := Z.min (canon_e a) (canon_e b)).
  destruct (shl_align_spec (canon_m a) (canon_e a) ez) as [_ Sa].
  destruct (shl_align_spec (canon_m b) (canon_e b) ez) as [_ Sb].
  replace (Z.min (canon_e a) ez) with ez in Sa by (unfold ez; lia).
  replace (Z.min (canon_e b) ez) with ez in Sb by (unfold ez; lia).
  assert (Hez : -52 <= ez <= 0) by (unfold ez, canon_e; lia).
  assert (Ea : Zpos (fst (shl_align (canon_m a) (canon_e a) ez)) = a * 2 ^ (- ez)).
  { rewrite Sa, Ma, <- Z.mul_assoc, <- Z.pow_add_r by (unfold ez, canon_e; lia).
    f_equal. f_equal. unfold canon_e. lia. }
  assert (Eb : Zpos (fst (shl_align (canon_m b) (canon_e b) ez)) = b * 2 ^ (- ez)).
  { rewrite Sb, Mb, <- Z.mul_assoc, <- Z.pow_add_r by (unfold ez, canon_e; lia).
    f_equal. f_equal. unfold canon_e. lia. }
  set (x := fst (shl_align (canon_m a) (canon_e a) ez)) in *.
  set (y := fst (shl_align (canon_m b) (canon_e b) ez)) in *.
  change (Zpos x + Zpos y) with (Zpos (x + y)). unfold binary_normalize.
  replace (x + y)%positive with (Z.to_pos ((a + b) * 2 ^ (- ez))).
  - replace ez with (- (- ez)) at 2 by lia. apply binary_round_int; lia.
  - apply Pos2Z.inj. rewrite Pos2Z.inj_add, Ea, Eb.
    assert (0 < 2 ^ (- ez)) by (apply Z.pow_pos_nonneg; lia).
    rewrite Z2Pos.id by nia. ring.
Qed.

(** A positive finite number divided by itself is 1. *)
Lemma SFdiv_self (m : positive) (e : Z) :
  valid_binary (S754_finite false m e) = true ->
  SFdiv prec emax (S754_finite false m e) (S754_finite false m e)
  = S754_finite false 4503599627370496 (-52).
Proof.
  intros V. rewrite SFdiv_finite_loc.
  assert (Ee : div_exp m m e e = -53).
  { unfold div_exp. rewrite fexp_eq. lia. }
  assert (Eq : div_quo m m e e = 2 ^ 53).
  { unfold div_quo. rewrite Ee. replace (e - e - -53) with 53 by lia.
    rewrite Z.mul_comm. apply Z.div_mul. lia. }
  assert (Er : div_rem m m e e = 0).
  { unfold div_rem. rewrite Ee. replace (e - e - -53) with 53 by lia.
    rewrite Z.mul_comm. apply Z.mod_mul. lia. }
  rewrite Ee, Eq, Er.
  assert (L : new_location (Zpos m) 0 = loc_Exact).
  { unfold new_location, new_location_even, new_location_odd.
    destruct (Z.even (Zpos m)); reflexivity. }
  rewrite L. reflexivity.
Qed.

(** ** Half of an even integer *)

Lemma canon_half (k : Z) :
  0 < k -> 2 * k < 2 ^ 53 ->
  canon_m (2 * k) = canon_m k /\ canon_e (2 * k) = canon_e k + 1.
Proof.
  intros Hk Hu.
  assert (D : dig (2 * k) = dig k + 1).
  { rewrite Z.mul_comm. change 2 with (2 ^ 1) at 1. apply dig_shift; lia. }
  assert (D52 : dig k <= 52).
  { apply dig_le; [lia|]. change (2 ^ 53) with (2 * 2 ^ 52) in Hu. lia. }
  destruct (canon_m_spec k) as [_ [_ [D1 D2]]]; [lia|].
  unfold canon_m, canon_e. rewrite D. split; [|lia].
  f_equal. replace (53 - dig k) with (1 + (53 - (dig k + 1))) by lia.
  rewrite Z.pow_add_r by lia. change (2 ^ 1) with 2. ring.
Qed.

Lemma canon_valid (z : Z) : 0 < z < 2 ^ 53 -> valid_binary (canon z) = true.
Proof.
  intros Hz. destruct (canon_m_spec z Hz) as [_ [Cd [D1 D2]]].
  unfold canon, valid_binary, bounded, canonical_mantissa.
  change (Zpos (digits2_pos (canon_m z))) with (dig (Zpos (canon_m z))).
  rewrite Cd, fexp_eq. unfold canon_e. change (emax - prec) with 971.
  apply andb_true_iff. split; [apply Z.eqb_eq|apply Z.leb_le]; lia.
Qed.

Lemma canon_le (a b : Z) :
  0 < a -> a <= b -> b < 2 ^ 53 -> SFleb (canon a) (canon b) = true.
Proof.
  intros Ha Hab Hb. unfold SFleb.
  destruct (Z.eq_dec a b) as [E|N].
  - subst b. rewrite SFcompare_refl; [reflexivity|discriminate].
  - rewrite canon_lt by lia. reflexivity.
Qed.

(** Subtracting integers below 2^53 is exact. *)
Lemma SFsub_canon (a b : Z) :
  0 < b -> b < a -> a < 2 ^ 53 ->
  SFsub prec emax (canon a) (canon b) = canon (a - b).
Proof.
  intros Hb Hab Ha.
  destruct (canon_m_spec a) as [Ma [_ [A1 A2]]]; [lia|].
  destruct (canon_m_spec b) as [Mb [_ [B1 B2]]]; [lia|].
  unfold canon at 1 2. unfold SFsub, cond_Zopp.
  set (ez := Z.min (canon_e a) (canon_e b)).
  destruct (shl_align_spec (canon_m a) (canon_e a) ez) as [_ Sa].
  destruct (shl_align_spec (canon_m b) (canon_e b) ez) as [_ Sb].
  replace (Z.min (canon_e a) ez) with ez in Sa by (unfold ez; lia).
  replace (Z.min (canon_e b) ez) with ez in Sb by (unfold ez; lia).
  assert (Hez : -52 <= ez <= 0) by (unfold ez, canon_e; lia).
  assert (Ea : Zpos (fst (shl_align (canon_m a) (canon_e a) ez)) = a * 2 ^ (- ez)).
  { rewrite Sa, Ma, <- Z.mul_assoc, <- Z.pow_add_r by (unfold ez, canon_e; lia).
    f_equal. f_equal. unfold canon_e. lia. }
  assert (Eb : Zpos (fst (shl_align (canon_m b) (canon_e b) ez)) = b * 2 ^ (- ez)).
  { rewrite Sb, Mb, <- Z.mul_assoc, <- Z.pow_add_r by (unfold ez, canon_e; lia).
    f_equal. f_equal. unfold canon_e. lia. }
  rewrite Ea, Eb.
  assert (P : 0 < 2 ^ (- ez)) by (apply Z.pow_pos_nonneg; lia).
  replace (a * 2 ^ (- ez) - b * 2 ^ (- ez)) with ((a - b) * 2 ^ (- ez)) by ring.
  destruct ((a - b) * 2 ^ (- ez)) as [|p|p] eqn:E; try nia.
  unfold binary_normalize.
  replace p with (Z.to_pos ((a - b) * 2 ^ (- ez))) by (rewrite E; reflexivity).
  replace ez with (- (- ez)) at 2 by lia. apply binary_round_int; lia.
Qed.

(** ** Lower and upper bounds for the band of an even dimension *)

(** Rounding a positive integer below the normal number [mc * 2^ec]
    gives at most that number. *)
Lemma binary_normalize_le (D ez : Z) (mc : positive) (ec : Z) :
  0 < D -> -1074 <= ez -> ez <= ec -> ec <= 971 ->
  2 ^ 52 <= Zpos mc < 2 ^ 53 ->
  D < Zpos mc * 2 ^ (ec - ez) ->
  SFleb (binary_normalize prec emax D ez false) (S754_finite false mc ec) = true.
Proof.
  intros HD Hez Hec Hec' Hmc Hlt. destruct D as [|Dp|Dp]; try lia.
  unfold binary_normalize, binary_round.
  pose proof (shl_align_spec Dp ez (fexp prec emax (Zpos (digits2_pos Dp) + ez))) as [S1 S2].
  destruct (shl_align Dp ez (fexp prec emax (Zpos (digits2_pos Dp) + ez))) as [mz ez'].
  cbn [fst snd] in S1, S2. rewrite fexp_eq in S1, S2. rewrite <- S1 in S2.
  assert (He' : -1074 <= ez' <= ez) by lia.
  assert (Hlt' : Zpos mz < Zpos mc * 2 ^ (ec - ez')).
  { rewrite S2.
    replace (ec - ez') with ((ec - ez) + (ez - ez')) by lia.
    rewrite Z.pow_add_r by lia.
    assert (0 < 2 ^ (ez - ez')) by (apply Z.pow_pos_nonneg; lia). nia. }
  destruct (binary_round_aux_le (Zpos mz) ez' loc_Exact mc ec) as [m' [e' [E R]]];
    try lia.
  rewrite E. apply SFleb_finite. exact R.
Qed.

(** The value of a valid normal number is at least that of a number
    below it in the order. *)
Lemma aligned_le (mx my : positive) (ex ey : Z) :
  valid_binary (S754_finite false mx ex) = true ->
  valid_binary (S754_finite false my ey) = true ->
  SFleb (S754_finite false my ey) (S754_finite false mx ex) = true ->
  Zpos my * 2 ^ (ey - Z.min ex ey) <= Zpos mx * 2 ^ (ex - Z.min ex ey).
Proof.
  intros Vx Vy L. unfold SFleb in L.
  destruct (SFcompare (S754_finite false my ey) (S754_finite false mx ex)) as [[]|] eqn:C;
    try discriminate.
  - simpl in C. rewrite pos_cmp_cont in C.
    destruct (Z.compare_spec ey ex); try discriminate.
    destruct (Pos.compare_spec my mx); try discriminate. subst. lia.
  - pose proof (aligned_lt mx my ex ey Vx Vy C). lia.
Qed.

Lemma SFleb_exp (my mx : positive) (ey ex : Z) :
  SFleb (S754_finite false my ey) (S754_finite false mx ex) = true ->
  ey < ex \/ (ey = ex /\ Zpos my <= Zpos mx).
Proof.
  unfold SFleb. simpl. rewrite pos_cmp_cont.
  destruct (Z.compare_spec ey ex); try discriminate; try lia.
  destruct (Pos.compare_spec my mx); try discriminate; intros _; right; split; lia.
Qed.

(** [n * r >= n / 2] for an even [n] below 2^53 and a finite [r >= 0.5]. *)
Lemma SFmul_half_le (k : Z) (mr : positive) (er : Z) :
  0 < k -> 2 * k < 2 ^ 53 ->
  valid_binary (S754_finite false mr er) = true ->
  SFleb (S754_finite false 4503599627370496 (-53)) (S754_finite false mr er) = true ->
  SFleb (canon k) (SFmul prec emax (canon (2 * k)) (S754_finite false mr er)) = true.
Proof.
  intros Hk Hu Vr Lr.
  destruct (canon_half k Hk Hu) as [Hm He].
  destruct (canon_m_spec k) as [Mk [Dk [K1 K2]]].
  { change (2 ^ 53) with (2 * 2 ^ 52) in Hu. change (2 ^ 53) with (2 * 2 ^ 52). lia. }
  apply SFleb_exp in Lr. change (Zpos 4503599627370496) with (2 ^ 52) in Lr.
  destruct (valid_mantissa _ _ _ Vr) as [Ur Nr].
  assert (Nr' : 2 ^ 52 <= Zpos mr) by (apply Nr; lia).
  destruct (dig_bounds (Zpos (canon_m k))) as [[B1 B2] _]; [lia|]. rewrite Dk in B1, B2.
  unfold canon at 2. unfold SFmul. rewrite Hm, He. simpl xorb.
  set (m := Zpos (canon_m k * mr)).
  assert (Em : m = Zpos (canon_m k) * Zpos mr) by reflexivity.
  assert (Lm : 2 ^ 104 <= m).
  { rewrite Em. change (2 ^ 104) with (2 ^ 52 * 2 ^ 52). nia. }
  assert (Hm0 : 0 < m) by lia.
  assert (Dm : 105 <= dig m).
  { destruct (dig_bounds m Hm0) as [[M1 M2] M3].
    destruct (Z_le_gt_dec 105 (dig m)) as [L|G]; [exact L|].
    assert (2 ^ dig m <= 2 ^ 104) by (apply Z.pow_le_mono_r; lia). lia. }
  assert (Canon_e : -52 <= canon_e k) by (unfold canon_e; lia).
  destruct (binary_round_aux_spec false m (canon_e k + 1 + er) loc_Exact Hm0)
    as [m' [e' [E [U A]]]]; [lia|].
  rewrite E. destruct (e' <=? 971); [|reflexivity].
  unfold canon. apply SFleb_finite.
  assert (Dr : 52 <= drop m) by (unfold drop; lia).
  destruct A as [[Ee Em']|[Ee [Em' _]]].
  - destruct (Z_lt_le_dec (canon_e k) e') as [L|G]; [left; exact L|right].
    assert (drop m = 52 /\ er = -53) by lia. destruct H as [D52 Er].
    split; [lia|].
    assert (Zpos (canon_m k) <= Z.shiftr m (drop m)).
    { rewrite D52, Z.shiftr_div_pow2 by lia. apply Z.div_le_lower_bound; [lia|].
      rewrite Em. nia. }
    lia.
  - left. lia.
Qed.

Lemma SFsign_true_leb (x : spec_float) (m : positive) (e : Z) :
  SFsign true x -> SFleb x (S754_finite false m e) = true.
Proof. destruct x as [s|s| |s mx ex]; simpl; intros H; subst; try contradiction; reflexivity. Qed.

(** [2k - b <= b] for a valid [b >= k]. *)
Lemma SFsub_half_le (k : Z) (b : spec_float) :
  0 < k -> 2 * k < 2 ^ 53 ->
  valid_binary b = true -> SFleb (canon k) b = true ->
  SFleb (SFsub prec emax (canon (2 * k)) b) b = true.
Proof.
  intros Hk Hu Vb Lb.
  destruct (canon_half k Hk Hu) as [Hm He].
  assert (Hk53 : 0 < k < 2 ^ 53).
  { change (2 ^ 53) with (2 * 2 ^ 52) in Hu. change (2 ^ 53) with (2 * 2 ^ 52). lia. }
  destruct (canon_m_spec k Hk53) as [Mk [Dk [K1 K2]]].
  destruct (dig_bounds (Zpos (canon_m k))) as [[B1 B2] _]; [lia|]. rewrite Dk in B1, B2.
  destruct b as [sb|sb| |sb mb eb]; try destruct sb; try discriminate Lb.
  - (* +infinity *) reflexivity.
  - (* finite *)
    pose proof (SFleb_exp _ _ _ _ Lb) as Le.
    destruct (valid_finite _ _ _ Vb) as [Hb _].
    destruct (valid_mantissa _ _ _ Vb) as [Ub Nb].
    assert (Ce : -52 <= canon_e k) by (unfold canon_e; lia).
    assert (Nb' : 2 ^ 52 <= Zpos mb) by (apply Nb; lia).
    assert (Cases : (eb = canon_e k /\ mb = canon_m k)
                    \/ canon_e k < eb \/ (eb = canon_e k /\ Zpos (canon_m k) < Zpos mb)).
    { destruct Le as [L|[E L]]; [right; left; exact L|].
      destruct (Z.eq_dec (Zpos (canon_m k)) (Zpos mb)) as [Q|Q].
      - left. split; [lia|]. congruence.
      - right. right. lia. }
    destruct Cases as [[Ee Em]|Strict].
    + (* b = k *)
      subst eb mb. change (S754_finite false (canon_m k) (canon_e k)) with (canon k).
      rewrite SFsub_canon by lia. replace (2 * k - k) with k by lia.
      unfold SFleb. rewrite SFcompare_refl; [reflexivity|discriminate].
    + (* b > k *)
      unfold canon. rewrite Hm, He. unfold SFsub, cond_Zopp.
      set (ez := Z.min (canon_e k + 1) eb).
      destruct (shl_align_spec (canon_m k) (canon_e k + 1) ez) as [_ Sa].
      destruct (shl_align_spec mb eb ez) as [_ Sb].
      replace (Z.min (canon_e k + 1) ez) with ez in Sa by (unfold ez; lia).
      replace (Z.min eb ez) with ez in Sb by (unfold ez; lia).
      rewrite Sa, Sb.
      set (D := Zpos (canon_m k) * 2 ^ (canon_e k + 1 - ez) - Zpos mb * 2 ^ (eb - ez)).
      assert (HD : D < Zpos mb * 2 ^ (eb - ez)).
      { unfold D. destruct Strict as [L|[E L]].
        - replace ez with (canon_e k + 1) by (unfold ez; lia).
          rewrite Z.sub_diag, Z.pow_0_r, Z.mul_1_r.
          assert (0 < 2 ^ (eb - (canon_e k + 1))) by (apply Z.pow_pos_nonneg; lia).
          nia.
        - replace ez with eb by (unfold ez; lia).
          rewrite Z.sub_diag, Z.pow_0_r, Z.mul_1_r.
          replace (canon_e k + 1 - eb) with 1 by lia. change (2 ^ 1) with 2. lia. }
      destruct (Z_lt_le_dec 0 D) as [P|N].
      * apply binary_normalize_le; try lia; unfold ez; lia.
      * destruct D as [|Dp|Dp] eqn:ED; try lia; [reflexivity|].
        unfold binary_normalize, binary_round.
        destruct (shl_align Dp ez (fexp prec emax (Zpos (digits2_pos Dp) + ez))) as [mz ez'].
        apply SFsign_true_leb, binary_round_aux_sign. lia.
Qed.

(** The integer part of a valid [x >= k] with a negative exponent is an
    integer in [k, 2^53). *)
Lemma floor_ge (k : Z) (m : positive) (e : Z) :
  0 < k < 2 ^ 53 -> e < 0 ->
  valid_binary (S754_finite false m e) = true ->
  SFleb (canon k) (S754_finite false m e) = true ->
  k <= Z.shiftr (Zpos m) (- e) < 2 ^ 53.
Proof.
  intros Hk He V L.
  destruct (canon_m_spec k Hk) as [Mk [Dk [K1 K2]]].
  pose proof (aligned_le m (canon_m k) e (canon_e k) V (canon_valid k Hk) L) as A.
  apply SFleb_exp in L.
  replace (Z.min e (canon_e k)) with (canon_e k) in A by lia.
  rewrite Z.sub_diag, Z.pow_0_r, Z.mul_1_r, Mk in A.
  destruct (valid_mantissa _ _ _ V) as [U _].
  assert (P : 0 < 2 ^ (- e)) by (apply Z.pow_pos_nonneg; lia).
  assert (T : 0 < 2 ^ (e - canon_e k)) by (apply Z.pow_pos_nonneg; lia).
  assert (E : 2 ^ (53 - dig k) = 2 ^ (- e) * 2 ^ (e - canon_e k)).
  { rewrite <- Z.pow_add_r by lia. f_equal. unfold canon_e. lia. }
  rewrite Z.shiftr_div_pow2 by lia. split.
  - apply Z.div_le_lower_bound; [exact P|]. rewrite E in A. nia.
  - apply Z.div_lt_upper_bound; [exact P|]. nia.
Qed.

End Rounding.

(** ** Numbers read from a well-formed bitmap *)

Lemma of_byte_not_nan (b : byte) : is_nan (of_byte b) = false.
Proof. destruct b; vm_compute; reflexivity. Qed.

Lemma in_pixels (img : ImageLike) (p : nat * nat) :
  In p (pixels img) <-> (fst p < height img)%nat /\ (snd p < width img)%nat.
Proof.
  destruct p as [y x]. unfold pixels. rewrite in_prod_iff, !in_seq. simpl. lia.
Qed.

Lemma read_in_range (img : ImageLike) (p : nat * nat) (k : nat) :
  well_formed img -> In p (pixels img) -> (k < 4)%nat ->
  exists b, read (data img) (index img p + k) = of_byte b.
Proof.
  intros W I K. apply in_pixels in I. destruct I as [Iy Ix].
  unfold read, index, well_formed in *.
  destruct (nth_error (data img) ((fst p * width img + snd p) * 4 + k)) as [b|] eqn:E.
  - exists b. reflexivity.
  - apply nth_error_None in E. nia.
Qed.

Lemma alpha_not_nan (img : ImageLike) (p : nat * nat) :
  well_formed img -> In p (pixels img) -> is_nan (alpha img p) = false.
Proof.
  intros W I. destruct (read_in_range img p 3 W I) as [b E]; [lia|].
  unfold alpha. rewrite E. apply of_byte_not_nan.
Qed.

(** On a well-formed bitmap and with a threshold that is a number, the
    test of the code is alpha >= alphaThreshold. *)
Lemma kept_opaque (img : ImageLike) (cfg : Settings) (p : nat * nat) :
  well_formed img -> is_nan (s_alphaThreshold cfg) = false -> In p (pixels img) ->
  kept img cfg p = opaque img cfg p.
Proof.
  intros W T I. unfold kept, opaque. symmetry.
  apply geb_negb_ltb; [apply alpha_not_nan|]; assumption.
Qed.

Lemma counted_foreground (img : ImageLike) (cfg : Settings) :
  well_formed img -> is_nan (s_alphaThreshold cfg) = false ->
  counted img cfg = foreground img cfg.
Proof.
  intros W T. unfold counted, foreground. apply filter_ext_in.
  intros p I. unfold isForeground. rewrite (kept_opaque img cfg p W T I). reflexivity.
Qed.

Lemma edgeCounted_edgePixels (img : ImageLike) (cfg : Settings) :
  well_formed img -> is_nan (s_alphaThreshold cfg) = false ->
  edgeCounted img cfg = edgePixels img cfg.
Proof.
  intros W T. unfold edgeCounted, edgePixels. apply filter_ext_in.
  intros p I. rewrite (kept_opaque img cfg p W T I). reflexivity.
Qed.

(** ** The two passes as folds over the pixels in scan order *)

Lemma for_loop_nested {S : Type} (h w : nat) (body : nat -> nat -> S -> S) (s : S) :
  for_loop h (fun y => for_loop w (fun x => body y x)) s
  = fold_left (fun st p => body (fst p) (snd p) st) (list_prod (seq 0 h) (seq 0 w)) s.
Proof.
  unfold for_loop. generalize (seq 0 h) as ys. intros ys. revert s.
  induction ys as [|y ys IH]; intros s; simpl; [reflexivity|].
  rewrite fold_left_app, <- IH. f_equal.
  generalize (seq 0 w) as xs. intros xs. revert s.
  induction xs as [|x xs IHx]; intros s; simpl; [reflexivity|apply IHx].
Qed.

Lemma pass1_body_kept (img : ImageLike) (cfg : Settings) (p : nat * nat) (st : Pass1) :
  let st' := pass1_body img cfg (fst p) (snd p) st in
  if kept img cfg p && negb (excluded img cfg p)
  then fgCount st' = S (fgCount st)
       /\ accumLightness st' = accumLightness st + lightnessAt img p
  else fgCount st' = fgCount st /\ accumLightness st' = accumLightness st.
Proof.
  unfold pass1_body, kept, excluded, isPureWhite, isPureBlack, lightnessAt,
    alpha, red, green, blue, index.
  destruct (read (data img) ((fst p * width img + snd p) * 4 + 3) <? s_alphaThreshold cfg);
    simpl; [split; reflexivity|].
  destruct (s_ignorePureWhite cfg), (s_ignorePureBlack cfg),
    (read (data img) ((fst p * width img + snd p) * 4) =? 255),
    (read (data img) ((fst p * width img + snd p) * 4 + 1) =? 255),
    (read (data img) ((fst p * width img + snd p) * 4 + 2) =? 255),
    (read (data img) ((fst p * width img + snd p) * 4) =? 0),
    (read (data img) ((fst p * width img + snd p) * 4 + 1) =? 0),
    (read (data img) ((fst p * width img + snd p) * 4 + 2) =? 0);
    simpl; split; reflexivity.
Qed.

Lemma pass1_fold (img : ImageLike) (cfg : Settings) (l : list (nat * nat)) (st : Pass1) :
  let keep := fun p => kept img cfg p && negb (excluded img cfg p) in
  let st' := fold_left (fun s p => pass1_body img cfg (fst p) (snd p) s) l st in
  fgCount st' = (fgCount st + length (filter keep l))%nat
  /\ accumLightness st'
     = fold_left add (map (lightnessAt img) (filter keep l)) (accumLightness st).
Proof.
  revert st. induction l as [|p l IH]; intros st; simpl; [split; [lia|reflexivity]|].
  specialize (IH (pass1_body img cfg (fst p) (snd p) st)). simpl in IH.
  destruct IH as [IH1 IH2]. rewrite IH1, IH2.
  pose proof (pass1_body_kept img cfg p st) as B. simpl in B.
  destruct (kept img cfg p && negb (excluded img cfg p)); destruct B as [B1 B2];
    rewrite B1, B2; simpl; split; (lia || reflexivity).
Qed.

(** Pass 1 counts the pixels that pass its tests and sums their lightness. *)
Lemma pass1_counted (img : ImageLike) (cfg : Settings) :
  fgCount (pass1 img cfg) = length (counted img cfg)
  /\ accumLightness (pass1 img cfg) = sum (map (lightnessAt img) (counted img cfg)).
Proof.
  unfold pass1. rewrite for_loop_nested.
  destruct (pass1_fold img cfg (pixels img) pass1_init) as [H1 H2].
  split; [exact H1|exact H2].
Qed.

Lemma pass2_body_kept (img : ImageLike) (cfg : Settings) (p : nat * nat) (st : Pass2) :
  pass2_body img cfg (fst p) (snd p) st
  = if inEdgeBand img cfg p && kept img cfg p
    then {| edgeOpaque := S (edgeOpaque st);
            edgeLightAccum := edgeLightAccum st + lightnessAt img p |}
    else st.
Proof.
  unfold pass2_body, inEdgeBand, kept, lightnessAt, alpha, red, green, blue, index.
  destruct (inYBand img cfg (fst p) || inXBand img cfg (snd p)); simpl; [|reflexivity].
  destruct (read (data img) ((fst p * width img + snd p) * 4 + 3) <? s_alphaThreshold cfg);
    reflexivity.
Qed.

Lemma pass2_fold (img : ImageLike) (cfg : Settings) (l : list (nat * nat)) (st : Pass2) :
  let keep := fun p => inEdgeBand img cfg p && kept img cfg p in
  let st' := fold_left (fun s p => pass2_body img cfg (fst p) (snd p) s) l st in
  edgeOpaque st' = (edgeOpaque st + length (filter keep l))%nat
  /\ edgeLightAccum st'
     = fold_left add (map (lightnessAt img) (filter keep l)) (edgeLightAccum st).
Proof.
  revert st. induction l as [|p l IH]; intros st; simpl; [split; [lia|reflexivity]|].
  specialize (IH (pass2_body img cfg (fst p) (snd p) st)). simpl in IH.
  destruct IH as [IH1 IH2]. rewrite IH1, IH2, pass2_body_kept.
  destruct (inEdgeBand img cfg p && kept img cfg p); simpl; split; (lia || reflexivity).
Qed.

(** Pass 2 counts the edge pixels that pass the alpha test alone. *)
Lemma pass2_counted (img : ImageLike) (cfg : Settings) :
  edgeOpaque (pass2 img cfg) = length (edgeCounted img cfg)
  /\ edgeLightAccum (pass2 img cfg) = sum (map (lightnessAt img) (edgeCounted img cfg)).
Proof.
  unfold pass2. rewrite for_loop_nested.
  destruct (pass2_fold img cfg (pixels img) pass2_init) as [H1 H2].
  split; [exact H1|exact H2].
Qed.

(** ** The fields of the result *)

Lemma totalSampled_eq (img : ImageLike) (o : SuggestionOptions) :
  totalSampled (suggestBackground img o) = (width img * height img)%nat.
Proof.
  unfold suggestBackground.
  destruct (fgCount (pass1 img (destructure o)) =? 0)%nat; [reflexivity|].
  destruct (decide _ _ _); reflexivity.
Qed.

Lemma foregroundSampled_eq (img : ImageLike) (o : SuggestionOptions) :
  foregroundSampled (suggestBackground img o) = length (counted img (destructure o)).
Proof.
  unfold suggestBackground.
  destruct (pass1_counted img (destructure o)) as [H _].
  destruct (fgCount (pass1 img (destructure o)) =? 0)%nat eqn:E.
  - apply Nat.eqb_eq in E. simpl. congruence.
  - destruct (decide _ _ _); simpl. exact H.
Qed.

(** ** Strictly positive numbers and the clamp *)

Lemma ltb_0_pos (x : number) : (0 <? x) = true <-> IEEE.SFpos (Prim2SF x).
Proof.
  rewrite ltb_spec. change (Prim2SF 0) with (S754_zero false).
  unfold SFltb. destruct (Prim2SF x) as [s|[]| |[] m e]; simpl; intuition congruence.
Qed.

(** [a - c] is strictly positive when [c < a]. *)
Lemma sub_pos (a c : number) : (c <? a) = true -> (0 <? a - c) = true.
Proof.
  intros H. apply ltb_0_pos. rewrite sub_spec.
  apply Rounding.SFsub_pos; try apply Prim2SF_valid.
  rewrite <- ltb_spec. exact H.
Qed.

(** Dividing by 0.42 keeps a number strictly positive. *)
Lemma div_042_pos (x : number) : (0 <? x) = true -> (0 <? x / 0.42) = true.
Proof.
  intros H. apply ltb_0_pos. apply ltb_0_pos in H. rewrite div_spec.
  change (Prim2SF 0.42) with (S754_finite false 7566047373982433 (-54)).
  apply Rounding.SFdiv_pos; [apply Prim2SF_valid|exact H|lia|reflexivity].
Qed.

(** On a strictly positive number the clamp is the minimum with 1. *)
Lemma clamp_pos (c : number) :
  (0 <? c) = true ->
  clamp c = (if 1 <? c then 1 else c)
  /\ (0 <? clamp c) = true /\ (clamp c <=? 1) = true.
Proof.
  intros H. destruct (ltb_not_nan _ _ H) as [_ N].
  assert (M : Math_min 1 c = if 1 <? c then 1 else c).
  { unfold Math_min. rewrite N. change (is_nan 1) with false. simpl.
    destruct (1 <? c); [reflexivity|].
    destruct (c <? 1); [reflexivity|].
    change (get_sign 1) with false. reflexivity. }
  assert (P : (0 <? Math_min 1 c) = true).
  { rewrite M. destruct (1 <? c); [reflexivity|exact H]. }
  assert (E : clamp c = Math_min 1 c).
  { unfold clamp, Math_max. destruct (ltb_not_nan _ _ P) as [_ N'].
    rewrite N', P. reflexivity. }
  rewrite E. split; [exact M|]. split; [exact P|].
  rewrite M. destruct (1 <? c) eqn:L; [reflexivity|].
  change (c <=? 1) with (geb 1 c). rewrite geb_negb_ltb; [rewrite L; reflexivity| |exact N].
  reflexivity.
Qed.

(** The confidence of the two branches that compute it is strictly positive. *)
Lemma dark_confidence_pos (avg : number) :
  gtb avg 0.58 = true -> (0 <? (avg - 0.58) / 0.42) = true.
Proof. intros H. apply div_042_pos, sub_pos. exact H. Qed.

Lemma light_confidence_pos (avg : number) :
  (avg <? 0.42) = true -> (0 <? (0.42 - avg) / 0.42) = true.
Proof. intros H. apply div_042_pos, sub_pos. exact H. Qed.

(** Whatever [decide] returns, the clamp puts it in (0, 1]. *)
Lemma decide_clamp (img : ImageLike) (cfg : Settings) (avg : number) :
  let c := clamp (snd (decide img cfg avg)) in
  (0 <? c) = true /\ (c <=? 1) = true.
Proof.
  unfold decide.
  destruct (gtb avg 0.58) eqn:G.
  - apply clamp_pos, dark_confidence_pos, G.
  - destruct (avg <? 0.42) eqn:L.
    + apply clamp_pos, light_confidence_pos, L.
    + destruct (0 <? edgeOpaque (pass2 img cfg))%nat; simpl; split; reflexivity.
Qed.

(** ** The empty-foreground fallback *)

Lemma counted_nil (img : ImageLike) (cfg : Settings) :
  (forall p, In p (pixels img) ->
     (alpha img p <? s_alphaThreshold cfg) = true \/ excluded img cfg p = true) ->
  counted img cfg = [].
Proof.
  intros H. unfold counted.
  induction (pixels img) as [|p l IH]; simpl; [reflexivity|].
  destruct (H p (or_introl eq_refl)) as [A|A]; unfold kept; rewrite A; simpl;
    rewrite ?andb_false_r; apply IH; intros q I; apply H; right; exact I.
Qed.

(** C3: when no pixel qualifies as foreground, every pixel having
    alpha < alphaThreshold or being excluded by ignorePureWhite or
    ignorePureBlack, the result is exactly
    {tone: dark, confidence: 0, foregroundLightness: 0, foregroundSampled: 0,
     totalSampled: width*height}. *)
Theorem empty_foreground_fallback (img : ImageLike) (o : SuggestionOptions) :
  (forall p, In p (pixels img) ->
     (alpha img p <? s_alphaThreshold (destructure o)) = true
     \/ excluded img (destructure o) p = true) ->
  suggestBackground img o = fallback img.
Proof.
  intros H. unfold suggestBackground.
  destruct (pass1_counted img (destructure o)) as [C _].
  rewrite (counted_nil img (destructure o) H) in C. rewrite C. reflexivity.
Qed.

Lemma empty_foreground_fallback_witness :
  suggestBackground all_white_2x2 no_options
  = {| tone := dark; confidence := 0; foregroundLightness := 0;
       foregroundSampled := 0; totalSampled := 4 |}.
Proof.
  apply (empty_foreground_fallback all_white_2x2 no_options).
  intros p I.
  assert (F : forallb (fun p => (alpha all_white_2x2 p <? 16)
                                || excluded all_white_2x2 (destructure no_options) p)
                (pixels all_white_2x2) = true) by (vm_compute; reflexivity).
  rewrite forallb_forall in F. specialize (F p I). apply orb_true_iff in F. exact F.
Defined.

(** ** The confidence *)

(** A zero-size bitmap and a fully transparent one get the fallback; with
    alphaThreshold = 0 the transparent black pixels are the foreground. *)
Example zero_size_bitmap :
  suggestBackground {| width := 0; height := 0; data := [] |} no_options
  = {| tone := dark; confidence := 0; foregroundLightness := 0;
       foregroundSampled := 0; totalSampled := 0 |}.
Proof. vm_compute. reflexivity. Qed.

Example transparent_bitmap :
  suggestBackground (uniform 2 2 (rgba 0 0 0 0)) no_options
  = {| tone := dark; confidence := 0; foregroundLightness := 0;
       foregroundSampled := 0; totalSampled := 4 |}.
Proof. vm_compute. reflexivity. Qed.

Example threshold_zero :
  suggestBackground (uniform 2 2 (rgba 0 0 0 0)) (options_of (Some 0) true false None)
  = {| tone := light; confidence := 1; foregroundLightness := 0;
       foregroundSampled := 4; totalSampled := 4 |}.
Proof. vm_compute. reflexivity. Qed.

(** C4: for every bitmap, well-formed or not, and every configuration the
    analyzer returns a suggestion, and its confidence lies in [0,1]. *)
Theorem confidence_in_unit_interval (img : ImageLike) (o : SuggestionOptions) :
  exists s, suggestBackground img o = s
            /\ (0 <=? confidence s) = true /\ (confidence s <=? 1) = true.
Proof.
  eexists. split; [reflexivity|]. unfold suggestBackground.
  destruct (fgCount (pass1 img (destructure o)) =? 0)%nat; [split; reflexivity|].
  pose proof (decide_clamp img (destructure o)
                (accumLightness (pass1 img (destructure o))
                 / of_nat (fgCount (pass1 img (destructure o))))) as D.
  destruct (decide _ _ _) as [t c]. simpl in *. destruct D as [D1 D2].
  split; [apply ltb_leb; exact D1|exact D2].
Qed.

(** C10: the confidence is 0 exactly when no pixel was counted as
    foreground: the fallback returns 0, every other path a strictly
    positive confidence. *)
Theorem confidence_zero_iff_no_foreground (img : ImageLike) (o : SuggestionOptions) :
  let s := suggestBackground img o in
  ((confidence s =? 0) = true <-> foregroundSampled s = 0%nat)
  /\ ((foregroundSampled s = 0%nat /\ confidence s = 0)
      \/ (foregroundSampled s <> 0%nat /\ (0 <? confidence s) = true)).
Proof.
  assert (D : let s := suggestBackground img o in
              (foregroundSampled s = 0%nat /\ confidence s = 0)
              \/ (foregroundSampled s <> 0%nat /\ (0 <? confidence s) = true)).
  { unfold suggestBackground.
    destruct (fgCount (pass1 img (destructure o)) =? 0)%nat eqn:E.
    - left. split; reflexivity.
    - right. apply Nat.eqb_neq in E.
      pose proof (decide_clamp img (destructure o)
                    (accumLightness (pass1 img (destructure o))
                     / of_nat (fgCount (pass1 img (destructure o))))) as P.
      destruct (decide _ _ _) as [t c]. simpl in *. split; [exact E|apply P]. }
  simpl in *. split; [|exact D].
  destruct D as [[F C]|[F C]].
  - rewrite F, C. split; reflexivity.
  - split; intros H; [|contradiction].
    exfalso. rewrite eqb_spec in H. rewrite ltb_spec in C.
    change (Prim2SF 0) with (S754_zero false) in *.
    unfold SFeqb in H. unfold SFltb in C.
    destruct (Prim2SF (confidence (suggestBackground img o))) as [s|[]| |[] m e];
      simpl in *; discriminate.
Qed.

(** ** The counters *)

(** C5: on a well-formed bitmap and with a threshold that is a number,
    totalSampled is width*height whatever was filtered out, and
    foregroundSampled is the number of pixels with alpha >= alphaThreshold
    that neither exclusion removes. *)
Theorem sampled_counts (img : ImageLike) (o : SuggestionOptions) :
  well_formed img -> is_nan (s_alphaThreshold (destructure o)) = false ->
  totalSampled (suggestBackground img o) = (width img * height img)%nat
  /\ foregroundSampled (suggestBackground img o)
     = length (foreground img (destructure o)).
Proof.
  intros W T. split; [apply totalSampled_eq|].
  rewrite foregroundSampled_eq, (counted_foreground img (destructure o) W T). reflexivity.
Qed.

(** The 2x2 bitmap of the test suite: two transparent pixels, two opaque
    (250,250,250) ones. *)
Lemma sampled_counts_witness :
  totalSampled (suggestBackground half_transparent no_options) = 4%nat
  /\ foregroundSampled (suggestBackground half_transparent no_options) = 2%nat.
Proof.
  destruct (sampled_counts half_transparent no_options) as [H1 H2].
  - unfold well_formed. simpl. lia.
  - reflexivity.
  - split; [exact H1|]. rewrite H2. vm_compute. reflexivity.
Defined.

(** ** The analyzer only reads its buffer *)

Lemma for_from_read_only {S : Type} (body : nat -> S -> Heap.M S) (f : nat -> S -> S)
    (buf : list byte) :
  (forall i s, body i s buf = (f i s, buf)) ->
  forall n i s,
    Heap.for_from i n body s buf = (fold_left (fun st j => f j st) (seq i n) s, buf).
Proof.
  intros B. induction n as [|n IH]; intros i s; simpl; [reflexivity|].
  unfold Heap.bind. rewrite B. apply IH.
Qed.

Lemma for_loop_read_only {S : Type} (body : nat -> S -> Heap.M S) (f : nat -> S -> S)
    (buf : list byte) (n : nat) (s : S) :
  (forall i s, body i s buf = (f i s, buf)) ->
  Heap.for_loop n body s buf = (for_loop n f s, buf).
Proof. intros B. apply for_from_read_only. exact B. Qed.

Lemma pass1_bodyM_eq (w h : nat) (cfg : Settings) (buf : list byte) (y x : nat) (st : Pass1) :
  pass1_bodyM w cfg y x st buf
  = (pass1_body {| width := w; height := h; data := buf |} cfg y x st, buf).
Proof.
  unfold pass1_bodyM, pass1_body, Heap.bind, Heap.load, Heap.ret. simpl.
  destruct (read buf ((y * w + x) * 4 + 3) <? s_alphaThreshold cfg); [reflexivity|].
  destruct (s_ignorePureWhite cfg && (read buf ((y * w + x) * 4) =? 255)
            && (read buf ((y * w + x) * 4 + 1) =? 255)
            && (read buf ((y * w + x) * 4 + 2) =? 255)); [reflexivity|].
  destruct (s_ignorePureBlack cfg && (read buf ((y * w + x) * 4) =? 0)
            && (read buf ((y * w + x) * 4 + 1) =? 0)
            && (read buf ((y * w + x) * 4 + 2) =? 0)); reflexivity.
Qed.

Lemma pass2_bodyM_eq (w h : nat) (cfg : Settings) (buf : list byte) (y x : nat) (st : Pass2) :
  pass2_bodyM w h cfg y x st buf
  = (pass2_body {| width := w; height := h; data := buf |} cfg y x st, buf).
Proof.
  unfold pass2_bodyM, pass2_body, inYBand, inXBand, edgeBandY, edgeBandX,
    Heap.bind, Heap.load, Heap.ret. simpl.
  destruct (negb (inBand h (edgeBand h (s_edgeSampleRatio cfg)) y
                  || inBand w (edgeBand w (s_edgeSampleRatio cfg)) x)); [reflexivity|].
  destruct (read buf ((y * w + x) * 4 + 3) <? s_alphaThreshold cfg); reflexivity.
Qed.

Lemma decideM_eq (w h : nat) (cfg : Settings) (buf : list byte) (avg : number) :
  decideM w h cfg avg buf
  = (decide {| width := w; height := h; data := buf |} cfg avg, buf).
Proof.
  unfold decideM, decide, pass2, Heap.bind, Heap.ret.
  destruct (gtb avg 0.58); [reflexivity|].
  destruct (avg <? 0.42); [reflexivity|].
  rewrite (for_loop_read_only _
             (fun y => for_loop w
                (fun x => pass2_body {| width := w; height := h; data := buf |} cfg y x))).
  - simpl. destruct (0 <? edgeOpaque _)%nat; reflexivity.
  - intros y s. apply for_loop_read_only. intros x s'. apply pass2_bodyM_eq.
Qed.

(** Run on a buffer, the analyzer returns what the function of the bitmap
    returns and leaves the buffer as it found it. *)
Lemma suggestBackgroundM_eq (w h : nat) (o : SuggestionOptions) (buf : list byte) :
  suggestBackgroundM w h o buf
  = (suggestBackground {| width := w; height := h; data := buf |} o, buf).
Proof.
  unfold suggestBackgroundM, suggestBackground, pass1, Heap.bind, Heap.ret.
  rewrite (for_loop_read_only _
             (fun y => for_loop w
                (fun x => pass1_body {| width := w; height := h; data := buf |}
                            (destructure o) y x))).
  - simpl. destruct (fgCount _ =? 0)%nat; [reflexivity|].
    rewrite decideM_eq. destruct (decide _ _ _); reflexivity.
  - intros y s. apply for_loop_read_only. intros x s'. apply (pass1_bodyM_eq w h).
Qed.

(** C8: two calls on the same bitmap and configuration return the same
    record, and the buffer is unchanged after each call. *)
Theorem suggestBackground_deterministic_read_only
    (w h : nat) (o : SuggestionOptions) (buf : list byte) :
  let (s1, buf1) := suggestBackgroundM w h o buf in
  let (s2, buf2) := suggestBackgroundM w h o buf1 in
  s1 = s2 /\ buf1 = buf /\ buf2 = buf.
Proof.
  rewrite suggestBackgroundM_eq, suggestBackgroundM_eq. auto.
Qed.

(** ** The perceived lightness of a pixel *)

Lemma of_byte_in (b : byte) : In (of_byte b) byte_numbers.
Proof.
  assert (E : byte_numbers = map (fun n => of_byte (u8 (N.of_nat n))) (seq 0 256))
    by (vm_compute; reflexivity).
  rewrite E. apply in_map_iff. exists (N.to_nat (Byte.to_N b)). split.
  - rewrite N2Nat.id. unfold u8. rewrite Byte.of_to_N. reflexivity.
  - apply in_seq. pose proof (Byte.to_N_bounded b). lia.
Qed.

(** The lightness of every one of the 256^3 colours is in [0,1], by
    evaluation. *)
Lemma lightness_table :
  forallb (fun r =>
    forallb (fun g =>
      forallb (fun b => in_unit (perceivedLightness r g b)) byte_numbers)
      byte_numbers)
    byte_numbers = true.
Proof. vm_compute. reflexivity. Qed.

Lemma perceivedLightness_in_unit (r g b : byte) :
  in_unit (perceivedLightness (of_byte r) (of_byte g) (of_byte b)) = true.
Proof.
  pose proof lightness_table as T.
  rewrite forallb_forall in T. specialize (T _ (of_byte_in r)).
  rewrite forallb_forall in T. specialize (T _ (of_byte_in g)).
  rewrite forallb_forall in T. exact (T _ (of_byte_in b)).
Qed.

Lemma lightnessAt_in_unit (img : ImageLike) (p : nat * nat) :
  well_formed img -> In p (pixels img) -> in_unit (lightnessAt img p) = true.
Proof.
  intros W I. unfold lightnessAt, red, green, blue.
  destruct (read_in_range img p 0 W I) as [r Er]; [lia|].
  destruct (read_in_range img p 1 W I) as [g Eg]; [lia|].
  destruct (read_in_range img p 2 W I) as [b Eb]; [lia|].
  rewrite Nat.add_0_r in Er. rewrite Er, Eg, Eb. apply perceivedLightness_in_unit.
Qed.

(** ** Non-negative numbers *)

Lemma add_nonneg (a b : number) :
  (0 <=? a) = true -> (0 <=? b) = true -> (0 <=? a + b) = true.
Proof.
  rewrite !leb_spec, add_spec. change (Prim2SF 0) with (S754_zero false).
  rewrite !Rounding.SFnonneg_leb. apply Rounding.SFadd_nonneg.
Qed.

Lemma sum_from_nonneg (l : list number) (acc : number) :
  (0 <=? acc) = true -> (forall v, In v l -> (0 <=? v) = true) ->
  (0 <=? fold_left add l acc) = true.
Proof.
  revert acc. induction l as [|v l IH]; intros acc A H; simpl; [exact A|].
  apply IH.
  - apply add_nonneg; [exact A|]. apply H. left. reflexivity.
  - intros u I. apply H. right. exact I.
Qed.

Lemma of_nat_spec (n : nat) :
  Prim2SF (of_nat n)
  = binary_normalize prec emax (Z.min (Z.of_nat n) (2 ^ 53)) 0 false.
Proof.
  unfold of_nat. rewrite of_uint63_spec, Uint63.of_Z_spec, Z.mod_small; [reflexivity|].
  change Uint63Axioms.wB with (2 ^ 63)%Z.
  assert (2 ^ 53 < 2 ^ 63)%Z by reflexivity. lia.
Qed.

(** A counter that is not 0 is a positive finite number. *)
Lemma of_nat_finite (n : nat) :
  (0 < n)%nat -> exists m e, Prim2SF (of_nat n) = S754_finite false m e.
Proof.
  intros H. rewrite of_nat_spec. apply Rounding.binary_normalize_int.
  assert (0 < 2 ^ 53)%Z by reflexivity. lia.
Qed.

Lemma div_of_nat_nonneg (a : number) (n : nat) :
  (0 <=? a) = true -> (0 < n)%nat -> (0 <=? a / of_nat n) = true.
Proof.
  intros A N. destruct (of_nat_finite n N) as [m [e E]].
  rewrite leb_spec in *. rewrite div_spec, E.
  change (Prim2SF 0) with (S754_zero false) in *.
  rewrite Rounding.SFnonneg_leb in *. apply Rounding.SFdiv_nonneg. exact A.
Qed.

(** The mean lightness of pixels of a well-formed bitmap is not negative. *)
Lemma mean_lightness_nonneg (img : ImageLike) (l : list (nat * nat)) :
  well_formed img -> (forall p, In p l -> In p (pixels img)) -> l <> [] ->
  (0 <=? mean (map (lightnessAt img) l)) = true.
Proof.
  intros W S N. unfold mean, sum. apply div_of_nat_nonneg.
  - apply sum_from_nonneg; [reflexivity|].
    intros v I. apply in_map_iff in I. destruct I as [p [E I]]. subst v.
    pose proof (lightnessAt_in_unit img p W (S p I)) as U.
    apply andb_true_iff in U. apply U.
  - rewrite length_map. destruct l; [contradiction|simpl; lia].
Qed.

(** ** The confidence of the primary decision *)

Lemma Math_min_1_pos (c : number) :
  (0 <? c) = true -> Math_min 1 c = (if 1 <? c then 1 else c).
Proof.
  intros H. destruct (ltb_not_nan _ _ H) as [_ N].
  unfold Math_min. rewrite N. change (is_nan 1) with false. simpl.
  destruct (1 <? c); [reflexivity|].
  destruct (c <? 1); [reflexivity|].
  change (get_sign 1) with false. reflexivity.
Qed.

(** Light foreground: the clamp is the minimum with 1. *)
Lemma dark_confidence (avg : number) :
  gtb avg 0.58 = true ->
  clamp ((avg - 0.58) / 0.42) = Math_min 1 ((avg - 0.58) / 0.42).
Proof.
  intros H. pose proof (dark_confidence_pos avg H) as P.
  destruct (clamp_pos _ P) as [E _]. rewrite E, Math_min_1_pos by exact P. reflexivity.
Qed.

Lemma SFcompare_Eq_finite (m m' : positive) (e e' : Z) :
  SFcompare (S754_finite false m e) (S754_finite false m' e') = Some Eq ->
  m = m' /\ e = e'.
Proof.
  simpl. rewrite pos_cmp_cont.
  destruct (Z.compare_spec e e'); try discriminate.
  destruct (Pos.compare_spec m m'); try discriminate. auto.
Qed.

(** [0.42 - avg <= 0.42] for [0 <= avg < 0.42]. *)
Lemma light_difference_le (avg : number) :
  (0 <=? avg) = true -> (avg <? 0.42) = true -> (0.42 - avg <=? 0.42) = true.
Proof.
  intros A L. rewrite leb_spec in *. rewrite ltb_spec in L. rewrite sub_spec.
  pose proof (Prim2SF_valid avg) as V.
  change (Prim2SF 0) with (S754_zero false) in A.
  change (Prim2SF 0.42) with (S754_finite false 7566047373982433 (-54)) in *.
  unfold SFltb in L.
  destruct (Prim2SF avg) as [s|[]| |[] m e]; try discriminate.
  - reflexivity.
  - assert (C : SFcompare (S754_finite false m e)
                  (S754_finite false 7566047373982433 (-54)) = Some Lt).
    { destruct (SFcompare (S754_finite false m e)
                  (S754_finite false 7566047373982433 (-54))) as [[]|];
        try discriminate. reflexivity. }
    apply Rounding.SFsub_le; [reflexivity|exact V| |exact C].
    assert (2 ^ 52 < 7566047373982433)%Z by reflexivity. lia.
Qed.

(** [d / 0.42 <= 1] for [0 < d <= 0.42]. *)
Lemma light_quotient_le (d : number) :
  (0 <? d) = true -> (d <=? 0.42) = true -> (d / 0.42 <=? 1) = true.
Proof.
  intros P L. apply ltb_0_pos in P. pose proof (Prim2SF_valid d) as V.
  assert (C : SFcompare (Prim2SF d) (Prim2SF 0.42) = Some Lt
              \/ SFcompare (Prim2SF d) (Prim2SF 0.42) = Some Eq).
  { rewrite leb_spec in L. unfold SFleb in L.
    destruct (SFcompare (Prim2SF d) (Prim2SF 0.42)) as [[]|]; try discriminate; auto. }
  destruct C as [C|C].
  - rewrite leb_spec, div_spec.
    change (Prim2SF 0.42) with (S754_finite false 7566047373982433 (-54)) in *.
    change (Prim2SF 1) with (S754_finite false 4503599627370496 (-52)).
    destruct (Prim2SF d) as [s|[]| |[] m e]; try contradiction; try discriminate.
    apply Rounding.SFdiv_le_one; [exact V|reflexivity| |lia|exact C].
    assert (2 ^ 52 < 7566047373982433)%Z by reflexivity. lia.
  - assert (E : d = 0.42).
    { apply Prim2SF_inj.
      change (Prim2SF 0.42) with (S754_finite false 7566047373982433 (-54)) in *.
      destruct (Prim2SF d) as [s|[]| |[] m e]; try contradiction; try discriminate.
      apply SFcompare_Eq_finite in C. destruct C; subst; reflexivity. }
    rewrite E. reflexivity.
Qed.

(** Dark foreground: the clamp changes nothing. *)
Lemma light_confidence (avg : number) :
  (0 <=? avg) = true -> (avg <? 0.42) = true ->
  clamp ((0.42 - avg) / 0.42) = (0.42 - avg) / 0.42.
Proof.
  intros A L. pose proof (light_confidence_pos avg L) as P.
  destruct (clamp_pos _ P) as [E _]. rewrite E.
  assert (U : ((0.42 - avg) / 0.42 <=? 1) = true).
  { apply light_quotient_le; [apply sub_pos; exact L|apply light_difference_le; assumption]. }
  rewrite (leb_ltb_false _ _ U). reflexivity.
Qed.

(** What the analyzer returns when some pixel is counted. *)
Lemma suggestBackground_counted (img : ImageLike) (o : SuggestionOptions) :
  counted img (destructure o) <> [] ->
  let cfg := destructure o in
  let avg := mean (map (lightnessAt img) (counted img cfg)) in
  suggestBackground img o
  = {| tone := fst (decide img cfg avg); confidence := clamp (snd (decide img cfg avg));
       foregroundLightness := avg;
       foregroundSampled := length (counted img cfg);
       totalSampled := width img * height img |}.
Proof.
  intros N cfg avg. unfold suggestBackground. fold cfg.
  destruct (pass1_counted img cfg) as [C A]. rewrite C, A.
  destruct (length (counted img cfg) =? 0)%nat eqn:E.
  - apply Nat.eqb_eq, length_zero_iff_nil in E. contradiction.
  - assert (M : sum (map (lightnessAt img) (counted img cfg))
                / of_nat (length (counted img cfg)) = avg).
    { unfold avg, mean. rewrite length_map. reflexivity. }
    cbv zeta. rewrite M. destruct (decide img cfg avg); reflexivity.
Qed.

(** ** The primary decision *)

(** C1, as stated, fails: on one opaque white pixel with
    ignorePureWhite = false the mean is 1, (1 - 0.58) / 0.42 rounds to
    1.0000000000000002 and the clamp returns 1. *)
Lemma unclamped_confidence_counterexample :
  let s := suggestBackground white_pixel (with_flags false false) in
  let avg := avgLightness white_pixel (destructure (with_flags false false)) in
  foregroundLightness s = avg /\ gtb avg 0.58 = true /\ tone s = dark
  /\ confidence s = 1 /\ confidence s <> (avg - 0.58) / 0.42.
Proof.
  cbv zeta. repeat split; try (vm_compute; reflexivity).
  intros H.
  assert (F : (confidence (suggestBackground white_pixel (with_flags false false)) <=? 1)
              = false); [rewrite H; vm_compute; reflexivity|].
  vm_compute in F. discriminate.
Qed.

(** C1, amended: on a well-formed bitmap with at least one foreground
    pixel, the lightness sqrt(0.299 R^2 + 0.587 G^2 + 0.114 B^2) / 255 of
    every foreground pixel is in [0,1], foregroundLightness is their mean
    avg, and: if avg > 0.58 the tone is dark and the confidence is
    min(1, (avg - 0.58) / 0.42); if avg < 0.42 the tone is light and the
    confidence is (0.42 - avg) / 0.42. *)
Theorem primary_decision (img : ImageLike) (o : SuggestionOptions) :
  let cfg := destructure o in
  let avg := avgLightness img cfg in
  let s := suggestBackground img o in
  well_formed img -> is_nan (s_alphaThreshold cfg) = false -> foreground img cfg <> [] ->
  (forall p, In p (foreground img cfg) ->
     lightnessAt img p = perceivedLightness (red img p) (green img p) (blue img p)
     /\ in_unit (lightnessAt img p) = true)
  /\ foregroundLightness s = avg
  /\ (gtb avg 0.58 = true ->
      tone s = dark /\ confidence s = Math_min 1 ((avg - 0.58) / 0.42))
  /\ ((avg <? 0.42) = true ->
      tone s = light /\ confidence s = (0.42 - avg) / 0.42).
Proof.
  intros cfg avg s W T N.
  assert (S : forall p, In p (foreground img cfg) -> In p (pixels img)).
  { intros p I. apply filter_In in I. apply I. }
  assert (C : counted img cfg = foreground img cfg) by (apply counted_foreground; assumption).
  assert (E : s = {| tone := fst (decide img cfg avg);
                     confidence := clamp (snd (decide img cfg avg));
                     foregroundLightness := avg;
                     foregroundSampled := length (foreground img cfg);
                     totalSampled := width img * height img |}).
  { unfold s, avg, avgLightness. rewrite <- C.
    apply suggestBackground_counted. fold cfg. rewrite C. exact N. }
  rewrite E. simpl. split; [|split; [reflexivity|split]].
  - intros p I. split; [reflexivity|]. apply lightnessAt_in_unit; auto.
  - intros G. unfold decide. rewrite G. simpl. split; [reflexivity|].
    apply dark_confidence. exact G.
  - intros L. unfold decide.
    assert (G : gtb avg 0.58 = false).
    { unfold gtb. destruct (0.58 <? avg) eqn:G; [|reflexivity].
      assert (F : (0.42 <=? 0.58) = true) by reflexivity.
      pose proof (leb_trans 0.42 0.58 avg F (ltb_leb _ _ G)) as F'.
      rewrite (leb_ltb_false _ _ F') in L. discriminate. }
    rewrite G, L. simpl. split; [reflexivity|].
    apply light_confidence; [|exact L].
    apply mean_lightness_nonneg; assumption.
Qed.

Lemma primary_decision_witness :
  tone (suggestBackground light_logo (with_flags false false)) = dark
  /\ tone (suggestBackground dark_logo no_options) = light
  /\ confidence (suggestBackground dark_logo no_options)
     = (0.42 - avgLightness dark_logo (destructure no_options)) / 0.42.
Proof.
  assert (N : forall img o, length (foreground img (destructure o)) = 4%nat ->
                            foreground img (destructure o) <> []).
  { intros img o H E. rewrite E in H. discriminate. }
  destruct (primary_decision light_logo (with_flags false false)) as [_ [_ [D _]]].
  - unfold well_formed. simpl. lia.
  - reflexivity.
  - apply N. vm_compute. reflexivity.
  - destruct (primary_decision dark_logo no_options) as [_ [_ [_ L]]].
    + unfold well_formed. simpl. lia.
    + reflexivity.
    + apply N. vm_compute. reflexivity.
    + split; [apply D; vm_compute; reflexivity|].
      apply L. vm_compute. reflexivity.
Defined.

(** ** The ambiguous band *)

(** A mean in the ambiguous band is a number: there is a foreground. *)
Lemma ambiguous_foreground (img : ImageLike) (cfg : Settings) :
  (0.42 <=? avgLightness img cfg) = true -> foreground img cfg <> [].
Proof.
  intros L E. unfold avgLightness in L. rewrite E in L. vm_compute in L. discriminate.
Qed.

(** The result on a well-formed bitmap with a foreground. *)
Lemma suggestBackground_foreground (img : ImageLike) (o : SuggestionOptions) :
  let cfg := destructure o in
  let avg := avgLightness img cfg in
  well_formed img -> is_nan (s_alphaThreshold cfg) = false -> foreground img cfg <> [] ->
  suggestBackground img o
  = {| tone := fst (decide img cfg avg); confidence := clamp (snd (decide img cfg avg));
       foregroundLightness := avg;
       foregroundSampled := length (foreground img cfg);
       totalSampled := width img * height img |}.
Proof.
  intros cfg avg W T N.
  assert (C : counted img cfg = foreground img cfg) by (apply counted_foreground; assumption).
  unfold avg, avgLightness. rewrite <- C.
  apply suggestBackground_counted. fold cfg. rewrite C. exact N.
Qed.

(** In the ambiguous band [decide] runs the edge pass. *)
Lemma decide_ambiguous (img : ImageLike) (cfg : Settings) (avg : number) :
  (0.42 <=? avg) = true -> (avg <=? 0.58) = true ->
  decide img cfg avg
  = if (0 <? edgeOpaque (pass2 img cfg))%nat
    then ((if gtb (edgeLightAccum (pass2 img cfg) / of_nat (edgeOpaque (pass2 img cfg))) avg
           then light else dark), 0.3)
    else (dark, 0.1).
Proof.
  intros L U. unfold decide, gtb.
  rewrite (leb_ltb_false _ _ U), (leb_ltb_false _ _ L). reflexivity.
Qed.

(** In the ambiguous band the result is decided by the edge pixels: with
    none the tone is dark and the confidence 0.1; otherwise the
    confidence is 0.3 and the tone is light when their mean lightness is
    above avg, dark otherwise. *)
Lemma ambiguous_edge_pixels (img : ImageLike) (o : SuggestionOptions) :
  let cfg := destructure o in
  let avg := avgLightness img cfg in
  let s := suggestBackground img o in
  well_formed img -> is_nan (s_alphaThreshold cfg) = false ->
  (0.42 <=? avg) = true -> (avg <=? 0.58) = true ->
  foregroundLightness s = avg
  /\ match edgePixels img cfg with
     | [] => tone s = dark /\ confidence s = 0.1
     | _ :: _ =>
         tone s = (if gtb (edgeAvg img cfg) avg then light else dark)
         /\ confidence s = 0.3
     end.
Proof.
  intros cfg avg s W T L U.
  pose proof (ambiguous_foreground img cfg L) as N.
  unfold s. rewrite (suggestBackground_foreground img o W T N). fold cfg avg.
  rewrite (decide_ambiguous img cfg avg L U). simpl. split; [reflexivity|].
  destruct (pass2_counted img cfg) as [P1 P2].
  rewrite (edgeCounted_edgePixels img cfg W T) in P1, P2.
  rewrite P1, P2. unfold edgeAvg, mean. rewrite length_map.
  destruct (edgePixels img cfg) as [|p l]; simpl; split; reflexivity.
Qed.

(** ** Counters and indices as numbers *)

Lemma of_nat_canon (n : nat) :
  (0 < Z.of_nat n < 2 ^ 53)%Z -> Prim2SF (of_nat n) = IEEE.canon (Z.of_nat n).
Proof.
  intros H. rewrite of_nat_spec, Z.min_l by lia. apply Rounding.binary_normalize_canon. exact H.
Qed.

Lemma of_nat_sign (n : nat) : IEEE.SFsign false (Prim2SF (of_nat n)).
Proof.
  rewrite of_nat_spec. apply Rounding.binary_normalize_sign.
  assert (0 < 2 ^ 53)%Z by reflexivity. lia.
Qed.

Lemma of_nat_not_nan (n : nat) : is_nan (of_nat n) = false.
Proof.
  apply is_nan_spec. pose proof (of_nat_sign n) as S.
  destruct (Prim2SF (of_nat n)); simpl in S; congruence.
Qed.

(** Indices below a dimension below 2^53 compare as the integers do. *)
Lemma of_nat_lt (i n : nat) :
  (i < n)%nat -> (Z.of_nat n < 2 ^ 53)%Z -> (of_nat i <? of_nat n) = true.
Proof.
  intros L U. rewrite ltb_spec. unfold SFltb.
  rewrite (of_nat_canon n) by lia.
  destruct i as [|i].
  - reflexivity.
  - rewrite (of_nat_canon (S i)) by lia. rewrite Rounding.canon_lt; [reflexivity|lia|lia|lia].
Qed.

(** Counting is exact below 2^53. *)
Lemma of_nat_add (a b : nat) :
  (Z.of_nat (a + b) < 2 ^ 53)%Z -> of_nat a + of_nat b = of_nat (a + b).
Proof.
  intros U. apply Prim2SF_inj. rewrite add_spec.
  destruct a as [|a]; [|destruct b as [|b]].
  - change (Prim2SF (of_nat 0)) with (S754_zero false). simpl Nat.add.
    pose proof (of_nat_sign b) as Sg.
    destruct (Prim2SF (of_nat b)) as [[]|[]| |[] m e]; simpl in Sg; try congruence;
      reflexivity.
  - change (Prim2SF (of_nat 0)) with (S754_zero false). rewrite Nat.add_0_r.
    pose proof (of_nat_sign (S a)) as Sg.
    destruct (Prim2SF (of_nat (S a))) as [[]|[]| |[] m e]; simpl in Sg; try congruence;
      reflexivity.
  - rewrite !of_nat_canon by lia. rewrite Nat2Z.inj_add.
    apply Rounding.SFadd_canon; lia.
Qed.

(** A counter that is not 0, divided by itself, is 1. *)
Lemma of_nat_div_self (n : nat) : (0 < n)%nat -> of_nat n / of_nat n = 1.
Proof.
  intros H. apply Prim2SF_inj. rewrite div_spec.
  pose proof (Prim2SF_valid (of_nat n)) as V.
  destruct (of_nat_finite n H) as [m [e E]]. rewrite E in *.
  apply Rounding.SFdiv_self. exact V.
Qed.

(** ** The edge band *)

(** When the bands of a dimension meet, every index is in one of them. *)
Lemma inBand_all (n : nat) (band : number) (i : nat) :
  bandsMeet n band = true -> inBand n band i = true.
Proof.
  unfold bandsMeet, inBand. intros M.
  destruct (leb_not_nan _ _ M) as [_ Nb].
  destruct (of_nat i <? band) eqn:L; [reflexivity|]. simpl.
  assert (G : geb (of_nat i) band = true).
  { rewrite geb_negb_ltb; [rewrite L; reflexivity|apply of_nat_not_nan|exact Nb]. }
  unfold geb in *. exact (leb_trans _ _ _ M G).
Qed.

(** C7, as stated, fails: at edgeSampleRatio = 0.5 the bands of a 3x3
    bitmap are one pixel wide and leave the centre out; the edge pass
    counts 8 pixels, the first pass 9, and the two means differ. *)
Lemma edge_sample_counterexample :
  let img := dark_centre_3x3 in
  let cfg := destructure (with_ratio 0.5) in
  (0.5 <=? s_edgeSampleRatio cfg) = true
  /\ edgeOpaque (pass2 img cfg) = 8%nat /\ fgCount (pass1 img cfg) = 9%nat
  /\ edgeCounted img cfg <> counted img cfg
  /\ edgePixels img cfg <> foreground img cfg
  /\ (avgLightness img cfg <? edgeAvg img cfg) = true
  /\ edgeAvg img cfg <> avgLightness img cfg.
Proof.
  cbv zeta. repeat split; try (vm_compute; reflexivity).
  - intros E. apply (f_equal (@length _)) in E. vm_compute in E. discriminate.
  - intros E. apply (f_equal (@length _)) in E. vm_compute in E. discriminate.
  - intros E.
    assert (F : (avgLightness dark_centre_3x3 (destructure (with_ratio 0.5))
                 <? edgeAvg dark_centre_3x3 (destructure (with_ratio 0.5))) = true)
      by (vm_compute; reflexivity).
    rewrite E in F. vm_compute in F. discriminate.
Qed.

(** The exclusions are a second way for the two samples to differ: on a
    2x2 bitmap at ratio 0.5 the band is the whole image, and a pure white
    pixel is counted by the edge pass only. *)
Example edge_sample_keeps_pure_white :
  let img := {| width := 2; height := 2;
                data := rgba 255 255 255 255 ++ concat (repeat (rgba 128 128 128 255) 3) |} in
  let cfg := destructure (with_ratio 0.5) in
  bandsMeet (width img) (edgeBandX img cfg) = true
  /\ edgeOpaque (pass2 img cfg) = 4%nat /\ fgCount (pass1 img cfg) = 3%nat.
Proof. vm_compute. repeat split; reflexivity. Qed.

Lemma filter_keeps_all {T : Type} (keep : T -> bool) (xs : list T) :
  (forall x, In x xs -> keep x = true) -> filter keep xs = xs.
Proof.
  intros H. induction xs as [|x xs IH]; simpl; [reflexivity|].
  rewrite (H x (or_introl eq_refl)). f_equal. apply IH.
  intros y I. apply H. right. exact I.
Qed.

(** When the two column bands meet or the two row bands meet, every pixel
    is in the edge band; if moreover no pixel that passes the alpha test is
    removed by ignorePureWhite or ignorePureBlack, the edge pass counts the
    pixels the first pass counts and accumulates the same sum. *)
Lemma bands_meet_edge_sample (img : ImageLike) (cfg : Settings) :
  bandsMeet (width img) (edgeBandX img cfg) = true
  \/ bandsMeet (height img) (edgeBandY img cfg) = true ->
  (forall p, In p (pixels img) -> kept img cfg p = true -> excluded img cfg p = false) ->
  (forall p, inEdgeBand img cfg p = true)
  /\ edgeCounted img cfg = counted img cfg.
Proof.
  intros M X.
  assert (B : forall p, inEdgeBand img cfg p = true).
  { intros p. unfold inEdgeBand, inYBand, inXBand. apply orb_true_iff.
    destruct M as [M|M]; [right|left]; apply inBand_all; exact M. }
  split; [exact B|].
  unfold edgeCounted, counted. apply filter_ext_in. intros p I. rewrite B. simpl.
  destruct (kept img cfg p) eqn:K; [|reflexivity].
  rewrite (X p I K). reflexivity.
Qed.

(** [Math.floor] keeps a number at or above an integer below 2^53 there. *)
Lemma Math_floor_ge (x : number) (k : Z) :
  (0 < k < 2 ^ 53)%Z ->
  SFleb (IEEE.canon k) (Prim2SF x) = true ->
  SFleb (IEEE.canon k) (Prim2SF (Math_floor x)) = true.
Proof.
  intros Hk L. pose proof (Prim2SF_valid x) as V. unfold Math_floor.
  destruct (Prim2SF x) as [s|s| |s m e] eqn:E; try (rewrite E; exact L).
  destruct s; [discriminate L|].
  destruct (Z.leb_spec 0 e) as [P|N]; [rewrite E; exact L|].
  unfold cond_Zopp.
  pose proof (Rounding.floor_ge k m e Hk N V L) as Q.
  rewrite Rounding.binary_normalize_canon by lia.
  rewrite Prim2SF_SF2Prim by (apply Rounding.canon_valid; lia).
  apply Rounding.canon_le; lia.
Qed.

(** At a ratio of at least 0.5 the two bands of an even dimension below
    2^53 meet. *)
Lemma even_bands_meet (n : nat) (r : number) :
  Nat.even n = true -> (0 < n)%nat -> (Z.of_nat n < 2 ^ 53)%Z ->
  (0.5 <=? r) = true -> bandsMeet n (edgeBand n r) = true.
Proof.
  intros Ev P U R. apply Nat.even_spec in Ev. destruct Ev as [h Eh].
  set (k := Z.of_nat h).
  assert (Hk : (0 < k)%Z) by (unfold k; lia).
  assert (Hu : (2 * k < 2 ^ 53)%Z) by (unfold k; lia).
  assert (Hk53 : (0 < k < 2 ^ 53)%Z) by (unfold k; lia).
  assert (En : Prim2SF (of_nat n) = IEEE.canon (2 * k)).
  { rewrite of_nat_canon by lia. f_equal. unfold k. lia. }
  assert (L1 : SFleb (IEEE.canon k) (Prim2SF (of_nat n * r)) = true).
  { rewrite mul_spec, En. rewrite leb_spec in R.
    change (Prim2SF 0.5) with (S754_finite false 4503599627370496 (-53)) in R.
    pose proof (Prim2SF_valid r) as V.
    destruct (Prim2SF r) as [s|s| |s m e]; try destruct s; try discriminate R.
    - reflexivity.
    - apply Rounding.SFmul_half_le; assumption. }
  pose proof (Math_floor_ge _ k Hk53 L1) as L2.
  unfold bandsMeet, edgeBand. rewrite leb_spec, sub_spec, En.
  apply Rounding.SFsub_half_le; [exact Hk|exact Hu|apply Prim2SF_valid|exact L2].
Qed.

Lemma pixels_nil (img : ImageLike) :
  width img = 0%nat \/ height img = 0%nat -> pixels img = [].
Proof.
  unfold pixels. intros [E|E]; rewrite E; simpl; [|reflexivity].
  induction (seq 0 (height img)); simpl; auto.
Qed.

(** C7, amended: for a bitmap whose width or height is even (and below
    2^53) and a configuration with edgeSampleRatio >= 0.5, every pixel is
    in the edge band; if moreover no pixel that passes the alpha test is
    removed by ignorePureWhite or ignorePureBlack, the set of pixels
    counted in the edge pass is the set counted as foreground in the first
    pass, and edgeAvg, as line 142 computes it, is the mean avg of line
    110. *)
Theorem whole_image_edge_band (img : ImageLike) (o : SuggestionOptions) :
  let cfg := destructure o in
  (0.5 <=? s_edgeSampleRatio cfg) = true ->
  (Nat.even (width img) = true /\ (Z.of_nat (width img) < 2 ^ 53)%Z)
  \/ (Nat.even (height img) = true /\ (Z.of_nat (height img) < 2 ^ 53)%Z) ->
  (forall p, In p (pixels img) -> kept img cfg p = true -> excluded img cfg p = false) ->
  (forall p, In p (pixels img) -> inEdgeBand img cfg p = true)
  /\ edgeCounted img cfg = counted img cfg
  /\ edgeOpaque (pass2 img cfg) = fgCount (pass1 img cfg)
  /\ edgeLightAccum (pass2 img cfg) / of_nat (edgeOpaque (pass2 img cfg))
     = accumLightness (pass1 img cfg) / of_nat (fgCount (pass1 img cfg)).
Proof.
  intros cfg R Ev X.
  assert (S : (forall p, In p (pixels img) -> inEdgeBand img cfg p = true)
              /\ edgeCounted img cfg = counted img cfg).
  { destruct (Nat.eq_dec (width img) 0) as [W0|W0];
      [|destruct (Nat.eq_dec (height img) 0) as [H0|H0]].
    - assert (N : pixels img = []) by (apply pixels_nil; auto).
      unfold edgeCounted, counted. rewrite N. simpl. split; [contradiction|reflexivity].
    - assert (N : pixels img = []) by (apply pixels_nil; auto).
      unfold edgeCounted, counted. rewrite N. simpl. split; [contradiction|reflexivity].
    - destruct (bands_meet_edge_sample img cfg) as [B E]; [|exact X|split; auto].
      destruct Ev as [[Ev U]|[Ev U]]; [left|right]; apply even_bands_meet;
        try assumption; lia. }
  destruct S as [B E].
  destruct (pass1_counted img cfg) as [C1 C2].
  destruct (pass2_counted img cfg) as [P1 P2].
  split; [exact B|]. split; [exact E|].
  rewrite P1, P2, C1, C2, E. split; reflexivity.
Qed.

Lemma whole_image_edge_band_witness :
  edgeOpaque (pass2 grey_2x2 (destructure (with_ratio 0.5))) = 4%nat
  /\ fgCount (pass1 grey_2x2 (destructure (with_ratio 0.5))) = 4%nat.
Proof.
  destruct (whole_image_edge_band grey_2x2 (with_ratio 0.5)) as [_ [_ [H _]]].
  - reflexivity.
  - left. split; reflexivity.
  - intros p I K.
    assert (F : forallb (fun p => negb (excluded grey_2x2 (destructure (with_ratio 0.5)) p))
                  (pixels grey_2x2) = true) by (vm_compute; reflexivity).
    rewrite forallb_forall in F. specialize (F p I). apply negb_true_iff in F. exact F.
  - rewrite H. split; vm_compute; reflexivity.
Defined.

(** With a band of width 0 no index of a dimension below 2^53 is in it. *)
Lemma inBand_zero (n : nat) (band : number) (i : nat) :
  (i < n)%nat -> (Z.of_nat n < 2 ^ 53)%Z -> (band =? 0) = true ->
  inBand n band i = false.
Proof.
  intros L U Z0.
  assert (Zb : exists s, Prim2SF band = S754_zero s).
  { rewrite eqb_spec in Z0. change (Prim2SF 0) with (S754_zero false) in Z0.
    unfold SFeqb in Z0.
    destruct (Prim2SF band) as [s|[]| |[] m e]; simpl in Z0; try discriminate.
    exists s. reflexivity. }
  destruct Zb as [s Zb].
  unfold inBand. apply orb_false_iff. split.
  - rewrite ltb_spec, Zb. unfold SFltb. pose proof (of_nat_sign i) as Sg.
    destruct (Prim2SF (of_nat i)) as [[]|[]| |[] m e]; simpl in Sg; try congruence;
      reflexivity.
  - assert (E : of_nat n - band = of_nat n).
    { apply Prim2SF_inj. rewrite sub_spec, Zb.
      rewrite (of_nat_canon n) by lia. reflexivity. }
    unfold geb. rewrite E.
    destruct (of_nat n <=? of_nat i) eqn:G; [|reflexivity].
    apply leb_ltb_false in G. rewrite (of_nat_lt i n L U) in G. discriminate.
Qed.

(** Under the default ratio 0.4 a dimension of at most 2 has a band of
    width floor(0.8) = 0. *)
Lemma default_band_small (n : nat) : (n <= 2)%nat -> (edgeBand n 0.4 =? 0) = true.
Proof.
  intros H. destruct n as [|[|[|n]]]; try lia; vm_compute; reflexivity.
Qed.

Lemma filter_keeps_none {T : Type} (keep : T -> bool) (xs : list T) :
  (forall x, In x xs -> keep x = false) -> filter keep xs = [].
Proof.
  intros H. induction xs as [|x xs IH]; simpl; [reflexivity|].
  rewrite (H x (or_introl eq_refl)). apply IH.
  intros y I. apply H. right. exact I.
Qed.

(** C9: when floor(width * edgeSampleRatio) and
    floor(height * edgeSampleRatio) are both 0 the edge band is empty, so
    on a well-formed bitmap whose mean foreground lightness is in
    [0.42, 0.58] the result is tone = dark with confidence = 0.1, whatever
    the alpha of the pixels. *)
Theorem empty_edge_band (img : ImageLike) (o : SuggestionOptions) :
  let cfg := destructure o in
  let avg := avgLightness img cfg in
  let s := suggestBackground img o in
  well_formed img -> is_nan (s_alphaThreshold cfg) = false ->
  (Z.of_nat (width img) < 2 ^ 53)%Z -> (Z.of_nat (height img) < 2 ^ 53)%Z ->
  (edgeBandX img cfg =? 0) = true -> (edgeBandY img cfg =? 0) = true ->
  (0.42 <=? avg) = true -> (avg <=? 0.58) = true ->
  (forall p, In p (pixels img) -> inEdgeBand img cfg p = false)
  /\ edgePixels img cfg = []
  /\ tone s = dark /\ confidence s = 0.1.
Proof.
  intros cfg avg s W T Uw Uh Zx Zy L U.
  assert (B : forall p, In p (pixels img) -> inEdgeBand img cfg p = false).
  { intros p I. apply in_pixels in I. destruct I as [Iy Ix].
    unfold inEdgeBand, inYBand, inXBand. apply orb_false_iff.
    split; apply inBand_zero; assumption. }
  assert (E : edgePixels img cfg = []).
  { unfold edgePixels. apply filter_keeps_none. intros p I. rewrite (B p I). reflexivity. }
  split; [exact B|]. split; [exact E|].
  pose proof (ambiguous_foreground img cfg L) as N.
  unfold s. rewrite (suggestBackground_foreground img o W T N). fold cfg avg.
  rewrite (decide_ambiguous img cfg avg L U).
  destruct (pass2_counted img cfg) as [P1 _].
  rewrite (edgeCounted_edgePixels img cfg W T), E in P1. rewrite P1.
  simpl. split; reflexivity.
Qed.

(** A fully opaque mid-grey 2x2 bitmap under the default options. *)
Lemma empty_edge_band_witness :
  tone (suggestBackground grey_2x2 no_options) = dark
  /\ confidence (suggestBackground grey_2x2 no_options) = 0.1.
Proof.
  destruct (empty_edge_band grey_2x2 no_options) as [_ [_ H]].
  - unfold well_formed. simpl. lia.
  - reflexivity.
  - reflexivity.
  - reflexivity.
  - apply (default_band_small 2). lia.
  - apply (default_band_small 2). lia.
  - vm_compute. reflexivity.
  - vm_compute. reflexivity.
  - exact H.
Defined.

(** ** All-white and all-black bitmaps *)

Lemma nth_error_concat_repeat (px : list byte) (n q k : nat) :
  (q < n)%nat -> (k < length px)%nat ->
  nth_error (concat (repeat px n)) (q * length px + k) = nth_error px k.
Proof.
  revert q. induction n as [|n IH]; intros q Hq Hk; [lia|].
  simpl. destruct q as [|q].
  - simpl. apply nth_error_app1. exact Hk.
  - rewrite nth_error_app2 by (simpl; lia).
    replace (S q * length px + k - length px)%nat with (q * length px + k)%nat
      by (simpl; lia).
    apply IH; lia.
Qed.

(** Every pixel of a uniform bitmap reads as the pixel it repeats. *)
Lemma read_uniform (w h : nat) (px : list byte) (p : nat * nat) (k : nat) :
  length px = 4%nat -> In p (pixels (uniform w h px)) -> (k < 4)%nat ->
  read (data (uniform w h px)) (index (uniform w h px) p + k) = read px k.
Proof.
  intros Lp I K. apply in_pixels in I. simpl in I. destruct I as [Iy Ix].
  unfold read, index. simpl. rewrite <- Lp.
  rewrite nth_error_concat_repeat; [reflexivity| |lia]. nia.
Qed.

Lemma uniform_pixel (w h : nat) (r g b a : N) (p : nat * nat) :
  In p (pixels (uniform w h (rgba r g b a))) ->
  let img := uniform w h (rgba r g b a) in
  red img p = of_byte (u8 r) /\ green img p = of_byte (u8 g)
  /\ blue img p = of_byte (u8 b) /\ alpha img p = of_byte (u8 a).
Proof.
  intros I img. unfold red, green, blue, alpha, img.
  rewrite <- (Nat.add_0_r (index (uniform w h (rgba r g b a)) p)) at 1.
  rewrite !read_uniform by (try reflexivity; try exact I; lia).
  repeat split; reflexivity.
Qed.

Lemma length_pixels (img : ImageLike) : length (pixels img) = (height img * width img)%nat.
Proof. unfold pixels. rewrite length_prod, !length_seq. reflexivity. Qed.

(** Counting ones from a counter is exact below 2^53. *)
Lemma sum_ones (l : list number) (k : nat) :
  (forall v, In v l -> v = 1) -> (Z.of_nat (k + length l) < 2 ^ 53)%Z ->
  fold_left add l (of_nat k) = of_nat (k + length l).
Proof.
  revert k. induction l as [|v l IH]; intros k H U; simpl.
  - rewrite Nat.add_0_r. reflexivity.
  - rewrite (H v (or_introl eq_refl)). change 1 with (of_nat 1).
    simpl length in U. rewrite of_nat_add by lia.
    rewrite IH; [f_equal; lia| |].
    + intros u I. apply H. right. exact I.
    + replace (k + 1 + length l)%nat with (k + S (length l))%nat by lia. exact U.
Qed.

Lemma sum_zeros (l : list number) :
  (forall v, In v l -> v = 0) -> fold_left add l 0 = 0.
Proof.
  induction l as [|v l IH]; intros H; simpl; [reflexivity|].
  rewrite (H v (or_introl eq_refl)). change (0 + 0) with 0.
  apply IH. intros u I. apply H. right. exact I.
Qed.

Lemma zero_div_of_nat (n : nat) : (0 < n)%nat -> 0 / of_nat n = 0.
Proof.
  intros H. apply Prim2SF_inj. rewrite div_spec.
  destruct (of_nat_finite n H) as [m [e E]]. rewrite E. reflexivity.
Qed.

Lemma map_const {A : Type} (f : A -> number) (c : number) (l : list A) :
  (forall a, In a l -> f a = c) -> forall v, In v (map f l) -> v = c.
Proof.
  intros H v I. apply in_map_iff in I. destruct I as [a [E I]]. subst v. apply H. exact I.
Qed.

Section Uniform.

Variables (w h : nat) (r g b : N).
Variable cfg : Settings.

Let img : ImageLike := uniform w h (rgba r g b 255).

Hypothesis Hthr : (255 <? s_alphaThreshold cfg) = false.
Hypothesis Hwhite :
  s_ignorePureWhite cfg
  && ((of_byte (u8 r) =? 255) && (of_byte (u8 g) =? 255) && (of_byte (u8 b) =? 255))
  = false.
Hypothesis Hblack :
  s_ignorePureBlack cfg
  && ((of_byte (u8 r) =? 0) && (of_byte (u8 g) =? 0) && (of_byte (u8 b) =? 0))
  = false.

(** Every pixel of an opaque uniform bitmap that no exclusion removes is counted. *)
Lemma uniform_counted : counted img cfg = pixels img.
Proof.
  unfold counted. apply filter_keeps_all. intros p I.
  destruct (uniform_pixel w h r g b 255 p I) as [Er [Eg [Eb Ea]]].
  unfold kept, excluded, isPureWhite, isPureBlack. fold img in Er, Eg, Eb, Ea.
  rewrite Er, Eg, Eb, Ea. change (of_byte (u8 255)) with 255.
  rewrite Hthr, Hwhite, Hblack. reflexivity.
Qed.

Lemma uniform_lightness (p : nat * nat) :
  In p (pixels img) ->
  lightnessAt img p = perceivedLightness (of_byte (u8 r)) (of_byte (u8 g)) (of_byte (u8 b)).
Proof.
  intros I. destruct (uniform_pixel w h r g b 255 p I) as [Er [Eg [Eb _]]].
  unfold lightnessAt. fold img in Er, Eg, Eb. rewrite Er, Eg, Eb. reflexivity.
Qed.

End Uniform.

(** An all-white opaque bitmap whose white is not ignored has mean lightness 1. *)
Lemma white_mean (w h : nat) (cfg : Settings) :
  (0 < w * h)%nat -> (Z.of_nat (w * h) < 2 ^ 53)%Z ->
  (255 <? s_alphaThreshold cfg) = false -> s_ignorePureWhite cfg = false ->
  counted (white w h) cfg <> []
  /\ mean (map (lightnessAt (white w h)) (counted (white w h) cfg)) = 1.
Proof.
  intros P U T Iw.
  assert (C : counted (white w h) cfg = pixels (white w h)).
  { apply uniform_counted; [exact T|rewrite Iw; reflexivity|].
    change (of_byte (u8 255) =? 0) with false. rewrite !andb_false_r. reflexivity. }
  assert (Ln : length (pixels (white w h)) = (h * w)%nat) by apply length_pixels.
  rewrite C. split.
  - intros E. rewrite E in Ln. simpl in Ln. lia.
  - unfold mean, sum. rewrite length_map, Ln.
    change 0 with (of_nat 0) at 1. rewrite sum_ones.
    + rewrite length_map, Ln. simpl. apply of_nat_div_self. lia.
    + apply map_const. intros p I. unfold white in *.
      rewrite (uniform_lightness w h 255 255 255 p I). vm_compute. reflexivity.
    + rewrite length_map, Ln. simpl. replace (h * w)%nat with (w * h)%nat by lia. exact U.
Qed.

(** An all-black opaque bitmap whose black is not ignored has mean lightness 0. *)
Lemma black_mean (w h : nat) (cfg : Settings) :
  (0 < w * h)%nat ->
  (255 <? s_alphaThreshold cfg) = false -> s_ignorePureBlack cfg = false ->
  counted (black w h) cfg <> []
  /\ mean (map (lightnessAt (black w h)) (counted (black w h) cfg)) = 0.
Proof.
  intros P T Ib.
  assert (C : counted (black w h) cfg = pixels (black w h)).
  { apply uniform_counted; [exact T| |rewrite Ib; reflexivity].
    change (of_byte (u8 0) =? 255) with false. rewrite !andb_false_r. reflexivity. }
  assert (Ln : length (pixels (black w h)) = (h * w)%nat) by apply length_pixels.
  rewrite C. split.
  - intros E. rewrite E in Ln. simpl in Ln. lia.
  - unfold mean, sum. rewrite length_map, Ln. rewrite sum_zeros.
    + apply zero_div_of_nat. lia.
    + apply map_const. intros p I. unfold black in *.
      rewrite (uniform_lightness w h 0 0 0 p I). vm_compute. reflexivity.
Qed.

(** A uniform bitmap whose colour is excluded has no foreground. *)
Lemma uniform_excluded (w h : nat) (r g b a : N) (o : SuggestionOptions) :
  s_ignorePureWhite (destructure o)
  && ((of_byte (u8 r) =? 255) && (of_byte (u8 g) =? 255) && (of_byte (u8 b) =? 255))
  || s_ignorePureBlack (destructure o)
     && ((of_byte (u8 r) =? 0) && (of_byte (u8 g) =? 0) && (of_byte (u8 b) =? 0))
  = true ->
  suggestBackground (uniform w h (rgba r g b a)) o = fallback (uniform w h (rgba r g b a)).
Proof.
  intros X. unfold suggestBackground.
  destruct (pass1_counted (uniform w h (rgba r g b a)) (destructure o)) as [C _].
  rewrite (counted_nil (uniform w h (rgba r g b a)) (destructure o)) in C.
  - rewrite C. reflexivity.
  - intros p I. right.
    destruct (uniform_pixel w h r g b a p I) as [Er [Eg [Eb _]]].
    unfold excluded, isPureWhite, isPureBlack. rewrite Er, Eg, Eb. exact X.
Qed.

(** C6, as stated, fails: with b1 = true and b2 = false the white bitmap
    (ignorePureWhite = true) and the black bitmap (ignorePureBlack = true)
    both have an empty foreground and both return dark. *)
Lemma mirrored_tones_counterexample :
  let sw := suggestBackground (white 1 1) (options_of None true false None) in
  let sb := suggestBackground (black 1 1) (options_of None false true None) in
  tone sw = dark /\ tone sb = dark /\ ~ (tone sw = light <-> tone sb = dark).
Proof.
  cbv zeta. split; [vm_compute; reflexivity|]. split; [vm_compute; reflexivity|].
  intros [_ H].
  assert (E : tone (suggestBackground (white 1 1) (options_of None true false None)) = light).
  { apply H. vm_compute. reflexivity. }
  vm_compute in E. discriminate.
Qed.

(** C6, amended: for all-white and all-black opaque bitmaps of the same
    dimensions with at least one pixel, an alphaThreshold that 255 passes,
    and every flag b2: with b1 = false the white bitmap under
    {ignorePureWhite: false, ignorePureBlack: b2} returns dark and the
    black bitmap under {ignorePureWhite: b2, ignorePureBlack: false}
    returns light; with b1 = true both take the empty-foreground
    fallback and return dark. *)
Theorem white_black_tones (w h : nat) (thr ratio : option number) (b2 : bool) :
  (0 < w * h)%nat -> (Z.of_nat (w * h) < 2 ^ 53)%Z ->
  (255 <? s_alphaThreshold (destructure (options_of thr false false ratio))) = false ->
  (tone (suggestBackground (white w h) (options_of thr false b2 ratio)) = dark
   /\ tone (suggestBackground (black w h) (options_of thr b2 false ratio)) = light)
  /\ (suggestBackground (white w h) (options_of thr true b2 ratio) = fallback (white w h)
      /\ suggestBackground (black w h) (options_of thr b2 true ratio) = fallback (black w h)).
Proof.
  intros P U T. split; split.
  - destruct (white_mean w h (destructure (options_of thr false b2 ratio)) P U T eq_refl)
      as [N M].
    rewrite (suggestBackground_counted _ _ N). cbv zeta. rewrite M. reflexivity.
  - destruct (black_mean w h (destructure (options_of thr b2 false ratio)) P T eq_refl)
      as [N M].
    rewrite (suggestBackground_counted _ _ N). cbv zeta. rewrite M. reflexivity.
  - apply uniform_excluded. reflexivity.
  - apply uniform_excluded. simpl. apply orb_true_r.
Qed.

Lemma white_black_tones_witness :
  tone (suggestBackground (white 2 2) (options_of None false true None)) = dark
  /\ tone (suggestBackground (black 2 2) (options_of None true false None)) = light.
Proof.
  destruct (white_black_tones 2 2 None None true) as [H _].
  - simpl. lia.
  - reflexivity.
  - reflexivity.
  - exact H.
Defined.

(** ** The edge band in rows and columns *)

Module FloorFacts.

Import IEEE Rounding.
Local Open Scope Z_scope.

Lemma canon_value (z e : Z) :
  0 < z < 2 ^ 53 -> e <= canon_e z ->
  Zpos (canon_m z) * 2 ^ (canon_e z - e) = z * 2 ^ (- e).
Proof.
  intros Hz He. destruct (canon_m_spec z Hz) as [M [_ [K1 K2]]].
  unfold canon_e in *. rewrite M, <- Z.mul_assoc, <- Z.pow_add_r by lia.
  f_equal. f_equal. lia.
Qed.

(** A number below the integer [k], with a negative exponent. *)
Lemma lt_canon_fraction (m : positive) (e k : Z) :
  valid_binary (S754_finite false m e) = true -> 0 < k < 2 ^ 53 -> e < 0 ->
  SFltb (S754_finite false m e) (canon k) = true ->
  Zpos m < k * 2 ^ (- e).
Proof.
  intros V Hk He L. unfold SFltb in L.
  destruct (SFcompare (S754_finite false m e) (canon k)) as [[]|] eqn:C; try discriminate.
  pose proof (aligned_lt (canon_m k) m (canon_e k) e (canon_valid k Hk) V C) as A.
  set (mn := Z.min (canon_e k) e) in *.
  rewrite (canon_value k mn Hk) in A by (unfold mn; lia).
  assert (E : 2 ^ (- mn) = 2 ^ (e - mn) * 2 ^ (- e)).
  { rewrite <- Z.pow_add_r by (unfold mn; lia). f_equal; lia. }
  assert (T : 0 < 2 ^ (e - mn)) by (apply Z.pow_pos_nonneg; unfold mn; lia).
  rewrite E in A. nia.
Qed.

(** The same for a number that is an integer. *)
Lemma lt_canon_integer (m : positive) (e k : Z) :
  valid_binary (S754_finite false m e) = true -> 0 < k < 2 ^ 53 -> 0 <= e ->
  SFltb (S754_finite false m e) (canon k) = true ->
  Zpos m * 2 ^ e < k.
Proof.
  intros V Hk He L. unfold SFltb in L.
  destruct (SFcompare (S754_finite false m e) (canon k)) as [[]|] eqn:C; try discriminate.
  pose proof (aligned_lt (canon_m k) m (canon_e k) e (canon_valid k Hk) V C) as A.
  destruct (canon_m_spec k Hk) as [_ [_ [K1 K2]]].
  assert (Ce : canon_e k <= 0) by (unfold canon_e; lia).
  replace (Z.min (canon_e k) e) with (canon_e k) in A by lia.
  rewrite (canon_value k (canon_e k) Hk) in A by lia.
  assert (E : 2 ^ (e - canon_e k) = 2 ^ e * 2 ^ (- canon_e k)).
  { rewrite <- Z.pow_add_r by lia. f_equal; lia. }
  assert (T : 0 < 2 ^ (- canon_e k)) by (apply Z.pow_pos_nonneg; lia).
  rewrite E in A. nia.
Qed.

Lemma le_canon_integer (m : positive) (e k : Z) :
  valid_binary (S754_finite false m e) = true -> 0 < k < 2 ^ 53 -> 0 <= e ->
  SFleb (canon k) (S754_finite false m e) = true ->
  k <= Zpos m * 2 ^ e.
Proof.
  intros V Hk He L.
  pose proof (aligned_le m (canon_m k) e (canon_e k) V (canon_valid k Hk) L) as A.
  destruct (canon_m_spec k Hk) as [_ [_ [K1 K2]]].
  assert (Ce : canon_e k <= 0) by (unfold canon_e; lia).
  replace (Z.min e (canon_e k)) with (canon_e k) in A by lia.
  rewrite (canon_value k (canon_e k) Hk) in A by lia.
  assert (E : 2 ^ (e - canon_e k) = 2 ^ e * 2 ^ (- canon_e k)).
  { rewrite <- Z.pow_add_r by lia. f_equal; lia. }
  assert (T : 0 < 2 ^ (- canon_e k)) by (apply Z.pow_pos_nonneg; lia).
  rewrite E in A. nia.
Qed.

(** An integer of 53 bits is its own mantissa. *)
Lemma canon_53 (k : Z) : 2 ^ 52 <= k < 2 ^ 53 -> canon k = S754_finite false (Z.to_pos k) 0.
Proof.
  intros H. assert (D : dig k = 53) by (apply dig_unique; [lia|exact H]).
  unfold canon, canon_m, canon_e. rewrite D. simpl. rewrite Z.mul_1_r. reflexivity.
Qed.

(** The integer part of [x], for [k <= x < k + 1]. *)
Lemma floor_between (m : positive) (e k : Z) :
  valid_binary (S754_finite false m e) = true -> 0 < k -> k + 1 < 2 ^ 53 ->
  SFleb (canon k) (S754_finite false m e) = true ->
  SFltb (S754_finite false m e) (canon (k + 1)) = true ->
  if 0 <=? e then S754_finite false m e = canon k
  else Z.shiftr (Zpos m) (- e) = k.
Proof.
  intros V Hk Hk1 L U. destruct (Z.leb_spec 0 e) as [P|N].
  - pose proof (lt_canon_integer m e (k + 1) V ltac:(lia) P U) as A.
    pose proof (le_canon_integer m e k V ltac:(lia) P L) as B.
    destruct (valid_mantissa _ _ _ V) as [Um Nm]. specialize (Nm ltac:(lia)).
    assert (E0 : e = 0).
    { destruct (Z.eq_dec e 0) as [Q|Q]; [exact Q|].
      assert (2 ^ 1 <= 2 ^ e) by (apply Z.pow_le_mono_r; lia).
      change (2 ^ 53) with (2 ^ 52 * 2 ^ 1) in Hk1. nia. }
    subst e. rewrite Z.pow_0_r, Z.mul_1_r in A, B.
    assert (Em : Zpos m = k) by lia.
    rewrite canon_53 by lia. rewrite <- Em. reflexivity.
  - pose proof (floor_ge k m e ltac:(lia) N V L) as [A _].
    pose proof (lt_canon_fraction m e (k + 1) V ltac:(lia) N U) as B.
    assert (P : 0 < 2 ^ (- e)) by (apply Z.pow_pos_nonneg; lia).
    rewrite Z.shiftr_div_pow2 in * by lia.
    assert (Zpos m / 2 ^ (- e) < k + 1) by (apply Z.div_lt_upper_bound; lia).
    lia.
Qed.

(** The integer part of [x < 1]. *)
Lemma floor_below_one (m : positive) (e : Z) :
  valid_binary (S754_finite false m e) = true ->
  SFltb (S754_finite false m e) (canon 1) = true ->
  e < 0 /\ Z.shiftr (Zpos m) (- e) = 0.
Proof.
  intros V U.
  assert (N : e < 0).
  { destruct (Z_lt_le_dec e 0) as [Q|Q]; [exact Q|].
    pose proof (lt_canon_integer m e 1 V ltac:(lia) Q U) as A.
    assert (0 < 2 ^ e) by (apply Z.pow_pos_nonneg; lia). nia. }
  split; [exact N|].
  pose proof (lt_canon_fraction m e 1 V ltac:(lia) N U) as B.
  rewrite Z.shiftr_div_pow2 by lia. apply Z.div_small. lia.
Qed.

End FloorFacts.

(** [Math.floor] returns the integer [k] with [k <= x < k + 1]. *)
Lemma Math_floor_is (x : number) (k : nat) :
  (Z.of_nat k + 1 < 2 ^ 53)%Z -> floor_is k x ->
  (k = 0%nat /\ (Math_floor x =? 0) = true) \/ ((0 < k)%nat /\ Math_floor x = of_nat k).
Proof.
  intros B [F1 F2]. rewrite leb_spec in F1. rewrite ltb_spec in F2.
  rewrite (of_nat_canon (S k)) in F2 by lia.
  replace (Z.of_nat (S k)) with (Z.of_nat k + 1)%Z in F2 by lia.
  pose proof (Prim2SF_valid x) as V. unfold Math_floor.
  destruct k as [|k'].
  - left. split; [reflexivity|].
    change (Prim2SF (of_nat 0)) with (S754_zero false) in F1. simpl Z.add in F2.
    destruct (Prim2SF x) as [s|[]| |[] m e] eqn:E; try discriminate.
    + rewrite eqb_spec, E. destruct s; reflexivity.
    + destruct (FloorFacts.floor_below_one m e V F2) as [N Q].
      destruct (Z.leb_spec 0 e); [lia|].
      unfold cond_Zopp. rewrite Q. rewrite eqb_spec. reflexivity.
  - right. split; [lia|]. apply Prim2SF_inj.
    rewrite (of_nat_canon (S k')) in * by lia.
    destruct (Prim2SF x) as [s|[]| |[] m e] eqn:E; try discriminate.
    pose proof (FloorFacts.floor_between m e (Z.of_nat (S k')) V ltac:(lia) B F1 F2) as Q.
    destruct (Z.leb_spec 0 e).
    + rewrite E. exact Q.
    + unfold cond_Zopp. rewrite Q.
      rewrite Rounding.binary_normalize_canon by lia.
      apply Prim2SF_SF2Prim, Rounding.canon_valid. lia.
Qed.

Lemma leb_refl_number (a : number) : is_nan a = false -> (a <=? a) = true.
Proof.
  intros N. apply is_nan_spec in N. rewrite leb_spec. unfold SFleb.
  rewrite (SFcompare_refl _ N). reflexivity.
Qed.

(** The order of counters as numbers; the larger one may be at 2^53. *)
Lemma of_nat_le (a b : nat) :
  (a <= b)%nat -> (Z.of_nat a < 2 ^ 53)%Z -> (of_nat a <=? of_nat b) = true.
Proof.
  intros L U.
  destruct (Z_lt_le_dec (Z.of_nat b) (2 ^ 53)) as [Ub|Sb].
  - destruct (Nat.eq_dec a b) as [E|N].
    + subst b. apply leb_refl_number, of_nat_not_nan.
    + apply ltb_leb, of_nat_lt; lia.
  - rewrite leb_spec, (of_nat_spec b), Z.min_r by lia.
    change (binary_normalize prec emax (2 ^ 53) 0 false)
      with (S754_finite false 4503599627370496 1).
    destruct a as [|a]; [reflexivity|].
    rewrite (of_nat_canon (S a)) by lia. apply Rounding.SFleb_finite. left.
    destruct (Rounding.canon_m_spec (Z.of_nat (S a))) as [_ [_ [K1 K2]]]; [lia|].
    unfold IEEE.canon_e. lia.
Qed.

Lemma of_nat_ltb (a b : nat) :
  (Z.of_nat a < 2 ^ 53)%Z -> (Z.of_nat b < 2 ^ 53)%Z ->
  (of_nat a <? of_nat b) = (a <? b)%nat.
Proof.
  intros Ua Ub. destruct (Nat.ltb_spec a b) as [L|G].
  - apply of_nat_lt; assumption.
  - apply leb_ltb_false, of_nat_le; assumption.
Qed.

Lemma of_nat_leb (a b : nat) :
  (Z.of_nat a < 2 ^ 53)%Z -> (Z.of_nat b < 2 ^ 53)%Z ->
  (of_nat a <=? of_nat b) = (a <=? b)%nat.
Proof.
  intros Ua Ub. destruct (Nat.leb_spec a b) as [L|G].
  - apply of_nat_le; assumption.
  - destruct (of_nat a <=? of_nat b) eqn:E; [|reflexivity].
    apply leb_ltb_false in E. rewrite (of_nat_lt b a G Ua) in E. discriminate.
Qed.

Lemma of_nat_sub (n k : nat) :
  (0 < k)%nat -> (k < n)%nat -> (Z.of_nat n < 2 ^ 53)%Z ->
  of_nat n - of_nat k = of_nat (n - k).
Proof.
  intros P L U. apply Prim2SF_inj. rewrite sub_spec.
  rewrite !of_nat_canon by lia. rewrite Nat2Z.inj_sub by lia.
  apply Rounding.SFsub_canon; lia.
Qed.

(** Between 0 and 2^53 the integer part exists and is unique. *)
Lemma ltb_false_leb (a b : number) :
  is_nan a = false -> is_nan b = false -> (a <? b) = false -> (b <=? a) = true.
Proof.
  intros Na Nb. apply is_nan_spec in Na, Nb.
  rewrite ltb_spec, leb_spec. unfold SFltb, SFleb.
  rewrite (SFcompare_antisym (Prim2SF a) (Prim2SF b)).
  destruct (SFcompare (Prim2SF a) (Prim2SF b)) as [[]|] eqn:C; simpl; try congruence.
  destruct (SFcompare_None _ _ C); contradiction.
Qed.

Lemma floor_exists (x : number) (n : nat) :
  (0 <=? x) = true -> (x <? of_nat n) = true ->
  exists k, (k < n)%nat /\ floor_is k x.
Proof.
  intros P. induction n as [|n IH]; intros U.
  - change (of_nat 0) with 0%float in U.
    rewrite (leb_ltb_false _ _ P) in U. discriminate.
  - destruct (x <? of_nat n) eqn:E.
    + destruct (IH eq_refl) as [k [L F]]. exists k. split; [lia|exact F].
    + exists n. split; [lia|]. split; [|exact U].
      apply ltb_false_leb; [| apply of_nat_not_nan | exact E].
      apply is_nan_spec. intros Q. rewrite leb_spec, Q in P. discriminate P.
Qed.

Lemma floor_unique (x : number) (k k' : nat) :
  (Z.of_nat k < 2 ^ 53)%Z -> (Z.of_nat k' < 2 ^ 53)%Z ->
  floor_is k x -> floor_is k' x -> k = k'.
Proof.
  assert (H : forall a b, (Z.of_nat a < 2 ^ 53)%Z -> (Z.of_nat b < 2 ^ 53)%Z ->
              floor_is a x -> floor_is b x -> (a <= b)%nat).
  { intros a b Ua Ub [A1 _] [_ B2].
    pose proof (leb_ltb_trans _ _ _ A1 B2) as Q.
    destruct (Z.eq_dec (Z.of_nat (S b)) (2 ^ 53)) as [S|S]; [lia|].
    rewrite of_nat_ltb in Q by lia. apply Nat.ltb_lt in Q. lia. }
  intros U U' F F'. apply Nat.le_antisymm; apply H; assumption.
Qed.

(** The band tests of the code (lines 126 and 128) are those of the outer
    [k] rows or columns, [k] being floor(n * edgeSampleRatio). *)
Lemma inBand_outer (n k i : nat) (ratio : number) :
  (i < n)%nat -> (Z.of_nat n < 2 ^ 53)%Z -> floor_is k (of_nat n * ratio) ->
  inBand n (edgeBand n ratio) i = outer n k i.
Proof.
  intros L U F. unfold edgeBand. set (x := of_nat n * ratio) in *.
  destruct (le_lt_dec n k) as [G|S].
  - assert (O : outer n k i = true).
    { unfold outer. destruct (Nat.ltb_spec i k); [reflexivity|lia]. }
    rewrite O. unfold inBand. apply orb_true_iff. left.
    destruct F as [F1 _].
    pose proof (leb_trans _ _ _ (of_nat_le n k G U) F1) as Q.
    rewrite leb_spec, (of_nat_canon n) in Q by lia.
    pose proof (Math_floor_ge x (Z.of_nat n) ltac:(lia) Q) as R.
    rewrite <- (of_nat_canon n), <- leb_spec in R by lia.
    exact (ltb_leb_trans _ _ _ (of_nat_lt i n L U) R).
  - destruct (Math_floor_is x k ltac:(lia) F) as [[Z0 E]|[P E]].
    + subst k. rewrite (inBand_zero n _ i L U E). unfold outer.
      rewrite Nat.sub_0_r. destruct (Nat.leb_spec n i); [lia|reflexivity].
    + rewrite E. unfold inBand, outer, geb.
      rewrite (of_nat_sub n k P S U).
      rewrite of_nat_ltb, of_nat_leb by lia. reflexivity.
Qed.

Lemma filter_ext_in_pixels {A : Type} (f g : A -> bool) (l : list A) :
  (forall a, In a l -> f a = g a) -> filter f l = filter g l.
Proof.
  induction l as [|a l IH]; intros H; simpl; [reflexivity|].
  rewrite (H a (or_introl eq_refl)), IH; [reflexivity|].
  intros b I. apply H. right. exact I.
Qed.

Lemma filter_twice {A : Type} (f g : A -> bool) (l : list A) :
  filter g (filter f l) = filter (fun a => f a && g a) l.
Proof.
  induction l as [|a l IH]; simpl; [reflexivity|].
  destruct (f a); simpl; [destruct (g a)|]; rewrite IH; reflexivity.
Qed.

(** The edge pixels of the code are the opaque pixels of the outer rows
    and columns. *)
Lemma edgePixels_outerBand (img : ImageLike) (cfg : Settings) (ky kx : nat) :
  (Z.of_nat (height img) < 2 ^ 53)%Z -> (Z.of_nat (width img) < 2 ^ 53)%Z ->
  floor_is ky (of_nat (height img) * s_edgeSampleRatio cfg) ->
  floor_is kx (of_nat (width img) * s_edgeSampleRatio cfg) ->
  edgePixels img cfg = filter (opaque img cfg) (outerBand img ky kx).
Proof.
  intros Uh Uw Fy Fx. unfold edgePixels, outerBand. rewrite filter_twice.
  apply filter_ext_in_pixels. intros p I. apply in_pixels in I. destruct I as [Iy Ix].
  unfold inEdgeBand, inYBand, inXBand, edgeBandY, edgeBandX.
  rewrite (inBand_outer _ ky _ _ Iy Uh Fy), (inBand_outer _ kx _ _ Ix Uw Fx). reflexivity.
Qed.

(** C2: on a well-formed bitmap whose mean foreground lightness avg
    satisfies 0.42 <= avg <= 0.58, the result is decided by the edge
    pixels: with ky = floor(height * edgeSampleRatio) and
    kx = floor(width * edgeSampleRatio), those in the first or last ky
    rows or in the first or last kx columns (the union of the two bands)
    that have alpha >= alphaThreshold, pure white and pure black
    included.  With no such pixel the tone is dark and the confidence
    0.1; otherwise the confidence is 0.3 and the tone is light when
    their mean lightness edgeAvg > avg, dark otherwise. *)
Theorem ambiguous_band_tiebreak (img : ImageLike) (o : SuggestionOptions) (ky kx : nat) :
  let cfg := destructure o in
  let avg := avgLightness img cfg in
  let s := suggestBackground img o in
  let edge := filter (opaque img cfg) (outerBand img ky kx) in
  well_formed img -> is_nan (s_alphaThreshold cfg) = false ->
  (Z.of_nat (height img) < 2 ^ 53)%Z -> (Z.of_nat (width img) < 2 ^ 53)%Z ->
  floor_is ky (of_nat (height img) * s_edgeSampleRatio cfg) ->
  floor_is kx (of_nat (width img) * s_edgeSampleRatio cfg) ->
  (0.42 <=? avg) = true -> (avg <=? 0.58) = true ->
  foregroundLightness s = avg
  /\ match edge with
     | [] => tone s = dark /\ confidence s = 0.1
     | _ :: _ =>
         tone s = (if gtb (mean (map (lightnessAt img) edge)) avg then light else dark)
         /\ confidence s = 0.3
     end.
Proof.
  intros cfg avg s edge W T Uh Uw Fy Fx L U.
  pose proof (ambiguous_edge_pixels img o W T L U) as H. cbv zeta in H.
  unfold edgeAvg in H.
  rewrite (edgePixels_outerBand img (destructure o) ky kx Uh Uw Fy Fx) in H.
  exact H.
Qed.

Lemma ambiguous_band_tiebreak_witness :
  outerBand dark_centre_3x3 1 1
  = [(0, 0); (0, 1); (0, 2); (1, 0); (1, 2); (2, 0); (2, 1); (2, 2)]%nat
  /\ tone (suggestBackground dark_centre_3x3 no_options) = light
  /\ confidence (suggestBackground dark_centre_3x3 no_options) = 0.3.
Proof.
  split; [reflexivity|].
  destruct (ambiguous_band_tiebreak dark_centre_3x3 no_options 1 1) as [_ H].
  - unfold well_formed. simpl. lia.
  - reflexivity.
  - simpl. lia.
  - simpl. lia.
  - split; vm_compute; reflexivity.
  - split; vm_compute; reflexivity.
  - vm_compute. reflexivity.
  - vm_compute. reflexivity.
  - assert (E : filter (opaque dark_centre_3x3 (destructure no_options))
                  (outerBand dark_centre_3x3 1 1)
                = [(0, 0); (0, 1); (0, 2); (1, 0); (1, 2); (2, 0); (2, 1); (2, 2)]%nat)
      by (vm_compute; reflexivity).
    rewrite E in H. destruct H as [H1 H2]. split; [|exact H2].
    rewrite H1. vm_compute. reflexivity.
Defined.

(** * Further properties of the analyzer *)

(** ** Counters *)

Lemma length_filter_le {A : Type} (f : A -> bool) (l : list A) :
  (length (filter f l) <= length l)%nat.
Proof. induction l as [|a l IH]; simpl; [lia|]. destruct (f a); simpl; lia. Qed.

(** X1: the analyzer never reports more foreground pixels than pixels. *)
Theorem foregroundSampled_le_totalSampled (img : ImageLike) (o : SuggestionOptions) :
  (foregroundSampled (suggestBackground img o)
   <= totalSampled (suggestBackground img o))%nat.
Proof.
  rewrite foregroundSampled_eq, totalSampled_eq, (Nat.mul_comm (width img)),
    <- length_pixels.
  apply length_filter_le.
Qed.

(** ** Bitmaps without pixels *)

(** X2: a bitmap of width 0 or height 0 gets the fallback, with no pixel
    inspected, whatever its buffer holds. *)
Theorem zero_size_fallback (img : ImageLike) (o : SuggestionOptions) :
  width img = 0%nat \/ height img = 0%nat ->
  suggestBackground img o
  = {| tone := dark; confidence := 0; foregroundLightness := 0;
       foregroundSampled := 0; totalSampled := 0 |}.
Proof.
  intros Z. unfold suggestBackground.
  destruct (pass1_counted img (destructure o)) as [C _].
  unfold counted in C. rewrite (pixels_nil img Z) in C. simpl in C. rewrite C. simpl.
  f_equal. destruct Z as [E|E]; rewrite E; lia.
Qed.

Lemma zero_size_fallback_witness :
  suggestBackground {| width := 0; height := 7; data := rgba 1 2 3 4 |} no_options
  = {| tone := dark; confidence := 0; foregroundLightness := 0;
       foregroundSampled := 0; totalSampled := 0 |}.
Proof. apply zero_size_fallback. left. reflexivity. Defined.

(** ** What the result depends on *)

Lemma fold_left_ext_in {A B : Type} (f g : A -> B -> A) (l : list B) :
  (forall a b, In b l -> f a b = g a b) ->
  forall a, fold_left f l a = fold_left g l a.
Proof.
  induction l as [|b l IH]; intros H a; simpl; [reflexivity|].
  rewrite (H a b (or_introl eq_refl)). apply IH.
  intros a' b' I. apply H. right. exact I.
Qed.

Lemma pass1_same_visible (cfg : Settings) (img img' : ImageLike) :
  same_visible cfg img img' -> pass1 img cfg = pass1 img' cfg.
Proof.
  destruct img as [w h d], img' as [w' h' d']. intros [Ew [Eh V]]. simpl in Ew, Eh. subst w' h'.
  unfold pass1. rewrite !for_loop_nested. cbn [width height].
  apply fold_left_ext_in. intros st [y x] I.
  specialize (V (y, x) I). destruct V as [Va Vc].
  unfold kept, alpha, red, green, blue, index in Va, Vc. cbn [fst snd width data] in Va, Vc.
  unfold pass1_body. cbn [fst snd width data]. cbv zeta.
  rewrite <- Va.
  destruct (read d ((y * w + x) * 4 + 3) <? s_alphaThreshold cfg) eqn:A; [reflexivity|].
  destruct (Vc eq_refl) as [Er [Eg Eb]].
  rewrite <- Er, <- Eg, <- Eb. reflexivity.
Qed.

Lemma pass2_same_visible (cfg : Settings) (img img' : ImageLike) :
  same_visible cfg img img' -> pass2 img cfg = pass2 img' cfg.
Proof.
  destruct img as [w h d], img' as [w' h' d']. intros [Ew [Eh V]]. simpl in Ew, Eh. subst w' h'.
  unfold pass2. rewrite !for_loop_nested. cbn [width height].
  apply fold_left_ext_in. intros st [y x] I.
  specialize (V (y, x) I). destruct V as [Va Vc].
  unfold kept, alpha, red, green, blue, index in Va, Vc. cbn [fst snd width data] in Va, Vc.
  unfold pass2_body, inYBand, inXBand, edgeBandX, edgeBandY. cbn [fst snd width height data].
  cbv zeta. rewrite <- Va.
  destruct (negb (inBand _ _ _ || _)); [reflexivity|].
  destruct (read d ((y * w + x) * 4 + 3) <? s_alphaThreshold cfg) eqn:A; [reflexivity|].
  destruct (Vc eq_refl) as [Er [Eg Eb]].
  rewrite <- Er, <- Eg, <- Eb. reflexivity.
Qed.

(** X3: the analyzer sees a pixel through its alpha and, when the alpha test
    keeps it, its colour: the colour stored in a pixel the test drops has
    no effect on the result. *)
Theorem dropped_pixels_colour_irrelevant (img img' : ImageLike) (o : SuggestionOptions) :
  same_visible (destructure o) img img' ->
  suggestBackground img o = suggestBackground img' o.
Proof.
  intros V. unfold suggestBackground, decide.
  rewrite (pass1_same_visible _ _ _ V), (pass2_same_visible _ _ _ V).
  destruct V as [Ew [Eh _]]. rewrite Ew, Eh. reflexivity.
Qed.

Lemma dropped_pixels_colour_irrelevant_witness :
  suggestBackground
    {| width := 2; height := 1; data := rgba 9 200 33 0 ++ rgba 10 10 10 255 |} no_options
  = suggestBackground
      {| width := 2; height := 1; data := rgba 0 0 0 0 ++ rgba 10 10 10 255 |} no_options.
Proof.
  apply dropped_pixels_colour_irrelevant.
  split; [reflexivity|]. split; [reflexivity|].
  intros p I. simpl in I.
  destruct I as [E|[E|[]]]; subst p; vm_compute; split;
    solve [reflexivity | discriminate | intros _; repeat split; reflexivity].
Defined.

Lemma read_firstn (d : list byte) (n i : nat) :
  (i < n)%nat -> read (firstn n d) i = read d i.
Proof.
  intros H. unfold read. rewrite nth_error_firstn.
  destruct (Nat.ltb_spec i n); [reflexivity|lia].
Qed.

Lemma index_in_range (img : ImageLike) (p : nat * nat) (k : nat) :
  In p (pixels img) -> (k < 4)%nat -> (index img p + k < width img * height img * 4)%nat.
Proof.
  intros I K. apply in_pixels in I. destruct I as [Iy Ix]. unfold index. nia.
Qed.

(** X4: the analyzer reads the first [width * height * 4] bytes of the buffer
    and no other: what follows them has no effect on the result. *)
Theorem trailing_bytes_ignored (img : ImageLike) (o : SuggestionOptions) :
  suggestBackground img o = suggestBackground (truncated img) o.
Proof.
  assert (V : same_visible (destructure o) img (truncated img)).
  { split; [reflexivity|]. split; [reflexivity|].
    intros p I.
    unfold alpha, red, green, blue, truncated, index. cbn [width height data].
    pose proof (index_in_range img p 0 I) as R0.
    pose proof (index_in_range img p 1 I) as R1.
    pose proof (index_in_range img p 2 I) as R2.
    pose proof (index_in_range img p 3 I) as R3.
    unfold index in R0, R1, R2, R3. rewrite Nat.add_0_r in R0.
    rewrite !read_firstn by lia. auto. }
  unfold suggestBackground, decide.
  rewrite (pass1_same_visible _ _ _ V), (pass2_same_visible _ _ _ V). reflexivity.
Qed.

(** ** The alpha threshold at its ends *)

Lemma of_byte_range (b : byte) :
  (0 <=? of_byte b) = true /\ (of_byte b <=? 255) = true.
Proof. destruct b; split; vm_compute; reflexivity. Qed.

(** A channel read from the buffer, in range or not, is never below 0. *)
Lemma read_ltb_nonpos (d : list byte) (i : nat) (t : number) :
  (0 <? t) = false -> (read d i <? t) = false.
Proof.
  intros T. unfold read. destruct (nth_error d i) as [b|].
  - destruct (of_byte b <? t) eqn:E; [|reflexivity].
    rewrite (leb_ltb_trans 0 (of_byte b) t (proj1 (of_byte_range b)) E) in T. discriminate.
  - rewrite ltb_spec. reflexivity.
Qed.

(** X5: with an alphaThreshold that is 0, negative or NaN the alpha test keeps
    every pixel: when neither exclusion is on, every pixel is counted. *)
Theorem threshold_at_most_zero (img : ImageLike) (o : SuggestionOptions) :
  (0 <? s_alphaThreshold (destructure o)) = false ->
  s_ignorePureWhite (destructure o) = false ->
  s_ignorePureBlack (destructure o) = false ->
  counted img (destructure o) = pixels img
  /\ foregroundSampled (suggestBackground img o) = (width img * height img)%nat
  /\ foregroundSampled (suggestBackground img o)
     = totalSampled (suggestBackground img o).
Proof.
  intros T W B.
  assert (C : counted img (destructure o) = pixels img).
  { unfold counted. apply filter_keeps_all. intros p _.
    unfold kept, excluded, alpha. rewrite (read_ltb_nonpos _ _ _ T), W, B. reflexivity. }
  rewrite foregroundSampled_eq, totalSampled_eq, C, length_pixels.
  rewrite (Nat.mul_comm (height img)). auto.
Qed.

Lemma threshold_at_most_zero_witness :
  foregroundSampled
    (suggestBackground half_transparent (options_of (Some 0) false false None))
  = 4%nat.
Proof.
  apply (threshold_at_most_zero half_transparent (options_of (Some 0) false false None));
    reflexivity.
Defined.

(** X6: with an alphaThreshold above 255 the alpha test drops every pixel of a
    well-formed bitmap: the result is the fallback. *)
Theorem threshold_above_255 (img : ImageLike) (o : SuggestionOptions) :
  well_formed img -> (255 <? s_alphaThreshold (destructure o)) = true ->
  suggestBackground img o = fallback img.
Proof.
  intros W T. unfold suggestBackground.
  destruct (pass1_counted img (destructure o)) as [C _].
  rewrite (counted_nil img (destructure o)) in C; [rewrite C; reflexivity|].
  intros p I. left.
  destruct (read_in_range img p 3 W I) as [b E]; [lia|].
  unfold alpha. rewrite E.
  exact (leb_ltb_trans _ _ _ (proj2 (of_byte_range b)) T).
Qed.

Lemma threshold_above_255_witness :
  suggestBackground light_logo (options_of (Some 256) false false None)
  = fallback light_logo.
Proof.
  apply threshold_above_255; [unfold well_formed; simpl; lia|reflexivity].
Defined.

(** ** Stricter options *)

Lemma length_filter_mono {A : Type} (f g : A -> bool) (l : list A) :
  (forall a, In a l -> f a = true -> g a = true) ->
  (length (filter f l) <= length (filter g l))%nat.
Proof.
  induction l as [|a l IH]; intros H; simpl; [lia|].
  assert (IH' : (length (filter f l) <= length (filter g l))%nat).
  { apply IH. intros b I. apply H. right. exact I. }
  pose proof (H a (or_introl eq_refl)) as Ha.
  destruct (f a); [rewrite (Ha eq_refl); simpl; lia|].
  destruct (g a); simpl; lia.
Qed.

(** X7: raising [alphaThreshold] or turning on an exclusion never counts
    more foreground pixels. *)
Theorem stricter_options_count_less (img : ImageLike) (o o' : SuggestionOptions) :
  (s_alphaThreshold (destructure o) <=? s_alphaThreshold (destructure o')) = true ->
  (s_ignorePureWhite (destructure o) = true ->
   s_ignorePureWhite (destructure o') = true) ->
  (s_ignorePureBlack (destructure o) = true ->
   s_ignorePureBlack (destructure o') = true) ->
  (foregroundSampled (suggestBackground img o')
   <= foregroundSampled (suggestBackground img o))%nat.
Proof.
  intros T W B. rewrite !foregroundSampled_eq. unfold counted.
  apply length_filter_mono. intros p _ K.
  apply andb_true_iff in K. destruct K as [K E]. apply andb_true_iff. split.
  - unfold kept in *. apply negb_true_iff in K. apply negb_true_iff.
    destruct (alpha img p <? s_alphaThreshold (destructure o)) eqn:A; [|reflexivity].
    rewrite (ltb_leb_trans _ _ _ A T) in K. discriminate.
  - apply negb_true_iff in E. apply negb_true_iff.
    unfold excluded in *. apply orb_false_iff in E. destruct E as [E1 E2].
    apply orb_false_iff. split.
    + destruct (s_ignorePureWhite (destructure o)); [rewrite (W eq_refl) in E1; exact E1|].
      reflexivity.
    + destruct (s_ignorePureBlack (destructure o)); [rewrite (B eq_refl) in E2; exact E2|].
      reflexivity.
Qed.

Lemma stricter_options_count_less_witness :
  (foregroundSampled
     (suggestBackground half_transparent (options_of (Some 251%float) true true None))
   <= foregroundSampled (suggestBackground half_transparent no_options))%nat.
Proof.
  apply stricter_options_count_less; [reflexivity|reflexivity|discriminate].
Defined.

(** ** A buffer that is too short *)

Lemma add_nan_r (x : number) : x + nan = nan.
Proof.
  apply Prim2SF_inj. rewrite add_spec. change (Prim2SF nan) with S754_nan.
  destruct (Prim2SF x) as [[]|[]| |[] m e]; reflexivity.
Qed.

Lemma add_nan_l (x : number) : nan + x = nan.
Proof.
  apply Prim2SF_inj. rewrite add_spec. change (Prim2SF nan) with S754_nan. reflexivity.
Qed.

Lemma mul_nan_r (x : number) : x * nan = nan.
Proof.
  apply Prim2SF_inj. rewrite mul_spec. change (Prim2SF nan) with S754_nan.
  destruct (Prim2SF x) as [[]|[]| |[] m e]; reflexivity.
Qed.

Lemma div_nan_l (x : number) : nan / x = nan.
Proof.
  apply Prim2SF_inj. rewrite div_spec. change (Prim2SF nan) with S754_nan. reflexivity.
Qed.

Lemma ltb_nan_l (x : number) : (nan <? x) = false.
Proof. rewrite ltb_spec. reflexivity. Qed.

Lemma eqb_nan_l (x : number) : (nan =? x) = false.
Proof. rewrite eqb_spec. reflexivity. Qed.

(** A pixel with a missing blue channel has no lightness. *)
Lemma perceivedLightness_nan (r g : number) : perceivedLightness r g nan = nan.
Proof.
  unfold perceivedLightness. rewrite mul_nan_r, add_nan_r.
  change (sqrt nan) with nan. apply div_nan_l.
Qed.

Lemma fold_add_nan (l : list number) : fold_left add l nan = nan.
Proof. induction l as [|v l IH]; simpl; [reflexivity|]. rewrite add_nan_l. exact IH. Qed.

Lemma sum_nan (l : list number) (acc : number) : In nan l -> fold_left add l acc = nan.
Proof.
  revert acc. induction l as [|v l IH]; intros acc I; [contradiction|]. simpl.
  destruct I as [E|I]; [subst v; rewrite add_nan_r; apply fold_add_nan|apply IH, I].
Qed.

Lemma read_past_end (d : list byte) (i : nat) : (length d <= i)%nat -> read d i = nan.
Proof.
  intros H. unfold read. apply nth_error_None in H. rewrite H. reflexivity.
Qed.

(** X8: the analyzer does not check the length of the buffer.  When the buffer
    ends before the blue channel of the last pixel, that pixel is read as
    [undefined]: it passes the alpha test and both exclusions, its
    lightness is NaN and so is the mean; no comparison with NaN holds, so
    the tone is dark, with the confidence of the ambiguous band. *)
Theorem short_buffer_nan (img : ImageLike) (o : SuggestionOptions) :
  (length (data img) + 2 <= width img * height img * 4)%nat ->
  let s := suggestBackground img o in
  foregroundLightness s = nan /\ foregroundSampled s <> 0%nat
  /\ tone s = dark /\ (confidence s = 0.3 \/ confidence s = 0.1).
Proof.
  intros L. set (cfg := destructure o).
  set (p := (Nat.pred (height img), Nat.pred (width img))).
  assert (P : (0 < width img)%nat /\ (0 < height img)%nat) by nia.
  assert (I : In p (pixels img)).
  { apply in_pixels. unfold p. simpl. lia. }
  assert (Ib : (length (data img) <= index img p + 2)%nat).
  { unfold index, p. simpl. nia. }
  assert (B : blue img p = nan) by (apply read_past_end; exact Ib).
  assert (A : alpha img p = nan) by (apply read_past_end; lia).
  assert (K : kept img cfg p && negb (excluded img cfg p) = true).
  { unfold kept, excluded, isPureWhite, isPureBlack. rewrite A, B, ltb_nan_l, !eqb_nan_l.
    rewrite !andb_false_r. reflexivity. }
  assert (C : In p (counted img cfg)).
  { unfold counted. apply filter_In. split; [exact I|exact K]. }
  assert (N : counted img cfg <> []) by (intros E; rewrite E in C; exact C).
  assert (M : mean (map (lightnessAt img) (counted img cfg)) = nan).
  { unfold mean, sum. rewrite sum_nan; [apply div_nan_l|].
    apply in_map_iff. exists p. split; [|exact C].
    unfold lightnessAt. rewrite B. apply perceivedLightness_nan. }
  cbv zeta. rewrite (suggestBackground_counted img o N). cbv zeta. fold cfg. rewrite M.
  cbn [foregroundLightness foregroundSampled tone confidence].
  split; [reflexivity|]. split.
  { intros E. apply length_zero_iff_nil in E. contradiction. }
  unfold decide. change (gtb nan 0.58) with false. change (nan <? 0.42) with false.
  cbv iota. cbv zeta.
  destruct (0 <? edgeOpaque (pass2 img cfg))%nat.
  - unfold gtb. rewrite ltb_nan_l. split; [reflexivity|left; reflexivity].
  - split; [reflexivity|right; reflexivity].
Qed.

Lemma short_buffer_nan_witness :
  let s := suggestBackground
             {| width := 2; height := 1; data := rgba 10 10 10 255 ++ [u8 10; u8 10] |}
             no_options in
  foregroundLightness s = nan /\ foregroundSampled s <> 0%nat
  /\ tone s = dark /\ (confidence s = 0.3 \/ confidence s = 0.1).
Proof. apply short_buffer_nan. simpl. lia. Defined.

(** ** The edge sample ratio *)

Lemma counted_set_ratio (img : ImageLike) (o : SuggestionOptions) (r : option number) :
  counted img (destructure (set_ratio o r)) = counted img (destructure o).
Proof. reflexivity. Qed.

(** X9: [edgeSampleRatio] only serves the edge pass: it never changes the
    foreground lightness nor the counters, and it changes nothing at all
    when the foreground is empty or its mean lightness is above 0.58 or
    below 0.42. *)
Theorem edgeSampleRatio_only_midtone
    (img : ImageLike) (o : SuggestionOptions) (r : option number) :
  let s := suggestBackground img o in
  let s' := suggestBackground img (set_ratio o r) in
  foregroundLightness s' = foregroundLightness s
  /\ foregroundSampled s' = foregroundSampled s
  /\ totalSampled s' = totalSampled s
  /\ (foregroundSampled s = 0%nat -> s' = s)
  /\ (gtb (foregroundLightness s) 0.58 || (foregroundLightness s <? 0.42) = true -> s' = s).
Proof.
  cbv zeta. unfold suggestBackground.
  destruct (pass1_counted img (destructure o)) as [C A].
  destruct (pass1_counted img (destructure (set_ratio o r))) as [C' A'].
  rewrite counted_set_ratio in C', A'. rewrite C, A, C', A'.
  destruct (length (counted img (destructure o)) =? 0)%nat eqn:E.
  - repeat split; reflexivity.
  - set (avg := sum (map (lightnessAt img) (counted img (destructure o)))
                / of_nat (length (counted img (destructure o)))).
    unfold decide.
    destruct (gtb avg 0.58) eqn:G; [repeat split; reflexivity|].
    destruct (avg <? 0.42) eqn:L; [repeat split; reflexivity|].
    destruct (0 <? edgeOpaque (pass2 img (destructure o)))%nat,
             (0 <? edgeOpaque (pass2 img (destructure (set_ratio o r))))%nat;
      cbn [foregroundLightness foregroundSampled totalSampled];
      (split; [reflexivity|]); (split; [reflexivity|]); (split; [reflexivity|]);
      (split; [intros Z; apply Nat.eqb_neq in E; contradiction|]);
      rewrite G, L; discriminate.
Qed.

Lemma edgeSampleRatio_only_midtone_witness :
  suggestBackground dark_logo (set_ratio no_options (Some 0.9))
  = suggestBackground dark_logo no_options.
Proof.
  destruct (edgeSampleRatio_only_midtone dark_logo no_options (Some 0.9))
    as [_ [_ [_ [_ H]]]].
  apply H. reflexivity.
Defined.

(** ** The tone and the foreground lightness *)

(** X10: a light background is suggested only for a foreground that was
    sampled and is not light (mean lightness at most 0.58), and a dark one
    only if the foreground is empty, its lightness is NaN, or it is not
    dark (mean lightness at least 0.42). *)
Theorem tone_follows_lightness (img : ImageLike) (o : SuggestionOptions) :
  let s := suggestBackground img o in
  (tone s = light ->
   foregroundSampled s <> 0%nat /\ (foregroundLightness s <=? 0.58) = true)
  /\ (tone s = dark ->
      foregroundSampled s = 0%nat \/ is_nan (foregroundLightness s) = true
      \/ (0.42 <=? foregroundLightness s) = true).
Proof.
  cbv zeta. unfold suggestBackground.
  destruct (fgCount (pass1 img (destructure o)) =? 0)%nat eqn:E.
  { cbn [tone foregroundSampled]. split; [discriminate|auto]. }
  apply Nat.eqb_neq in E.
  set (avg := accumLightness (pass1 img (destructure o))
              / of_nat (fgCount (pass1 img (destructure o)))).
  unfold decide.
  destruct (gtb avg 0.58) eqn:G.
  { cbn [tone foregroundSampled foregroundLightness]. split; [discriminate|].
    intros _. right. right. unfold gtb in G.
    apply (leb_trans 0.42 0.58 avg); [reflexivity|apply ltb_leb, G]. }
  destruct (avg <? 0.42) eqn:L.
  { cbn [tone foregroundSampled foregroundLightness]. split; [|discriminate].
    intros _. split; [exact E|].
    apply (leb_trans avg 0.42 0.58); [apply ltb_leb, L|reflexivity]. }
  assert (N : is_nan avg = false -> (avg <=? 0.58) = true /\ (0.42 <=? avg) = true).
  { intros Na. split.
    - change (avg <=? 0.58) with (geb 0.58 avg).
      rewrite (geb_negb_ltb 0.58 avg eq_refl Na). unfold gtb in G. rewrite G. reflexivity.
    - change (0.42 <=? avg) with (geb avg 0.42).
      rewrite (geb_negb_ltb avg 0.42 Na eq_refl), L. reflexivity. }
  destruct (0 <? edgeOpaque (pass2 img (destructure o)))%nat.
  - cbn [tone foregroundSampled foregroundLightness].
    destruct (gtb _ avg) eqn:T; split; try discriminate; intros _.
    + split; [exact E|]. unfold gtb in T. apply ltb_not_nan in T. apply N, T.
    + destruct (is_nan avg) eqn:Na; [auto|]. right. right. apply N. reflexivity.
  - cbn [tone foregroundSampled foregroundLightness]. split; [discriminate|]. intros _.
    destruct (is_nan avg) eqn:Na; [auto|]. right. right. apply N. reflexivity.
Qed.

Lemma tone_follows_lightness_witness :
  foregroundSampled (suggestBackground dark_logo no_options) <> 0%nat
  /\ (foregroundLightness (suggestBackground dark_logo no_options) <=? 0.58) = true.
Proof.
  destruct (tone_follows_lightness dark_logo no_options) as [H _].
  apply H. reflexivity.
Defined.

(** ** The mean of numbers between 0 and 1

    A running sum of [n] numbers of [0,1] stays at most [n], and its
    quotient by [n] at most 1: rounding keeps a sum below an integer it
    can represent, and a quotient of [x < y] below 1. *)

Module Bounds.

Import IEEE Rounding.
Local Open Scope Z_scope.

Lemma canon_aligned (z e : Z) :
  0 < z < 2 ^ 53 -> e <= canon_e z ->
  Zpos (canon_m z) * 2 ^ (canon_e z - e) = z * 2 ^ (- e).
Proof.
  intros Hz He. destruct (canon_m_spec z Hz) as [M [_ [K1 K2]]].
  unfold canon_e in *. rewrite M, <- Z.mul_assoc, <- Z.pow_add_r by lia.
  f_equal. f_equal. lia.
Qed.

Lemma canon_m_bounds (z : Z) :
  0 < z < 2 ^ 53 -> 2 ^ 52 <= Zpos (canon_m z) < 2 ^ 53.
Proof.
  intros Hz. destruct (canon_m_spec z Hz) as [_ [D _]].
  destruct (dig_bounds (Zpos (canon_m z))) as [[B1 B2] _]; [lia|].
  rewrite D in B1, B2. simpl in B1. lia.
Qed.

Lemma canon_e_bounds (z : Z) : 0 < z < 2 ^ 53 -> -52 <= canon_e z <= 0.
Proof.
  intros Hz. destruct (canon_m_spec z Hz) as [_ [_ [K1 K2]]]. unfold canon_e. lia.
Qed.

(** A number at most [k], written with the exponent [ez]. *)
Lemma le_canon_aligned (m : positive) (e k ez : Z) :
  valid_binary (S754_finite false m e) = true -> 0 < k < 2 ^ 53 ->
  SFleb (S754_finite false m e) (canon k) = true -> ez <= e ->
  e <= canon_e k /\ Zpos m * 2 ^ (e - ez) <= k * 2 ^ (- ez).
Proof.
  intros V Hk L Hez.
  assert (Le : e <= canon_e k) by (apply SFleb_exp in L; lia).
  split; [exact Le|].
  pose proof (aligned_le (canon_m k) m (canon_e k) e (canon_valid k Hk) V L) as A.
  replace (Z.min (canon_e k) e) with e in A by lia.
  rewrite Z.sub_diag, Z.pow_0_r, Z.mul_1_r in A.
  rewrite <- (canon_aligned k ez Hk) by lia.
  replace (canon_e k - ez) with ((canon_e k - e) + (e - ez)) by lia.
  rewrite Z.pow_add_r by lia.
  assert (0 < 2 ^ (e - ez)) by (apply Z.pow_pos_nonneg; lia). nia.
Qed.

Lemma SFleb_zero_finite (s : bool) (m : positive) (e : Z) :
  SFleb (S754_zero s) (S754_finite false m e) = true.
Proof. reflexivity. Qed.

Lemma SFleb_refl (x : spec_float) : x <> S754_nan -> SFleb x x = true.
Proof. intros H. unfold SFleb. rewrite (SFcompare_refl x H). reflexivity. Qed.

(** [x + v <= k + 1] for [0 <= x <= k] and [0 <= v <= 1]. *)
Lemma SFadd_le_canon (x v : spec_float) (k : Z) :
  valid_binary x = true -> valid_binary v = true -> SFnonneg x -> SFnonneg v ->
  0 < k -> k + 1 < 2 ^ 53 ->
  SFleb x (canon k) = true -> SFleb v (canon 1) = true ->
  SFleb (SFadd prec emax x v) (canon (k + 1)) = true.
Proof.
  intros Vx Vv Nx Nv Hk Hk1 Lx Lv.
  assert (K1 : SFleb (canon 1) (canon (k + 1)) = true) by (apply canon_le; lia).
  assert (K2 : SFleb (canon k) (canon (k + 1)) = true) by (apply canon_le; lia).
  destruct x as [sx|sx| |sx mx ex], v as [sv|sv| |sv mv ev];
    try destruct sx; try destruct sv; try contradiction; try discriminate;
    try (apply SFleb_zero_finite);
    try (exact (SFleb_trans _ _ _ Lv K1)); try (exact (SFleb_trans _ _ _ Lx K2)).
  set (ez := Z.min ex ev).
  destruct (valid_finite _ _ _ Vx) as [Bx _]. destruct (valid_finite _ _ _ Vv) as [Bv _].
  destruct (le_canon_aligned mx ex k ez Vx) as [Ex Ax]; [lia|exact Lx|unfold ez; lia|].
  destruct (le_canon_aligned mv ev 1 ez Vv) as [Ev Av]; [lia|exact Lv|unfold ez; lia|].
  destruct (canon_e_bounds k) as [_ Ck]; [lia|].
  destruct (canon_e_bounds (k + 1)) as [_ Ck1]; [lia|].
  assert (Mono : canon_e k <= canon_e (k + 1)).
  { unfold canon_e. pose proof (dig_mono k (k + 1)). lia. }
  unfold SFadd, cond_Zopp. fold ez.
  destruct (shl_align_spec mx ex ez) as [_ Sx].
  destruct (shl_align_spec mv ev ez) as [_ Sv].
  replace (Z.min ex ez) with ez in Sx by (unfold ez; lia).
  replace (Z.min ev ez) with ez in Sv by (unfold ez; lia).
  set (D := Zpos (fst (shl_align mx ex ez)) + Zpos (fst (shl_align mv ev ez))).
  assert (HD : 0 < D <= (k + 1) * 2 ^ (- ez)) by (unfold D; lia).
  assert (Hez : -1074 <= ez <= 0) by (unfold ez; lia).
  destruct (Z_lt_le_dec D ((k + 1) * 2 ^ (- ez))) as [Lt|Ge].
  - apply binary_normalize_le; try lia.
    + apply canon_m_bounds. lia.
    + rewrite canon_aligned by lia. exact Lt.
  - assert (E : D = (k + 1) * 2 ^ (- ez)) by lia.
    rewrite E. unfold binary_normalize.
    assert (P : 0 < (k + 1) * 2 ^ (- ez)) by lia.
    destruct ((k + 1) * 2 ^ (- ez)) as [|p|p] eqn:EP; try lia.
    replace p with (Z.to_pos ((k + 1) * 2 ^ (- ez))) by (rewrite EP; reflexivity).
    replace ez with (- (- ez)) at 2 by lia.
    rewrite binary_round_int by lia. apply SFleb_refl. discriminate.
Qed.

(** Small integers keep their exponent. *)
Lemma shr_fexp_small (m e : Z) (l : location) :
  0 <= m <= 1 -> -1074 <= e ->
  shr_fexp prec emax m e l = (shr_record_of_loc m l, e).
Proof.
  intros Hm He. unfold shr_fexp. rewrite fexp_eq.
  assert (D : 0 <= Zdigits2 m <= 1).
  { assert (C : m = 0 \/ m = 1) by lia. destruct C; subst m; simpl; lia. }
  unfold shr. destruct (Z.max (Zdigits2 m + e - 53) (-1074) - e) eqn:E; try reflexivity. lia.
Qed.

(** A quotient that rounds from 0 is 0 or the least positive number. *)
Lemma binary_round_aux_zero (e : Z) (l : location) :
  -1074 <= e <= -53 ->
  SFleb (binary_round_aux prec emax false 0 e l)
        (S754_finite false 4503599627370496 (-52)) = true.
Proof.
  intros He. unfold binary_round_aux. rewrite shr_fexp_small by lia.
  assert (R : round_nearest_even (shr_m (shr_record_of_loc 0 l))
                (loc_of_shr_record (shr_record_of_loc 0 l)) = 0
              \/ round_nearest_even (shr_m (shr_record_of_loc 0 l))
                   (loc_of_shr_record (shr_record_of_loc 0 l)) = 1).
  { destruct l as [|[]]; simpl; auto. }
  destruct R as [R|R]; rewrite R; rewrite shr_fexp_small by lia; simpl.
  - reflexivity.
  - destruct (Z.leb_spec e 971); [|lia].
    apply SFleb_finite. left. lia.
Qed.

(** [x / y <= 1] for [0 < x < y], [y] a normal number below 2^53. *)
Lemma SFdiv_lt_le_one (md mc : positive) (ed ec : Z) :
  valid_binary (S754_finite false md ed) = true ->
  valid_binary (S754_finite false mc ec) = true ->
  2 ^ 52 <= Zpos mc -> ec <= 0 ->
  SFcompare (S754_finite false md ed) (S754_finite false mc ec) = Some Lt ->
  SFleb (SFdiv prec emax (S754_finite false md ed) (S754_finite false mc ec))
        (S754_finite false 4503599627370496 (-52)) = true.
Proof.
  intros Vd Vc Nc Hec C.
  destruct (SFdiv_finite md mc ed ec) as [l E]. rewrite E. clear E.
  destruct (valid_finite _ _ _ Vd) as [Hed [Dd _]].
  destruct (valid_mantissa _ _ _ Vc) as [Uc _].
  pose proof (aligned_lt mc md ec ed Vc Vd C) as A.
  assert (Le : ed <= ec).
  { simpl in C. destruct (Z.compare_spec ed ec); try discriminate; lia. }
  replace (Z.min ec ed) with ed in A by lia.
  rewrite Z.sub_diag, Z.pow_0_r, Z.mul_1_r in A.
  assert (D53 : 53 <= dig (Zpos mc)).
  { destruct (dig_bounds (Zpos mc)) as [[C1 C2] C3]; [lia|].
    destruct (Z_le_gt_dec 53 (dig (Zpos mc))) as [L|G]; [exact L|].
    assert (2 ^ dig (Zpos mc) <= 2 ^ 52) by (apply Z.pow_le_mono_r; lia). lia. }
  assert (He : -1074 <= div_exp md mc ed ec <= -53).
  { unfold div_exp. rewrite fexp_eq. lia. }
  set (e' := div_exp md mc ed ec) in *.
  assert (Hs : 0 <= ed - ec - e') by (unfold e', div_exp; lia).
  assert (P2 : 0 < 2 ^ (ed - ec - e')) by (apply Z.pow_pos_nonneg; lia).
  assert (Hlt : div_quo md mc ed ec < 2 ^ (- e')).
  { unfold div_quo. fold e'. apply Z.div_lt_upper_bound; [lia|].
    replace (- e') with ((ed - ec - e') + (ec - ed)) by lia.
    rewrite Z.pow_add_r by lia. nia. }
  assert (Hq : 0 <= div_quo md mc ed ec).
  { unfold div_quo. fold e'. apply Z.div_pos; lia. }
  destruct (Z.eq_dec (div_quo md mc ed ec) 0) as [Z0|NZ].
  - rewrite Z0. apply binary_round_aux_zero. lia.
  - destruct (binary_round_aux_le (div_quo md mc ed ec) e' l 4503599627370496 (-52))
      as [m' [e'' [E R]]]; try lia.
    + replace (-52 - e') with (- e' - 52) by lia.
      change (Zpos 4503599627370496) with (2 ^ 52).
      rewrite <- Z.pow_add_r by lia. replace (52 + (- e' - 52)) with (- e') by lia. exact Hlt.
    + rewrite E. apply SFleb_finite. exact R.
Qed.

(** [x / n <= 1] for [0 <= x <= n]. *)
Lemma SFdiv_le_canon (x : spec_float) (n : Z) :
  valid_binary x = true -> SFnonneg x -> 0 < n < 2 ^ 53 ->
  SFleb x (canon n) = true ->
  SFleb (SFdiv prec emax x (canon n)) (S754_finite false 4503599627370496 (-52)) = true.
Proof.
  intros V N Hn L.
  destruct x as [sx|sx| |sx m e]; try destruct sx; try contradiction; try discriminate;
    try reflexivity.
  unfold SFleb in L.
  destruct (SFcompare (S754_finite false m e) (canon n)) as [[]|] eqn:C; try discriminate.
  - unfold canon in C. simpl in C. rewrite pos_cmp_cont in C.
    destruct (Z.compare_spec e (canon_e n)); try discriminate.
    destruct (Pos.compare_spec m (canon_m n)); try discriminate. subst.
    fold (canon n). unfold canon. rewrite SFdiv_self by (apply (canon_valid n Hn)).
    reflexivity.
  - apply SFdiv_lt_le_one; try assumption.
    + apply (canon_valid n Hn).
    + apply canon_m_bounds. exact Hn.
    + apply canon_e_bounds. exact Hn.
Qed.

End Bounds.

Lemma of_nat_zero : Prim2SF (of_nat 0) = S754_zero false.
Proof. reflexivity. Qed.

Lemma one_canon : Prim2SF 1 = IEEE.canon 1.
Proof. reflexivity. Qed.

Lemma add_le_of_nat (acc v : number) (k : nat) :
  (0 <=? acc) = true -> (acc <=? of_nat k) = true -> in_unit v = true ->
  (Z.of_nat (S k) < 2 ^ 53)%Z ->
  (acc + v <=? of_nat (S k)) = true.
Proof.
  intros A0 Ak U B. apply andb_true_iff in U. destruct U as [V0 V1].
  rewrite leb_spec in *. rewrite add_spec.
  change (Prim2SF 0) with (S754_zero false) in *. rewrite one_canon in V1.
  apply Rounding.SFnonneg_leb in A0, V0.
  pose proof (Prim2SF_valid acc) as Va. pose proof (Prim2SF_valid v) as Vv.
  rewrite (of_nat_canon (S k)) by lia.
  destruct k as [|k].
  - rewrite of_nat_zero in Ak.
    destruct (Prim2SF acc) as [sx|sx| |sx mx ex], (Prim2SF v) as [sv|sv| |sv mv ev];
      try destruct sx; try destruct sv; try contradiction; try discriminate;
      try reflexivity; exact V1.
  - rewrite (of_nat_canon (S k)) in Ak by lia.
    replace (Z.of_nat (S (S k))) with (Z.of_nat (S k) + 1)%Z by lia.
    apply Bounds.SFadd_le_canon; try assumption; lia.
Qed.

Lemma sum_le_length (l : list number) (acc : number) (k : nat) :
  (forall v, In v l -> in_unit v = true) ->
  (Z.of_nat (k + length l) < 2 ^ 53)%Z ->
  (0 <=? acc) = true -> (acc <=? of_nat k) = true ->
  (fold_left add l acc <=? of_nat (k + length l)) = true.
Proof.
  revert acc k. induction l as [|v l IH]; intros acc k U B A0 Ak; simpl.
  - rewrite Nat.add_0_r. exact Ak.
  - simpl in B. replace (k + S (length l))%nat with (S k + length l)%nat in * by lia.
    pose proof (U v (or_introl eq_refl)) as Uv.
    apply IH.
    + intros w I. apply U. right. exact I.
    + exact B.
    + apply add_nonneg; [exact A0|]. apply andb_true_iff in Uv. apply Uv.
    + apply add_le_of_nat; try assumption. lia.
Qed.

Lemma div_le_one (a : number) (n : nat) :
  (0 <=? a) = true -> (a <=? of_nat n) = true ->
  (0 < n)%nat -> (Z.of_nat n < 2 ^ 53)%Z ->
  (a / of_nat n <=? 1) = true.
Proof.
  intros A0 An P B. rewrite leb_spec in *. rewrite div_spec.
  change (Prim2SF 0) with (S754_zero false) in *. apply Rounding.SFnonneg_leb in A0.
  rewrite (of_nat_canon n) in * by lia.
  apply Bounds.SFdiv_le_canon; try assumption; [apply Prim2SF_valid|lia].
Qed.

(** The mean of numbers of [0,1] is in [0,1]. *)
Lemma mean_in_unit (l : list number) :
  (forall v, In v l -> in_unit v = true) -> l <> [] ->
  (Z.of_nat (length l) < 2 ^ 53)%Z ->
  in_unit (mean l) = true.
Proof.
  intros U N B. unfold mean, sum, in_unit.
  assert (P : (0 < length l)%nat) by (destruct l; [contradiction|simpl; lia]).
  assert (S0 : (0 <=? fold_left add l 0) = true).
  { apply sum_from_nonneg; [reflexivity|].
    intros v I. pose proof (U v I) as Uv. apply andb_true_iff in Uv. apply Uv. }
  apply andb_true_iff. split.
  - apply div_of_nat_nonneg; assumption.
  - apply div_le_one; try assumption.
    apply (sum_le_length l 0 0 U); [exact B|reflexivity|reflexivity].
Qed.

(** ** The foreground lightness *)

(** X11: on a well-formed bitmap the foreground lightness reported is a number
    of [0,1]: 0 in the fallback, and otherwise the mean of lightnesses
    that are in [0,1], which rounding keeps there. *)
Theorem foregroundLightness_in_unit (img : ImageLike) (o : SuggestionOptions) :
  well_formed img -> (Z.of_nat (width img * height img) < 2 ^ 53)%Z ->
  in_unit (foregroundLightness (suggestBackground img o)) = true.
Proof.
  intros W B. set (cfg := destructure o).
  destruct (counted img cfg) as [|p l] eqn:E.
  - unfold suggestBackground. fold cfg.
    destruct (pass1_counted img cfg) as [C _]. rewrite E in C. rewrite C. reflexivity.
  - assert (N : counted img cfg <> []) by (rewrite E; discriminate).
    rewrite (suggestBackground_counted img o N). cbv zeta. fold cfg.
    cbn [foregroundLightness].
    apply mean_in_unit.
    + intros v I. apply in_map_iff in I. destruct I as [q [Eq I]]. subst v.
      apply lightnessAt_in_unit; [exact W|].
      unfold counted in I. apply filter_In in I. apply I.
    + intros M. apply map_eq_nil in M. contradiction.
    + rewrite length_map.
      pose proof (length_filter_le
                    (fun p => kept img cfg p && negb (excluded img cfg p)) (pixels img)) as F.
      rewrite length_pixels in F. unfold counted. lia.
Qed.

Lemma foregroundLightness_in_unit_witness :
  in_unit (foregroundLightness (suggestBackground dark_centre_3x3 no_options)) = true.
Proof.
  apply foregroundLightness_in_unit; [unfold well_formed; simpl; lia|simpl; lia].
Defined.

(** ** The perceived lightness over the channels *)

Lemma nth_byte_numbers (b : byte) : nth (level b) byte_numbers nan = of_byte b.
Proof. destruct b; reflexivity. Qed.

Lemma level_lt (b : byte) : (level b < 256)%nat.
Proof. destruct b; vm_compute; lia. Qed.

Lemma nondecreasing_head (a : number) (l : list number) :
  nondecreasing (a :: l) = true -> forall x, In x l -> (a <=? x) = true.
Proof.
  revert a. induction l as [|b l IH]; intros a H x I; [contradiction|].
  simpl in H. apply andb_true_iff in H. destruct H as [H1 H2].
  destruct I as [E|I]; [subst x; exact H1|].
  apply (leb_trans a b x H1). apply IH; assumption.
Qed.

Lemma nondecreasing_tail (a : number) (l : list number) :
  nondecreasing (a :: l) = true -> nondecreasing l = true.
Proof.
  destruct l as [|b l]; [reflexivity|]. simpl. intros H.
  apply andb_true_iff in H. apply H.
Qed.

Lemma nondecreasing_nth (l : list number) (i j : nat) :
  nondecreasing l = true -> (i < j)%nat -> (j < length l)%nat ->
  (nth i l nan <=? nth j l nan) = true.
Proof.
  revert i j. induction l as [|a l IH]; intros i j H L B; [simpl in B; lia|].
  destruct j as [|j]; [lia|]. simpl in B. destruct i as [|i].
  - simpl. apply (nondecreasing_head a l H). apply nth_In. lia.
  - simpl. apply IH; [apply (nondecreasing_tail a l H)|lia|lia].
Qed.

(** The three tables: the lightness along one channel, for every value of
    the other two. *)
Lemma lightness_along_red :
  forallb (fun g =>
    forallb (fun b =>
      nondecreasing (map (fun r => perceivedLightness r g b) byte_numbers))
      byte_numbers)
    byte_numbers = true.
Proof. vm_compute. reflexivity. Qed.

Lemma lightness_along_green :
  forallb (fun r =>
    forallb (fun b =>
      nondecreasing (map (fun g => perceivedLightness r g b) byte_numbers))
      byte_numbers)
    byte_numbers = true.
Proof. vm_compute. reflexivity. Qed.

Lemma lightness_along_blue :
  forallb (fun r =>
    forallb (fun g =>
      nondecreasing (map (fun b => perceivedLightness r g b) byte_numbers))
      byte_numbers)
    byte_numbers = true.
Proof. vm_compute. reflexivity. Qed.

Lemma table_at (f : number -> number -> list number) (x y : byte) :
  forallb (fun a => forallb (fun b => nondecreasing (f a b)) byte_numbers) byte_numbers
  = true ->
  nondecreasing (f (of_byte x) (of_byte y)) = true.
Proof.
  intros T. rewrite forallb_forall in T. specialize (T _ (of_byte_in x)).
  rewrite forallb_forall in T. exact (T _ (of_byte_in y)).
Qed.

Lemma leb_refl_unit (x : number) : in_unit x = true -> (x <=? x) = true.
Proof.
  intros U. apply andb_true_iff in U. destruct U as [U _].
  destruct (leb_not_nan _ _ U) as [_ N]. apply is_nan_spec in N.
  rewrite leb_spec. unfold SFleb. rewrite (SFcompare_refl _ N). reflexivity.
Qed.

Lemma along_channel (f : number -> number) (x x' : byte) :
  nondecreasing (map f byte_numbers) = true ->
  in_unit (f (of_byte x)) = true ->
  (level x <= level x')%nat ->
  (f (of_byte x) <=? f (of_byte x')) = true.
Proof.
  intros T U L.
  destruct (Nat.eq_dec (level x) (level x')) as [E|NE].
  - assert (Ex : of_byte x = of_byte x').
    { rewrite <- (nth_byte_numbers x), <- (nth_byte_numbers x'), E. reflexivity. }
    rewrite <- Ex. apply leb_refl_unit, U.
  - pose proof (nondecreasing_nth (map f byte_numbers) (level x) (level x') T) as N.
    rewrite length_map in N. change (length byte_numbers) with 256%nat in N.
    specialize (N ltac:(lia) (level_lt x')).
    rewrite <- (nth_byte_numbers x), <- (nth_byte_numbers x').
    (* the default of [nth] is never reached *)
    rewrite (nth_indep (map f byte_numbers) nan (f nan)) in N
      by (rewrite length_map; apply level_lt).
    rewrite (nth_indep (map f byte_numbers) nan (f nan) (n := level x')) in N
      by (rewrite length_map; apply level_lt).
    rewrite !map_nth in N. exact N.
Qed.

Lemma lightness_red (r r' g b : byte) :
  (level r <= level r')%nat ->
  (perceivedLightness (of_byte r) (of_byte g) (of_byte b)
   <=? perceivedLightness (of_byte r') (of_byte g) (of_byte b)) = true.
Proof.
  intros L.
  apply (along_channel (fun r => perceivedLightness r (of_byte g) (of_byte b)) r r');
    [|apply perceivedLightness_in_unit|exact L].
  apply (table_at (fun g b => map (fun r => perceivedLightness r g b) byte_numbers)),
    lightness_along_red.
Qed.

Lemma lightness_green (r g g' b : byte) :
  (level g <= level g')%nat ->
  (perceivedLightness (of_byte r) (of_byte g) (of_byte b)
   <=? perceivedLightness (of_byte r) (of_byte g') (of_byte b)) = true.
Proof.
  intros L.
  apply (along_channel (fun g => perceivedLightness (of_byte r) g (of_byte b)) g g');
    [|apply perceivedLightness_in_unit|exact L].
  apply (table_at (fun r b => map (fun g => perceivedLightness r g b) byte_numbers)),
    lightness_along_green.
Qed.

Lemma lightness_blue (r g b b' : byte) :
  (level b <= level b')%nat ->
  (perceivedLightness (of_byte r) (of_byte g) (of_byte b)
   <=? perceivedLightness (of_byte r) (of_byte g) (of_byte b')) = true.
Proof.
  intros L.
  apply (along_channel (fun b => perceivedLightness (of_byte r) (of_byte g) b) b b');
    [|apply perceivedLightness_in_unit|exact L].
  apply (table_at (fun r g => map (fun b => perceivedLightness r g b) byte_numbers)),
    lightness_along_blue.
Qed.

(** X12: a pixel with no channel below that of another is perceived at least
    as light. *)
Theorem perceivedLightness_monotone (r g b r' g' b' : byte) :
  (level r <= level r')%nat -> (level g <= level g')%nat -> (level b <= level b')%nat ->
  (perceivedLightness (of_byte r) (of_byte g) (of_byte b)
   <=? perceivedLightness (of_byte r') (of_byte g') (of_byte b')) = true.
Proof.
  intros Lr Lg Lb.
  apply (leb_trans _ (perceivedLightness (of_byte r') (of_byte g) (of_byte b)));
    [apply lightness_red, Lr|].
  apply (leb_trans _ (perceivedLightness (of_byte r') (of_byte g') (of_byte b)));
    [apply lightness_green, Lg|apply lightness_blue, Lb].
Qed.

Lemma perceivedLightness_monotone_witness :
  (perceivedLightness (of_byte (u8 10)) (of_byte (u8 20)) (of_byte (u8 30))
   <=? perceivedLightness (of_byte (u8 10)) (of_byte (u8 21)) (of_byte (u8 200))) = true.
Proof. apply perceivedLightness_monotone; vm_compute; lia. Defined.

(** *** The ends of the scale *)

Lemma ltb_irrefl (a : number) : (a <? a) = false.
Proof.
  destruct (a <? a) eqn:E; [|reflexivity].
  pose proof (leb_ltb_false a a (ltb_leb a a E)) as F. congruence.
Qed.

Lemma level_zero (b : byte) : level b = 0%nat -> b = x00.
Proof. destruct b; vm_compute; intros H; solve [reflexivity | discriminate H]. Qed.

Lemma level_max (b : byte) : level b = 255%nat -> b = xff.
Proof. destruct b; vm_compute; intros H; solve [reflexivity | discriminate H]. Qed.

Lemma level_values :
  level x00 = 0%nat /\ level (u8 1) = 1%nat /\ level (u8 254) = 254%nat
  /\ level xff = 255%nat.
Proof. repeat split. Qed.

Ltac levels :=
  destruct level_values as [L0 [L1 [L254 L255]]];
  rewrite ?L0, ?L1, ?L254, ?L255; lia.

(** X13: black is the only colour of lightness 0 and white the only one of
    lightness 1. *)
Theorem perceivedLightness_extremes (r g b : byte) :
  let l := perceivedLightness (of_byte r) (of_byte g) (of_byte b) in
  (l = 0 <-> r = x00 /\ g = x00 /\ b = x00)
  /\ (l = 1 <-> r = xff /\ g = xff /\ b = xff).
Proof.
  cbv zeta. split; split.
  - intros E.
    assert (P : forall r' g' b' : byte,
               (level r' <= level r)%nat -> (level g' <= level g)%nat ->
               (level b' <= level b)%nat ->
               (0 <? perceivedLightness (of_byte r') (of_byte g') (of_byte b')) = true ->
               False).
    { intros r' g' b' Lr Lg Lb Z.
      pose proof (leb_trans _ _ _ (lightness_red r' r g' b' Lr)
                    (leb_trans _ _ _ (lightness_green r g' g b' Lg)
                       (lightness_blue r g b' b Lb))) as M.
      rewrite E in M. pose proof (ltb_leb_trans _ _ _ Z M) as F.
      rewrite ltb_irrefl in F. discriminate. }
    destruct (Nat.eq_dec (level r) 0) as [Zr|Nr];
      [|exfalso; apply (P (u8 1) x00 x00); solve [levels | reflexivity]].
    destruct (Nat.eq_dec (level g) 0) as [Zg|Ng];
      [|exfalso; apply (P x00 (u8 1) x00); solve [levels | reflexivity]].
    destruct (Nat.eq_dec (level b) 0) as [Zb|Nb];
      [|exfalso; apply (P x00 x00 (u8 1)); solve [levels | reflexivity]].
    auto using level_zero.
  - intros [-> [-> ->]]. reflexivity.
  - intros E.
    assert (P : forall r' g' b' : byte,
               (level r <= level r')%nat -> (level g <= level g')%nat ->
               (level b <= level b')%nat ->
               (perceivedLightness (of_byte r') (of_byte g') (of_byte b') <? 1) = true ->
               False).
    { intros r' g' b' Lr Lg Lb Z.
      pose proof (leb_trans _ _ _ (lightness_red r r' g b Lr)
                    (leb_trans _ _ _ (lightness_green r' g g' b Lg)
                       (lightness_blue r' g' b b' Lb))) as M.
      rewrite E in M. pose proof (leb_ltb_trans _ _ _ M Z) as F.
      rewrite ltb_irrefl in F. discriminate. }
    pose proof (level_lt r) as Br. pose proof (level_lt g) as Bg.
    pose proof (level_lt b) as Bb.
    destruct (Nat.eq_dec (level r) 255) as [Zr|Nr];
      [|exfalso; apply (P (u8 254) xff xff); solve [levels | reflexivity]].
    destruct (Nat.eq_dec (level g) 255) as [Zg|Ng];
      [|exfalso; apply (P xff (u8 254) xff); solve [levels | reflexivity]].
    destruct (Nat.eq_dec (level b) 255) as [Zb|Nb];
      [|exfalso; apply (P xff xff (u8 254)); solve [levels | reflexivity]].
    auto using level_max.
  - intros [-> [-> ->]]. reflexivity.
Qed.

(** * The helpers *)

(** ** The colour chosen from a suggestion *)

Lemma confidence_range (img : ImageLike) (o : SuggestionOptions) :
  (0 <=? confidence (suggestBackground img o)) = true
  /\ (confidence (suggestBackground img o) <=? 1) = true.
Proof.
  unfold suggestBackground.
  destruct (fgCount (pass1 img (destructure o)) =? 0)%nat; [split; reflexivity|].
  pose proof (decide_clamp img (destructure o)
                (accumLightness (pass1 img (destructure o))
                 / of_nat (fgCount (pass1 img (destructure o))))) as D.
  destruct (decide _ _ _) as [t c]. simpl in *. destruct D as [D1 D2].
  split; [apply ltb_leb; exact D1|exact D2].
Qed.

(** X14: with a [minConfidenceForUse] of 0 (the default) or below, the colour
    follows the tone for every bitmap: [fallbackColor] is never used. *)
Theorem fallback_unused_at_zero (img : ImageLike) (o : SuggestionOptions)
    (m : number) (lightColor darkColor : JSString.string)
    (fallbackColor : option JSString.string) :
  (m <=? 0) = true ->
  decided (suggestBackground img o) m lightColor darkColor fallbackColor
  = match tone (suggestBackground img o) with dark => darkColor | light => lightColor end.
Proof.
  intros M. unfold decided, geb.
  rewrite (leb_trans m 0 _ M (proj1 (confidence_range img o))). reflexivity.
Qed.

Lemma fallback_unused_at_zero_witness :
  decided (suggestBackground dark_logo no_options) 0
    (JSString.of_ascii "#FFFFFF") (JSString.of_ascii "#111111")
    (Some (JSString.of_ascii "#808080"))
  = JSString.of_ascii "#FFFFFF".
Proof.
  rewrite fallback_unused_at_zero by reflexivity. rewrite test_dark_logo. reflexivity.
Defined.

(** X15: with a [minConfidenceForUse] that is above 1 or NaN the colour never
    follows the tone: it is [fallbackColor], or [lightColor] without one. *)
Theorem fallback_always_above_one (img : ImageLike) (o : SuggestionOptions)
    (m : number) (lightColor darkColor : JSString.string)
    (fallbackColor : option JSString.string) :
  (m <=? 1) = false ->
  decided (suggestBackground img o) m lightColor darkColor fallbackColor
  = match fallbackColor with Some c => c | None => lightColor end.
Proof.
  intros M. unfold decided, geb.
  destruct (m <=? confidence (suggestBackground img o)) eqn:E; [|reflexivity].
  rewrite (leb_trans m _ 1 E (proj2 (confidence_range img o))) in M. discriminate.
Qed.

Lemma fallback_always_above_one_witness :
  decided (suggestBackground dark_logo no_options) nan
    (JSString.of_ascii "#FFFFFF") (JSString.of_ascii "#111111") None
  = JSString.of_ascii "#FFFFFF"
  /\ decided (suggestBackground light_logo (with_flags false false)) 1.5
       (JSString.of_ascii "#FFFFFF") (JSString.of_ascii "#111111")
       (Some (JSString.of_ascii "#808080"))
     = JSString.of_ascii "#808080".
Proof.
  split; rewrite fallback_always_above_one by reflexivity; reflexivity.
Defined.

(** X16: a bitmap with no foreground has confidence 0: any positive
    [minConfidenceForUse] gives it the fallback colour, and one of 0 or
    below the dark colour. *)
Theorem no_foreground_colour (img : ImageLike) (o : SuggestionOptions)
    (m : number) (lightColor darkColor : JSString.string)
    (fallbackColor : option JSString.string) :
  foregroundSampled (suggestBackground img o) = 0%nat ->
  ((0 <? m) = true ->
   decided (suggestBackground img o) m lightColor darkColor fallbackColor
   = match fallbackColor with Some c => c | None => lightColor end)
  /\ ((m <=? 0) = true ->
      decided (suggestBackground img o) m lightColor darkColor fallbackColor = darkColor).
Proof.
  intros F. rewrite foregroundSampled_eq in F.
  assert (E : suggestBackground img o = fallback img).
  { unfold suggestBackground. destruct (pass1_counted img (destructure o)) as [C _].
    rewrite F in C. rewrite C. reflexivity. }
  rewrite E. unfold decided, geb, fallback. cbn [confidence tone]. split; intros M.
  - destruct (m <=? 0) eqn:L; [|reflexivity].
    rewrite (leb_ltb_false m 0 L) in M. discriminate.
  - rewrite M. reflexivity.
Qed.

Lemma no_foreground_colour_witness :
  decided (suggestBackground all_white_2x2 no_options) 0.05
    (JSString.of_ascii "#FFFFFF") (JSString.of_ascii "#111111")
    (Some (JSString.of_ascii "#808080"))
  = JSString.of_ascii "#808080".
Proof.
  apply (no_foreground_colour all_white_2x2 no_options 0.05); reflexivity.
Defined.

(** X17: a mid-tone foreground (mean lightness in [0.42, 0.58]) has confidence
    0.3 or 0.1: a [minConfidenceForUse] above 0.3 gives it the fallback
    colour whatever the edge pass finds. *)
Theorem mid_tone_colour (img : ImageLike) (o : SuggestionOptions)
    (m : number) (lightColor darkColor : JSString.string)
    (fallbackColor : option JSString.string) :
  (0.42 <=? foregroundLightness (suggestBackground img o)) = true ->
  (foregroundLightness (suggestBackground img o) <=? 0.58) = true ->
  (0.3 <? m) = true ->
  decided (suggestBackground img o) m lightColor darkColor fallbackColor
  = match fallbackColor with Some c => c | None => lightColor end.
Proof.
  unfold suggestBackground.
  destruct (fgCount (pass1 img (destructure o)) =? 0)%nat; [discriminate|].
  set (avg := accumLightness (pass1 img (destructure o))
              / of_nat (fgCount (pass1 img (destructure o)))).
  destruct (decide img (destructure o) avg) as [t c] eqn:D.
  cbn [foregroundLightness]. intros L U M.
  rewrite (decide_ambiguous img (destructure o) avg L U) in D.
  assert (C : c = 0.3 \/ c = 0.1).
  { destruct (0 <? edgeOpaque (pass2 img (destructure o)))%nat;
      inversion D; auto. }
  unfold decided, geb. cbn [confidence].
  assert (F : (m <=? clamp c) = false).
  { destruct (m <=? clamp c) eqn:E; [|reflexivity].
    assert (E3 : (m <=? 0.3) = true).
    { destruct C as [C|C]; subst c.
      - exact E.
      - apply (leb_trans m (clamp 0.1) 0.3 E). reflexivity. }
    rewrite (leb_ltb_false m 0.3 E3) in M. discriminate. }
  rewrite F. reflexivity.
Qed.

Lemma mid_tone_colour_witness :
  decided (suggestBackground grey_3x3 no_options) 0.5
    (JSString.of_ascii "#FFFFFF") (JSString.of_ascii "#111111") None
  = JSString.of_ascii "#FFFFFF".
Proof.
  apply (mid_tone_colour grey_3x3 no_options 0.5); reflexivity.
Defined.

(** ** From a symbol to a colour *)

Section NodeProperties.

Variable fetch : JSString.string -> Promise Response.
Variable pngjs : Promise (list byte -> Promise ImageLike).

(** A suggestion a helper resolves with is the analyzer's, for the
    bitmap the decoder returned. *)
Lemma suggestBackgroundFromPNG_resolved (buffer : list byte)
    (options : option SuggestionOptions) (s : BackgroundSuggestion) :
  suggestBackgroundFromPNG pngjs buffer options = resolved s ->
  exists img, s = suggestBackground img
                    (match options with Some o => o | None => no_options end).
Proof.
  unfold suggestBackgroundFromPNG, and_then.
  destruct pngjs as [read|e]; [|discriminate].
  destruct (read buffer) as [png|e]; [|discriminate].
  intros H. inversion H. eexists. reflexivity.
Qed.

Lemma suggestFmpSymbolBackground_resolved (symbol : JSString.string)
    (options : option FmpOptions) (s : BackgroundSuggestion) :
  suggestFmpSymbolBackground fetch pngjs symbol options = resolved s ->
  exists img, s = suggestBackground img
                    (match options with
                     | Some o => suggestion_options o
                     | None => no_options
                     end).
Proof.
  unfold suggestFmpSymbolBackground, and_then.
  destruct (fmpSymbolUrl symbol) as [url|e]; [|discriminate].
  destruct (fetch url) as [resp|e]; [|discriminate].
  destruct (negb (ok resp)); [discriminate|].
  destruct (arrayBuffer resp) as [buf|e]; [|discriminate].
  intros H. apply suggestBackgroundFromPNG_resolved in H.
  destruct H as [img H]. exists img. destruct options; exact H.
Qed.

(** X18: a suggestion [suggestFmpSymbolBackground] resolves with keeps the
    invariants of the analyzer, whatever the PNG decoder returned: a
    confidence in [0,1] that is 0 exactly when no foreground pixel was
    counted, and no more foreground pixels than pixels. *)
Theorem fmp_suggestion_invariants (symbol : JSString.string)
    (options : option FmpOptions) (s : BackgroundSuggestion) :
  suggestFmpSymbolBackground fetch pngjs symbol options = resolved s ->
  in_unit (confidence s) = true
  /\ (foregroundSampled s <= totalSampled s)%nat
  /\ (foregroundSampled s = 0%nat <-> confidence s = 0).
Proof.
  intros H. apply suggestFmpSymbolBackground_resolved in H. destruct H as [img H].
  set (o := match options with Some o => suggestion_options o | None => no_options end) in H.
  subst s. destruct (confidence_range img o) as [C0 C1].
  split; [unfold in_unit; rewrite C0, C1; reflexivity|]. split.
  - rewrite foregroundSampled_eq, totalSampled_eq, (Nat.mul_comm (width img)),
      <- length_pixels.
    apply length_filter_le.
  - unfold suggestBackground.
    destruct (fgCount (pass1 img (destructure o)) =? 0)%nat eqn:E.
    + cbn [foregroundSampled confidence]. split; reflexivity.
    + apply Nat.eqb_neq in E.
      pose proof (decide_clamp img (destructure o)
                    (accumLightness (pass1 img (destructure o))
                     / of_nat (fgCount (pass1 img (destructure o))))) as P.
      destruct (decide _ _ _) as [t c]. cbn [foregroundSampled confidence snd] in *.
      destruct P as [P _]. split; [intros Z; contradiction|].
      intros Z. rewrite Z in P. discriminate P.
Qed.

(** X19: called without a config, [chooseFmpSymbolBackgroundColor] resolves
    with #111111 when the tone is dark and with #FFFFFF when it is light,
    whatever the logo; the suggestion beside it is the analyzer's, under
    the default options, with a confidence in [0,1]. *)
Theorem chooseFmpSymbolBackgroundColor_default
    (symbol : JSString.string) (r : ColorChoice) :
  chooseFmpSymbolBackgroundColor fetch pngjs symbol None = resolved r ->
  color r = match tone (suggestion r) with
            | dark => JSString.of_ascii "#111111"
            | light => JSString.of_ascii "#FFFFFF"
            end
  /\ (exists img, suggestion r = suggestBackground img no_options)
  /\ in_unit (confidence (suggestion r)) = true.
Proof.
  unfold chooseFmpSymbolBackgroundColor. cbv zeta. unfold and_then at 1.
  destruct (suggestFmpSymbolBackground fetch pngjs symbol _) as [s|e] eqn:E;
    [|discriminate].
  intros H. inversion H. subst r. clear H. cbn [color suggestion].
  apply suggestFmpSymbolBackground_resolved in E. destruct E as [img E].
  cbn [suggestion_options rest_options no_config] in E. subst s.
  destruct (confidence_range img no_options) as [C0 C1].
  split; [|split].
  - unfold decided, geb. cbn [config_minConfidenceForUse no_config].
    rewrite C0. reflexivity.
  - exists img. reflexivity.
  - unfold in_unit. rewrite C0, C1. reflexivity.
Qed.

End NodeProperties.

Lemma fmp_suggestion_invariants_witness :
  in_unit (confidence (suggestBackground half_transparent no_options)) = true
  /\ (foregroundSampled (suggestBackground half_transparent no_options)
      <= totalSampled (suggestBackground half_transparent no_options))%nat
  /\ (foregroundSampled (suggestBackground half_transparent no_options) = 0%nat
      <-> confidence (suggestBackground half_transparent no_options) = 0).
Proof.
  apply (fmp_suggestion_invariants (fetch_ok []) (pngjs_decoding half_transparent)
           (JSString.of_ascii "AMZN") None).
  reflexivity.
Defined.

Lemma chooseFmpSymbolBackgroundColor_default_witness :
  exists r,
    chooseFmpSymbolBackgroundColor (fetch_ok []) (pngjs_decoding dark_logo)
      (JSString.of_ascii "BRK-A") None = resolved r
    /\ tone (suggestion r) = light /\ color r = JSString.of_ascii "#FFFFFF".
Proof.
  eexists. split; [vm_compute; reflexivity|]. split; [reflexivity|].
  match goal with
  | |- color ?r = _ =>
      destruct (chooseFmpSymbolBackgroundColor_default
                  (fetch_ok []) (pngjs_decoding dark_logo) (JSString.of_ascii "BRK-A") r)
        as [C _]; [vm_compute; reflexivity|rewrite C; reflexivity]
  end.
Defined.

(** ** The logo URL *)

Module URLFacts.

Import JSString.
Local Open Scope N_scope.

Ltac nlia := zify; Z.to_euclidean_division_equations; lia.

Ltac to_prop :=
  repeat first
    [ rewrite orb_true_iff in * | rewrite andb_true_iff in *
    | rewrite N.leb_le in * | rewrite N.eqb_eq in * | rewrite N.ltb_lt in * ].

Lemma unreserved_marks : of_ascii "-_.!~*'()" = [45; 95; 46; 33; 126; 42; 39; 40; 41].
Proof. reflexivity. Qed.

Lemma isUnreserved_spec (c : N) :
  isUnreserved c = true <->
  (0x41 <= c <= 0x5A) \/ (0x61 <= c <= 0x7A) \/ (0x30 <= c <= 0x39)
  \/ c = 45 \/ c = 95 \/ c = 46 \/ c = 33 \/ c = 126 \/ c = 42 \/ c = 39
  \/ c = 40 \/ c = 41.
Proof.
  unfold isUnreserved. rewrite unreserved_marks. cbn [existsb]. to_prop. lia.
Qed.

Lemma isWhiteSpace_spec (c : N) :
  isWhiteSpace c = true <->
  (0x09 <= c <= 0x0D) \/ c = 0x20 \/ c = 0xA0 \/ c = 0x1680
  \/ (0x2000 <= c <= 0x200A) \/ c = 0x2028 \/ c = 0x2029 \/ c = 0x202F
  \/ c = 0x205F \/ c = 0x3000 \/ c = 0xFEFF.
Proof. unfold isWhiteSpace. to_prop. lia. Qed.

Lemma unreserved_not_space (c : N) : isUnreserved c = true -> isWhiteSpace c = false.
Proof.
  intros U. destruct (isWhiteSpace c) eqn:W; [|reflexivity].
  apply isUnreserved_spec in U. apply isWhiteSpace_spec in W. lia.
Qed.

Lemma unreserved_ascii (c : N) : isUnreserved c = true -> c < 0x80 /\ c <> 0x25.
Proof. intros U. apply isUnreserved_spec in U. lia. Qed.

Lemma hexDigit_unreserved (n : N) : n < 16 -> isUnreserved (hexDigit n) = true.
Proof.
  intros H. apply isUnreserved_spec. unfold hexDigit.
  destruct (N.ltb_spec n 10); lia.
Qed.

Lemma escape_slug (o : N) : o < 256 -> Forall (fun c => isSlugChar c = true) (escape o).
Proof.
  intros H. unfold escape, isSlugChar. repeat constructor.
  - rewrite (hexDigit_unreserved (o / 16)) by nlia. reflexivity.
  - rewrite (hexDigit_unreserved (o mod 16)) by nlia. reflexivity.
Qed.

Lemma utf8_octets (cp : N) : cp < 0x110000 -> Forall (fun o => o < 256) (utf8 cp).
Proof.
  intros H. unfold utf8.
  destruct (N.ltb_spec cp 0x80); [repeat constructor; lia|].
  destruct (N.ltb_spec cp 0x800); [repeat constructor; nlia|].
  destruct (N.ltb_spec cp 0x10000); repeat constructor; nlia.
Qed.

Lemma escaped_slug (cp : N) :
  cp < 0x110000 -> Forall (fun c => isSlugChar c = true) (flat_map escape (utf8 cp)).
Proof.
  intros H. pose proof (utf8_octets cp H) as O.
  induction O as [|o l Ho _ IH]; cbn [flat_map]; [constructor|].
  apply Forall_app. split; [apply escape_slug, Ho|exact IH].
Qed.

Lemma codePoint_range (c d : N) :
  isLeadSurrogate c = true -> isTrailSurrogate d = true ->
  0x10000 <= codePoint c d < 0x110000.
Proof. unfold isLeadSurrogate, isTrailSurrogate, codePoint. to_prop. lia. Qed.

(** An induction that follows [encodeURIComponent]: one code unit at a
    time, or two for a surrogate pair. *)
Lemma string_ind2 (P : string -> Prop) :
  P [] -> (forall c, P [c]) ->
  (forall c t, P t -> (forall d t', t = d :: t' -> P t') -> P (c :: t)) ->
  forall s, P s.
Proof.
  intros H0 H1 H2 s.
  assert (G : P s /\ (forall d t', s = d :: t' -> P t')).
  { induction s as [|c t IH].
    - split; [exact H0|discriminate].
    - destruct IH as [IH1 IH2]. split.
      + apply H2; assumption.
      + intros d t' E. inversion E. subst. exact IH1. }
  apply G.
Qed.

(** The slug is made of unreserved characters and [%]. *)
Lemma encodeURIComponent_slug (s e : string) :
  code_units s -> encodeURIComponent s = Some e ->
  Forall (fun c => isSlugChar c = true) e.
Proof.
  revert e. induction s as [|c|c t IH1 IH2] using string_ind2; intros e V E.
  - inversion E. constructor.
  - simpl in E. inversion V as [|? ? Vc _]; subst.
    destruct (isUnreserved c) eqn:U.
    + inversion E. repeat constructor. unfold isSlugChar. rewrite U. reflexivity.
    + destruct (isTrailSurrogate c); [discriminate|].
      destruct (isLeadSurrogate c); [discriminate|].
      inversion E. rewrite app_nil_r. apply escaped_slug. lia.
  - inversion V as [|? ? Vc Vt]; subst. cbn [encodeURIComponent] in E.
    destruct (isUnreserved c) eqn:U.
    + destruct (encodeURIComponent t) as [e'|] eqn:Et; [|discriminate].
      inversion E. constructor; [unfold isSlugChar; rewrite U; reflexivity|].
      apply IH1; [exact Vt|first [exact Et|reflexivity]].
    + destruct (isTrailSurrogate c); [discriminate|].
      destruct (isLeadSurrogate c) eqn:Lc.
      * destruct t as [|d t']; [discriminate|].
        destruct (isTrailSurrogate d) eqn:Td; [|discriminate].
        destruct (encodeURIComponent t') as [e'|] eqn:Et; [|discriminate].
        inversion E. apply Forall_app. split.
        -- apply escaped_slug. apply (codePoint_range c d Lc Td).
        -- apply (IH2 d t' eq_refl); [|exact Et].
           inversion Vt; assumption.
      * destruct (encodeURIComponent t) as [e'|] eqn:Et; [|discriminate].
        inversion E. apply Forall_app. split.
        -- apply escaped_slug. lia.
        -- apply IH1; [exact Vt|first [exact Et|reflexivity]].
Qed.

(** [encodeURIComponent] leaves a string of unreserved characters as it is. *)
Lemma encodeURIComponent_unreserved (s : string) :
  Forall (fun c => isUnreserved c = true) s -> encodeURIComponent s = Some s.
Proof.
  induction 1 as [|c t U _ IH]; [reflexivity|]. simpl. rewrite U, IH. reflexivity.
Qed.

(** [encodeURIComponent] throws on the strings that are not well formed. *)
Lemma encodeURIComponent_None (s : string) :
  encodeURIComponent s = None <-> isWellFormed s = false.
Proof.
  induction s as [|c|c t IH1 IH2] using string_ind2.
  - simpl. split; discriminate.
  - simpl. destruct (isUnreserved c) eqn:U.
    + apply unreserved_ascii in U. unfold isLeadSurrogate, isTrailSurrogate.
      destruct (N.leb_spec 0xD800 c); [lia|]. destruct (N.leb_spec 0xDC00 c); [lia|].
      simpl. split; discriminate.
    + destruct (isTrailSurrogate c) eqn:T.
      * unfold isLeadSurrogate, isTrailSurrogate in *. to_prop.
        destruct (N.leb_spec 0xD800 c); [|lia]. destruct (N.leb_spec c 0xDBFF); [lia|].
        simpl. tauto.
      * destruct (isLeadSurrogate c); simpl; split; try discriminate; reflexivity.
  - cbn [encodeURIComponent isWellFormed].
    destruct (isUnreserved c) eqn:U.
    + apply unreserved_ascii in U. unfold isLeadSurrogate, isTrailSurrogate.
      destruct (N.leb_spec 0xD800 c); [lia|]. destruct (N.leb_spec 0xDC00 c); [lia|].
      cbn [andb negb]. rewrite <- IH1.
      destruct (encodeURIComponent t); simpl; split; intros Q;
        solve [discriminate Q | reflexivity].
    + destruct (isTrailSurrogate c) eqn:T.
      * assert (L : isLeadSurrogate c = false).
        { unfold isLeadSurrogate, isTrailSurrogate in *. to_prop.
          destruct (N.leb_spec 0xD800 c); [|lia]. destruct (N.leb_spec c 0xDBFF); [lia|].
          reflexivity. }
        rewrite L. simpl. tauto.
      * destruct (isLeadSurrogate c).
        -- destruct t as [|d t']; [tauto|].
           destruct (isTrailSurrogate d); [|simpl; tauto].
           cbn [andb]. rewrite <- (IH2 d t' eq_refl).
           destruct (encodeURIComponent t'); simpl; split; intros Q;
             solve [discriminate Q | reflexivity].
        -- cbn [andb negb]. rewrite <- IH1.
           destruct (encodeURIComponent t); simpl; split; intros Q;
        solve [discriminate Q | reflexivity].
Qed.

(** *** [trim] *)

Lemma trimStart_spaces (w s : string) :
  Forall (fun c => isWhiteSpace c = true) w -> trimStart (w ++ s) = trimStart s.
Proof. induction 1 as [|c w W _ IH]; [reflexivity|]. simpl. rewrite W. exact IH. Qed.

Lemma trimStart_all_spaces (w : string) :
  Forall (fun c => isWhiteSpace c = true) w -> trimStart w = [].
Proof.
  intros W. rewrite <- (app_nil_r w). rewrite (trimStart_spaces w [] W). reflexivity.
Qed.

Lemma trimEnd_spaces (s w : string) :
  Forall (fun c => isWhiteSpace c = true) w -> trimEnd (s ++ w) = trimEnd s.
Proof.
  intros W. unfold trimEnd. rewrite rev_app_distr, trimStart_spaces; [reflexivity|].
  apply Forall_rev. exact W.
Qed.

Lemma trim_spaces_end (s w : string) :
  Forall (fun c => isWhiteSpace c = true) w ->
  trimEnd (trimStart (s ++ w)) = trimEnd (trimStart s).
Proof.
  intros W. induction s as [|c t IH]; simpl.
  - rewrite (trimStart_all_spaces w W). reflexivity.
  - destruct (isWhiteSpace c); [exact IH|].
    change (c :: t ++ w) with ((c :: t) ++ w). apply trimEnd_spaces, W.
Qed.

Lemma trim_spaces (w1 s w2 : string) :
  Forall (fun c => isWhiteSpace c = true) w1 ->
  Forall (fun c => isWhiteSpace c = true) w2 ->
  trim (w1 ++ s ++ w2) = trim s.
Proof.
  intros W1 W2. unfold trim. rewrite (trimStart_spaces w1 _ W1). apply trim_spaces_end, W2.
Qed.

Lemma trimStart_no_space (s : string) :
  Forall (fun c => isWhiteSpace c = false) s -> trimStart s = s.
Proof. destruct 1 as [|c t C _]; [reflexivity|]. simpl. rewrite C. reflexivity. Qed.

Lemma trim_no_space (s : string) :
  Forall (fun c => isWhiteSpace c = false) s -> trim s = s.
Proof.
  intros N. unfold trim, trimEnd. rewrite (trimStart_no_space s N).
  rewrite trimStart_no_space by (apply Forall_rev; exact N). apply rev_involutive.
Qed.

End URLFacts.

(** *** [encodeURIComponent] is injective *)

Module Injective.

Import JSString URLFacts.
Local Open Scope N_scope.

Lemma utf8_value_utf8 (cp : N) : cp < 0x110000 -> utf8_value (utf8 cp) = cp.
Proof.
  intros H. unfold utf8.
  destruct (N.ltb_spec cp 0x80); [reflexivity|].
  destruct (N.ltb_spec cp 0x800); [unfold utf8_value; nlia|].
  destruct (N.ltb_spec cp 0x10000); unfold utf8_value; nlia.
Qed.

(** The first octet tells how many follow. *)
Lemma utf8_lead (cp : N) :
  cp < 0x110000 ->
  exists o l, utf8 cp = o :: l
    /\ ((o < 0x80 /\ length l = 0%nat) \/ (0xC0 <= o < 0xE0 /\ length l = 1%nat)
        \/ (0xE0 <= o < 0xF0 /\ length l = 2%nat)
        \/ (0xF0 <= o < 0xF8 /\ length l = 3%nat)).
Proof.
  intros H. unfold utf8.
  destruct (N.ltb_spec cp 0x80);
    [eexists; eexists; split; [reflexivity|left; split; [lia|reflexivity]]|].
  destruct (N.ltb_spec cp 0x800);
    [eexists; eexists; split; [reflexivity|right; left; split; [nlia|reflexivity]]|].
  destruct (N.ltb_spec cp 0x10000);
    eexists; eexists; (split; [reflexivity|]); right; right; [left|right];
    (split; [nlia|reflexivity]).
Qed.

Lemma hexDigit_inj (a b : N) : a < 16 -> b < 16 -> hexDigit a = hexDigit b -> a = b.
Proof.
  unfold hexDigit. intros Ha Hb.
  destruct (N.ltb_spec a 10), (N.ltb_spec b 10); lia.
Qed.

Lemma escape_inj (o o' : N) (x y : string) :
  o < 256 -> o' < 256 -> escape o ++ x = escape o' ++ y -> o = o' /\ x = y.
Proof.
  intros Ho Ho' E. unfold escape in E. simpl in E. inversion E as [[E1 E2 E3]].
  apply hexDigit_inj in E1; [|nlia|nlia]. apply hexDigit_inj in E2; [|nlia|nlia].
  split; [nlia|reflexivity].
Qed.

Lemma escapes_inj (l l' : list N) (x y : string) :
  Forall (fun o => o < 256) l -> Forall (fun o => o < 256) l' ->
  length l = length l' ->
  flat_map escape l ++ x = flat_map escape l' ++ y -> l = l' /\ x = y.
Proof.
  intros Hl. revert l'. induction Hl as [|o l Ho _ IH]; intros l' Hl' L E.
  - destruct l'; [|discriminate]. simpl in E. auto.
  - destruct Hl' as [|o' l' Ho' Hl']; [discriminate|].
    cbn [flat_map] in E. rewrite <- !app_assoc in E.
    apply escape_inj in E; [|assumption|assumption]. destruct E as [Eo E].
    simpl in L. destruct (IH l' Hl' ltac:(lia) E) as [El Exy]. subst. auto.
Qed.

(** Two escaped code points that start the same output are the same. *)
Lemma escaped_inj (a b : N) (x y : string) :
  a < 0x110000 -> b < 0x110000 ->
  flat_map escape (utf8 a) ++ x = flat_map escape (utf8 b) ++ y -> a = b /\ x = y.
Proof.
  intros Ha Hb E.
  pose proof (utf8_octets a Ha) as Oa. pose proof (utf8_octets b Hb) as Ob.
  destruct (utf8_lead a Ha) as [oa [la [Ea Ca]]].
  destruct (utf8_lead b Hb) as [ob [lb [Eb Cb]]].
  assert (L : length (utf8 a) = length (utf8 b)).
  { rewrite Ea, Eb in *. cbn [flat_map] in E. rewrite <- !app_assoc in E.
    inversion Oa; inversion Ob; subst.
    apply escape_inj in E; [|assumption|assumption]. destruct E as [Eo _]. subst ob.
    simpl. lia. }
  destruct (escapes_inj _ _ x y Oa Ob L E) as [U Exy].
  split; [|exact Exy].
  rewrite <- (utf8_value_utf8 a Ha), <- (utf8_value_utf8 b Hb), U. reflexivity.
Qed.

Lemma escaped_head (cp : N) (x : string) :
  exists r, flat_map escape (utf8 cp) ++ x = 0x25 :: r.
Proof.
  unfold utf8.
  destruct (cp <? 0x80); [|destruct (cp <? 0x800); [|destruct (cp <? 0x10000)]];
    eexists; reflexivity.
Qed.

Lemma encodeURIComponent_step (c : N) (t e : string) :
  encodeURIComponent (c :: t) = Some e -> encoded c t e.
Proof.
  cbn [encodeURIComponent]. intros E.
  destruct (isUnreserved c) eqn:U.
  - destruct (encodeURIComponent t) as [e'|] eqn:Et; [|discriminate].
    inversion E. eapply encoded_unreserved; eauto.
  - destruct (isTrailSurrogate c) eqn:T; [discriminate|].
    destruct (isLeadSurrogate c) eqn:L.
    + destruct t as [|d t']; [discriminate|].
      destruct (isTrailSurrogate d) eqn:Td; [|discriminate].
      destruct (encodeURIComponent t') as [e'|] eqn:Et; [|discriminate].
      inversion E. eapply encoded_pair; eauto.
    + destruct (encodeURIComponent t) as [e'|] eqn:Et; [|discriminate].
      inversion E. eapply encoded_escaped; eauto.
Qed.

Lemma encoded_nonempty (c : N) (t : string) : ~ encoded c t [].
Proof.
  intros [e' _ _ E|e' _ _ _ _ E|d t' e' _ _ _ _ _ E]; [discriminate| |].
  - destruct (escaped_head c e') as [r R]. rewrite R in E. discriminate.
  - destruct (escaped_head (codePoint c d) e') as [r R]. rewrite R in E. discriminate.
Qed.

Lemma pair_inj (c d c' d' : N) :
  isLeadSurrogate c = true -> isTrailSurrogate d = true ->
  isLeadSurrogate c' = true -> isTrailSurrogate d' = true ->
  codePoint c d = codePoint c' d' -> c = c' /\ d = d'.
Proof. unfold isLeadSurrogate, isTrailSurrogate, codePoint. to_prop. lia. Qed.

Lemma encodeURIComponent_inj_length (n : nat) (s t e : string) :
  (length s <= n)%nat -> code_units s -> code_units t ->
  encodeURIComponent s = Some e -> encodeURIComponent t = Some e -> s = t.
Proof.
  revert s t e. induction n as [|n IH]; intros s t e L Vs Vt Es Et.
  - destruct s; [|simpl in L; lia]. simpl in Es. inversion Es. subst e.
    destruct t as [|c t]; [reflexivity|].
    apply encodeURIComponent_step in Et. exfalso. exact (encoded_nonempty _ _ Et).
  - destruct s as [|c s].
    { simpl in Es. inversion Es. subst e.
      destruct t as [|c t]; [reflexivity|].
      apply encodeURIComponent_step in Et. exfalso. exact (encoded_nonempty _ _ Et). }
    destruct t as [|c2 t].
    { simpl in Et. inversion Et. subst e.
      apply encodeURIComponent_step in Es. exfalso. exact (encoded_nonempty _ _ Es). }
    simpl in L. inversion Vs as [|? ? Vc Vs']; subst. inversion Vt as [|? ? Vc2 Vt']; subst.
    apply encodeURIComponent_step in Es, Et.
    destruct Es as [e1 U1 E1 R1|e1 U1 L1 T1 E1 R1|d1 s1 e1 U1 L1 S1 T1 E1 R1];
      destruct Et as [e2 U2 E2 R2|e2 U2 L2 T2 E2 R2|d2 s2 e2 U2 L2 S2 T2 E2 R2];
      subst e.
    + inversion R2. subst. f_equal. apply (IH s t e2); auto. lia.
    + exfalso. destruct (escaped_head c2 e2) as [r R]. rewrite R in R2.
      inversion R2. apply unreserved_ascii in U1. lia.
    + exfalso. destruct (escaped_head (codePoint c2 d2) e2) as [r R]. rewrite R in R2.
      inversion R2. apply unreserved_ascii in U1. lia.
    + exfalso. destruct (escaped_head c e1) as [r R]. rewrite R in R2.
      inversion R2. apply unreserved_ascii in U2. lia.
    + apply escaped_inj in R2; [|lia|lia]. destruct R2 as [Ec Ee]. subst.
      f_equal. apply (IH s t e2); auto. lia.
    + exfalso. pose proof (codePoint_range c2 d2 L2 T2) as R.
      apply escaped_inj in R2; [|lia|lia]. lia.
    + exfalso. destruct (escaped_head (codePoint c d1) e1) as [r R]. rewrite R in R2.
      inversion R2. apply unreserved_ascii in U2. lia.
    + exfalso. pose proof (codePoint_range c d1 L1 T1) as R.
      apply escaped_inj in R2; [|lia|lia]. lia.
    + pose proof (codePoint_range c d1 L1 T1) as Ra.
      pose proof (codePoint_range c2 d2 L2 T2) as Rb.
      apply escaped_inj in R2; [|lia|lia]. destruct R2 as [Ec Ee].
      destruct (pair_inj _ _ _ _ L1 T1 L2 T2 Ec) as [P1 P2]. subst.
      f_equal. f_equal. simpl in L.
      inversion Vs' as [|? ? _ Vs1]; inversion Vt' as [|? ? _ Vt1]; subst.
      apply (IH s1 s2 e2); auto. lia.
Qed.

Lemma encodeURIComponent_inj (s t e : string) :
  code_units s -> code_units t ->
  encodeURIComponent s = Some e -> encodeURIComponent t = Some e -> s = t.
Proof. apply (encodeURIComponent_inj_length (length s)). lia. Qed.

End Injective.

(** *** The URL of a symbol *)

Lemma logoUrl_inj (a b : JSString.string) : logoUrl a = logoUrl b -> a = b.
Proof.
  unfold logoUrl. intros E. apply app_inv_head in E. apply app_inv_tail in E. exact E.
Qed.

Lemma trimStart_Forall (P : N -> Prop) (s : JSString.string) :
  Forall P s -> Forall P (JSString.trimStart s).
Proof.
  induction 1 as [|c t Hc Ht IH]; simpl; [constructor|].
  destruct (JSString.isWhiteSpace c); [exact IH|constructor; assumption].
Qed.

Lemma trim_Forall (P : N -> Prop) (s : JSString.string) :
  Forall P s -> Forall P (JSString.trim s).
Proof.
  intros H. unfold JSString.trim, JSString.trimEnd.
  apply Forall_rev, trimStart_Forall, Forall_rev, trimStart_Forall, H.
Qed.

(** X20: whatever the symbol, the URL a helper asks for is the fixed prefix, a
    slug of unreserved characters and [%], and [.png]: a symbol cannot add
    a path segment, a query or a fragment to it. *)
Theorem logo_url_slug (symbol url : JSString.string) :
  JSString.code_units symbol ->
  fmpSymbolUrl symbol = resolved url \/ browserSrc symbol = resolved url ->
  exists slug, url = logoUrl slug /\ Forall (fun c => isSlugChar c = true) slug.
Proof.
  intros V [E|E].
  - unfold fmpSymbolUrl in E.
    destruct (JSString.encodeURIComponent (JSString.trim symbol)) as [slug|] eqn:S;
      [|discriminate].
    inversion E. exists slug. split; [reflexivity|].
    apply (URLFacts.encodeURIComponent_slug (JSString.trim symbol)); [|exact S].
    apply trim_Forall, V.
  - unfold browserSrc in E.
    destruct (JSString.encodeURIComponent symbol) as [slug|] eqn:S; [|discriminate].
    inversion E. exists slug. split; [reflexivity|].
    apply (URLFacts.encodeURIComponent_slug symbol); assumption.
Qed.

Lemma logo_url_slug_witness :
  exists slug,
    logoUrl (JSString.of_ascii "..%2F..%2Fetc%3Fx%3D1") = logoUrl slug
    /\ Forall (fun c => isSlugChar c = true) slug.
Proof.
  apply (logo_url_slug (JSString.of_ascii "../../etc?x=1")).
  - unfold JSString.code_units. repeat constructor.
  - left. reflexivity.
Defined.

(** X21: white space around the symbol does not change the URL
    [suggestFmpSymbolBackground] fetches. *)
Theorem logo_url_trimmed (w1 symbol w2 : JSString.string) :
  Forall (fun c => JSString.isWhiteSpace c = true) w1 ->
  Forall (fun c => JSString.isWhiteSpace c = true) w2 ->
  fmpSymbolUrl (w1 ++ symbol ++ w2) = fmpSymbolUrl symbol.
Proof.
  intros W1 W2. unfold fmpSymbolUrl. rewrite (URLFacts.trim_spaces w1 symbol w2 W1 W2).
  reflexivity.
Qed.

Lemma logo_url_trimmed_witness :
  fmpSymbolUrl (JSString.of_ascii "  " ++ JSString.of_ascii "BRK-A" ++ [0x0A; 0xA0]%N)
  = fmpSymbolUrl (JSString.of_ascii "BRK-A").
Proof. apply logo_url_trimmed; repeat constructor. Defined.

(** X22: a symbol of letters, digits and [- _ . ! ~ * ' ( )] goes into the URL
    as it is, in both helpers. *)
Theorem logo_url_of_ticker (symbol : JSString.string) :
  Forall (fun c => JSString.isUnreserved c = true) symbol ->
  fmpSymbolUrl symbol = resolved (logoUrl symbol)
  /\ browserSrc symbol = resolved (logoUrl symbol).
Proof.
  intros U. unfold fmpSymbolUrl, browserSrc.
  rewrite URLFacts.trim_no_space.
  - rewrite (URLFacts.encodeURIComponent_unreserved symbol U). auto.
  - apply (Forall_impl _ URLFacts.unreserved_not_space U).
Qed.

Lemma logo_url_of_ticker_witness :
  fmpSymbolUrl (JSString.of_ascii "BRK-A")
  = resolved
      (JSString.of_ascii "https://images.financialmodelingprep.com/symbol/BRK-A.png").
Proof.
  apply (logo_url_of_ticker (JSString.of_ascii "BRK-A")). repeat constructor.
Defined.

(** X23: symbols that differ after trimming are fetched from different URLs. *)
Theorem logo_url_injective (s t url : JSString.string) :
  JSString.code_units s -> JSString.code_units t ->
  fmpSymbolUrl s = resolved url -> fmpSymbolUrl t = resolved url ->
  JSString.trim s = JSString.trim t.
Proof.
  unfold fmpSymbolUrl. intros Vs Vt Es Et.
  destruct (JSString.encodeURIComponent (JSString.trim s)) as [a|] eqn:A; [|discriminate].
  destruct (JSString.encodeURIComponent (JSString.trim t)) as [b|] eqn:B; [|discriminate].
  assert (Q : logoUrl a = logoUrl b) by congruence.
  apply logoUrl_inj in Q. subst b.
  apply (Injective.encodeURIComponent_inj _ _ a);
    [apply trim_Forall, Vs|apply trim_Forall, Vt|exact A|exact B].
Qed.

Lemma logo_url_injective_witness :
  JSString.trim (JSString.of_ascii " AAPL") = JSString.trim (JSString.of_ascii "AAPL ").
Proof.
  apply (logo_url_injective _ _
           (JSString.of_ascii "https://images.financialmodelingprep.com/symbol/AAPL.png"));
    solve [repeat constructor | reflexivity].
Defined.

(** X24: building the URL fails, with a URIError, exactly when the symbol (in
    [suggestFmpSymbolBackground]: the trimmed symbol) holds a surrogate
    without its partner, and with no other error;
    [suggestFmpSymbolBackground] is then rejected with the URIError
    whatever the platform answers. *)
Theorem logo_url_error (symbol : JSString.string) :
  (fmpSymbolUrl symbol = rejected URIError
   <-> isWellFormed (JSString.trim symbol) = false)
  /\ (browserSrc symbol = rejected URIError <-> isWellFormed symbol = false)
  /\ (forall e, fmpSymbolUrl symbol = rejected e \/ browserSrc symbol = rejected e ->
      e = URIError)
  /\ (forall fetch pngjs options,
      isWellFormed (JSString.trim symbol) = false ->
      suggestFmpSymbolBackground fetch pngjs symbol options = rejected URIError).
Proof.
  split; [|split; [|split]].
  - unfold fmpSymbolUrl. rewrite <- URLFacts.encodeURIComponent_None.
    destruct (JSString.encodeURIComponent (JSString.trim symbol));
      split; intros H; solve [discriminate H | reflexivity].
  - unfold browserSrc. rewrite <- URLFacts.encodeURIComponent_None.
    destruct (JSString.encodeURIComponent symbol);
      split; intros H; solve [discriminate H | reflexivity].
  - unfold fmpSymbolUrl, browserSrc. intros e [E|E].
    + destruct (JSString.encodeURIComponent (JSString.trim symbol));
        [discriminate E|inversion E; reflexivity].
    + destruct (JSString.encodeURIComponent symbol);
        [discriminate E|inversion E; reflexivity].
  - intros fetch pngjs options W. apply URLFacts.encodeURIComponent_None in W.
    unfold suggestFmpSymbolBackground, fmpSymbolUrl. rewrite W. reflexivity.
Qed.

Lemma logo_url_error_witness :
  suggestFmpSymbolBackground (fetch_ok []) (pngjs_decoding dark_logo)
    (JSString.of_ascii "A" ++ [0xD83D]%N) None
  = rejected URIError.
Proof.
  destruct (logo_url_error (JSString.of_ascii "A" ++ [0xD83D]%N)) as [_ [_ [_ H]]].
  apply H. reflexivity.
Defined.

(** X25: the browser helper does not trim: its [src] is the URL the Node helper
    fetches exactly when the symbol has no white space around it. *)
Theorem browser_src_is_node_url (symbol url : JSString.string) :
  JSString.code_units symbol -> fmpSymbolUrl symbol = resolved url ->
  (browserSrc symbol = resolved url <-> JSString.trim symbol = symbol).
Proof.
  unfold fmpSymbolUrl, browserSrc. intros V E.
  destruct (JSString.encodeURIComponent (JSString.trim symbol)) as [a|] eqn:A;
    [|discriminate].
  split.
  - destruct (JSString.encodeURIComponent symbol) as [b|] eqn:B; [|discriminate].
    intros Eb. assert (Q : logoUrl b = logoUrl a) by congruence.
    apply logoUrl_inj in Q. subst b.
    apply (Injective.encodeURIComponent_inj _ _ a);
      [apply trim_Forall, V|exact V|exact A|exact B].
  - intros T. rewrite T in A. rewrite A. exact E.
Qed.

Lemma browser_src_is_node_url_witness :
  browserSrc (JSString.of_ascii " AAPL")
  <> resolved (JSString.of_ascii "https://images.financialmodelingprep.com/symbol/AAPL.png").
Proof.
  intros B.
  apply (browser_src_is_node_url (JSString.of_ascii " AAPL")) in B;
    [discriminate B|repeat constructor|reflexivity].
Defined.

(** * The bitmaps of the unit tests *)

Lemma ToUint8Clamp_of_byte (b : byte) : ToUint8Clamp (of_byte b) = b.
Proof. destruct b; vm_compute; reflexivity. Qed.

(** X26: [makeImage] stores channel values 0..255 as they are: given
    [width * height * 4] of them it builds a well-formed bitmap, and the
    analyzer reads back the numbers it was given. *)
Theorem makeImage_of_bytes (channels : list byte) (w h i : nat) :
  length channels = (w * h * 4)%nat ->
  let img := makeImage (map of_byte channels) w h in
  data img = channels /\ well_formed img
  /\ read (data img) i = nth i (map of_byte channels) nan.
Proof.
  intros L. cbv zeta. unfold makeImage. cbn [data width height].
  assert (E : map ToUint8Clamp (map of_byte channels) = channels).
  { rewrite map_map. rewrite (map_ext _ (fun b => b) ToUint8Clamp_of_byte). apply map_id. }
  rewrite E. split; [reflexivity|]. split.
  - unfold well_formed. cbn [data width height]. lia.
  - unfold read. clear L E. revert i.
    induction channels as [|b l IH]; intros [|i]; simpl; try reflexivity. apply IH.
Qed.

Lemma makeImage_of_bytes_witness :
  makeImage (map of_byte (concat (repeat (rgba 10 10 10 255) 4))) 2 2 = dark_logo.
Proof.
  pose proof (makeImage_of_bytes (concat (repeat (rgba 10 10 10 255) 4)) 2 2 0 eq_refl) as M.
  cbv zeta in M. destruct M as [D _].
  unfold makeImage in *. cbn [data] in D. rewrite D. reflexivity.
Defined.

(** * Relative luminance *)

Lemma linear_below_11 (b : byte) :
  (of_byte b / 255 <=? 0.03928) = (level b <=? 10)%nat.
Proof. destruct b; vm_compute; reflexivity. Qed.

(** X27: for 8-bit channels, [relativeLuminance] takes the linear segment
    [c / 12.92] for the values 0 to 10 and the power curve from 11 on,
    whatever [Math.pow] computes. *)
Theorem relativeLuminance_segments (Math_pow : number -> number -> number)
    (r g b : byte) :
  let channel := fun v : byte =>
    if (level v <=? 10)%nat then of_byte v / 255 / 12.92
    else Math_pow ((of_byte v / 255 + 0.055) / 1.055) 2.4 in
  relativeLuminance Math_pow (of_byte r) (of_byte g) (of_byte b)
  = 0.2126 * channel r + 0.7152 * channel g + 0.0722 * channel b.
Proof.
  cbv zeta. unfold relativeLuminance, linearize. cbn [map nth].
  rewrite !linear_below_11. reflexivity.
Qed.
